(** * ABeamer expressions: a shallow embedding of
      [src/client/lib/js/expressions.ts]

    The development follows the source file from top to bottom:
    - [JsNumber]: the host's numbers (IEEE binary64), [parseFloat],
      [Number.prototype.toString] and the [%] operator;
    - the token tables ([TokenType], [TokenClass], [opPriority], [Type2Class]);
    - the lexer [parser];
    - [_calcUnary], [_calcBinary], [_execArray], [_execExprFunction];
    - the state machine [_stateMachine] and the public wrappers.

    JavaScript arrays are objects: a token or a variable holds a reference to
    an array, and [_calcBinary] writes through that reference.  Arrays
    therefore live in a store ([heap]) and are named by their address.

    A text is a [string] of 8-bit characters, indexed from 0 as in the
    source; positions are natural numbers.  A field that may be undefined
    is an [option].  The loops of the lexer run over the rest of the text;
    the loops of the state machine carry a bound on their passes, which is
    shown never to be met. *)

From Stdlib Require Import ZArith String Ascii Bool Lia.
From Stdlib Require Import Floats.PrimFloat Floats.SpecFloat Floats.FloatOps.
From Stdlib Require Import Numbers.DecimalString.
From Stdlib Require Floats.FloatAxioms.
From Stdlib Require Numbers.DecimalFacts Numbers.DecimalPos Numbers.DecimalN.
From Stdlib Require QArith.QArith QArith.Qround QArith.Qpower.
From stdpp Require Import base option list gmap strings.

Local Open Scope string_scope.
Local Open Scope Z_scope.

(* ===================================================================== *)
(** ** Host numbers *)
(* ===================================================================== *)

Module JsNumber.

(** A JavaScript number is an IEEE 754 binary64 value. *)
Abbreviation number := float.

Definition NaN : number := nan.
Definition ofZ (z : Z) : number := SF2Prim (binary_normalize prec emax z 0 false).

(** The number nearest to [m * 10^e] (ties to even), with the sign [neg]:
    what the host does with the mathematical value of a decimal literal. *)
Definition ofDecimal (neg : bool) (m : Z) (e : Z) : number :=
  match m with
  | Z0 => if neg then neg_zero else zero
  | Zpos p =>
      if 0 <=? e
      then SF2Prim (binary_round prec emax neg (p * Z.to_pos (10 ^ e))%positive 0)
      else SF2Prim (SFdiv prec emax (S754_finite neg p 0)
                                    (S754_finite false (Z.to_pos (10 ^ (- e))) 0))
  | Zneg _ => NaN
  end.

(** *** Characters *)

Definition code (c : ascii) : Z := Z.of_nat (nat_of_ascii c).

Definition isDecimalDigit (c : ascii) : bool := (48 <=? code c) && (code c <=? 57).
Definition digitValue (c : ascii) : Z := code c - 48.

(** White space and line terminators that [parseFloat] trims (the 8-bit ones). *)
Definition isStrWhiteSpaceChar (c : ascii) : bool :=
  let n := code c in
  (n =? 9) || (n =? 10) || (n =? 11) || (n =? 12) || (n =? 13) || (n =? 32) || (n =? 160).

Fixpoint trimStart (s : string) : string :=
  match s with
  | String c r => if isStrWhiteSpaceChar c then trimStart r else s
  | EmptyString => s
  end.

(** Reads the leading decimal digits of [s]: their value continuing from
    [acc], how many were read, and what follows. *)
Fixpoint readDigits (s : string) (acc : Z) (count : Z) : Z * Z * string :=
  match s with
  | String c r =>
      if isDecimalDigit c then readDigits r (10 * acc + digitValue c) (count + 1)
      else (acc, count, s)
  | EmptyString => (acc, count, s)
  end.

(** The exponent part [e], [e+] or [e-] followed by at least one digit;
    0 when there is none (the prefix that parses is then shorter). *)
Definition readExponent (s : string) : Z :=
  match s with
  | String c r =>
      if (code c =? 101) || (code c =? 69) then
        let '(neg, r') :=
          match r with
          | String d r' =>
              if code d =? 45 then (true, r')
              else if code d =? 43 then (false, r') else (false, r)
          | EmptyString => (false, r)
          end in
        let '(v, n, _) := readDigits r' 0 0 in
        if n =? 0 then 0 else if neg then - v else v
      else 0
  | EmptyString => 0
  end.

Definition startsWith (p s : string) : bool := String.prefix p s.

(** [parseFloat(s)]: the longest prefix of the trimmed text that is a
    StrDecimalLiteral, NaN when there is none. *)
Definition parseFloat (s : string) : number :=
  let t := trimStart s in
  let '(neg, u) :=
    match t with
    | String c r =>
        if code c =? 45 then (true, r)
        else if code c =? 43 then (false, r) else (false, t)
    | EmptyString => (false, t)
    end in
  if startsWith "Infinity" u then (if neg then neg_infinity else infinity)
  else
    let '(ip, ni, afterInt) := readDigits u 0 0 in
    let '(m, nf, afterFrac) :=
      match afterInt with
      | String c r =>
          if code c =? 46 then
            let '(m, nf, rest) := readDigits r ip 0 in
            (* a lone point after no digit at all is not a literal *)
            if (ni =? 0) && (nf =? 0) then (ip, 0, afterInt) else (m, nf, rest)
          else (ip, 0, afterInt)
      | EmptyString => (ip, 0, afterInt)
      end in
    if (ni =? 0) && (nf =? 0) then NaN
    else ofDecimal neg m (readExponent afterFrac - nf).

(** *** Number to text *)

Definition digitsOfZ (z : Z) : string := NilZero.string_of_uint (N.to_uint (Z.to_N z)).

Fixpoint zeros (n : nat) : string :=
  match n with
  | O => ""
  | S k => String "0" (zeros k)
  end.

(** The rational [num / den] scaled by [10^p]. *)
Definition scale10 (num den p : Z) : Z * Z :=
  if 0 <=? p then (num * 10 ^ p, den) else (num, den * 10 ^ (- p)).

(** The least [n] from the starting one with [num / den < 10^n], searched
    upwards. *)
Fixpoint decimalExponent (fuel : nat) (num den n : Z) : Z :=
  match fuel with
  | O => n
  | S f =>
      let '(a, b) := scale10 num den (- n) in
      if a <? b then n else decimalExponent f num den (n + 1)
  end.

(** For a positive finite [x = num / den] and a digit count [k]: the
    candidates [s] (with [10^(k-1) <= s < 10^k] and exponent [n]) next to
    [x], kept when [s * 10^(n-k)] reads back as [x]; the nearest first.
    A candidate that reaches [10^k] is the digit 1 with the next exponent. *)
Definition candidate (x : number) (num den n k : Z) : option (Z * Z) :=
  let '(a, b) := scale10 num den (k - n) in
  let lo := a / b in
  let hi := lo + 1 in
  let norm s := if s =? 10 ^ k then (10 ^ (k - 1), n + 1) else (s, n) in
  let ok s :=
    let '(s', n') := norm s in
    (0 <? s) && PrimFloat.eqb (ofDecimal false s' (n' - k)) x in
  (* distance of lo is (a - lo*b)/b, of hi is (hi*b - a)/b *)
  let dlo := a - lo * b in
  let dhi := hi * b - a in
  let loFirst := (dlo <? dhi) || ((dlo =? dhi) && Z.even lo) in
  match ok lo && (10 ^ (k - 1) <=? lo), ok hi with
  | true, true => Some (norm (if loFirst then lo else hi))
  | true, false => Some (norm lo)
  | false, true => Some (norm hi)
  | false, false => None
  end.

Fixpoint shortest (fuel : nat) (x : number) (num den n k : Z) : Z * Z * Z :=
  match candidate x num den n k with
  | Some (s, n') => (s, n', k)
  | None =>
      match fuel with
      | O => (0, n, k)
      | S f => shortest f x num den n (k + 1)
      end
  end.

(** The digit counts that the search goes through.  The exact decimal
    expansion of a binary64 value has fewer digits than this, and it reads
    back as the value, so the search always finds its digits. *)
Definition maxDigits : nat := 1200.

(** Number::toString(x) for radix 10. *)
Definition toString (x : number) : string :=
  match Prim2SF x with
  | S754_nan => "NaN"
  | S754_zero _ => "0"
  | S754_infinity s => if s then "-Infinity" else "Infinity"
  | S754_finite sg m e =>
      let '(num, den) :=
        if 0 <=? e then (Zpos m * 2 ^ e, 1) else (Zpos m, 2 ^ (- e)) in
      (* [x] lies in [2^(E-1), 2^E) for [E] the binary exponent below: the
         search starts just under the decimal exponent that this gives *)
      let E := Zpos (digits2_pos m) + e in
      let n0 := decimalExponent 8 num den ((E - 1) * 30103 / 100000 - 1) in
      let '(s, n, k) := shortest maxDigits (abs x) num den n0 1 in
      let ds := digitsOfZ s in
      let body :=
        if (k <=? n) && (n <=? 21) then ds ++ zeros (Z.to_nat (n - k))
        else if (0 <? n) && (n <=? 21) then
          substring 0 (Z.to_nat n) ds ++ "." ++
          substring (Z.to_nat n) (Z.to_nat (k - n)) ds
        else if (-6 <? n) && (n <=? 0) then "0." ++ zeros (Z.to_nat (- n)) ++ ds
        else
          let ex := n - 1 in
          let exs := (if ex <? 0 then "-" else "+") ++ digitsOfZ (Z.abs ex) in
          if k =? 1 then ds ++ "e" ++ exs
          else substring 0 1 ds ++ "." ++
               substring 1 (Z.to_nat (k - 1)) ds ++ "e" ++ exs in
      if sg then "-" ++ body else body
  end.

(** *** The remainder operator [%] (C's fmod: exact, sign of the dividend). *)
Definition rem (a b : number) : number :=
  match Prim2SF a, Prim2SF b with
  | S754_nan, _ | _, S754_nan => NaN
  | S754_infinity _, _ => NaN
  | _, S754_zero _ => NaN
  | S754_zero _, _ => a
  | S754_finite _ _ _, S754_infinity _ => a
  | S754_finite sa ma ea, S754_finite _ mb eb =>
      let e := Z.min ea eb in
      let A := Zpos ma * 2 ^ (ea - e) in
      let B := Zpos mb * 2 ^ (eb - e) in
      let R := Z.rem A B in
      if R =? 0 then (if sa then neg_zero else zero)
      else SF2Prim (binary_normalize prec emax (if sa then - R else R) e false)
  end.

(** ToBoolean on a number: false for +0, -0 and NaN. *)
Definition toBoolean (x : number) : bool := negb (is_zero x || is_nan x).

End JsNumber.

Import JsNumber.

(* ===================================================================== *)
(** ** Results of a computation that may throw *)
(* ===================================================================== *)

(** The message handed to [err(p, msg)]; [UnaryErr] is [Msgs.UnaryErr], a
    text of the messages module. *)
Inductive ErrMsg : Type :=
  | UnknownVariable (varName : string)
  | UnsupportedTypeOf (varName : string)
  | UnknownToken (ch : string) (pos : nat)
  | UnknownFunction (funcName : string)
  | EmptyMsg
  | MissingStartingParenthesis
  | MissingFunction
  | StackNotEmpty
  | NotAValue
  | UnaryErr
  | ThisOpOnlySupportsNumbers.

(** Modelled from the spec: the throwing helpers [throwI8n] and [throwErr]
    and the message table [Msgs] are declared outside the expressions
    module.  Every failure is raised at once and unwinds the whole
    evaluation, so each call is an error value that ends the computation. *)
Inductive Error : Type :=
  | ExpHasErrors (e : string) (err : ErrMsg)   (* throwI8n(Msgs.ExpHasErrors, ...) *)
  | ThrowErr (msg : string)                   (* throwErr(msg) *)
  | MustBeANumber (p : string)                (* throwI8n(Msgs.MustBeANumber, ...) *)
  | TypeError                                 (* a property of undefined is read *)
  | FunctionError (msg : string).             (* thrown by a registered function *)

(** A computation returns, throws, or (for the loops that are given a bound)
    stops at the bound. *)
Inductive Res (A : Type) : Type :=
  | Ok (a : A)
  | Err (e : Error)
  | OutOfFuel.
Arguments Ok {A} a.
Arguments Err {A} e.
Arguments OutOfFuel {A}.

#[global] Instance Res_ret : MRet Res := fun A a => Ok a.
#[global] Instance Res_bind : MBind Res := fun A B f m =>
  match m with
  | Ok a => f a
  | Err e => Err e
  | OutOfFuel => OutOfFuel
  end.

Definition fromOption {A : Type} (o : option A) : Res A :=
  match o with
  | Some a => Ok a
  | None => Err TypeError
  end.

(* ===================================================================== *)
(** ** Tokens and the operator tables *)
(* ===================================================================== *)

Module TokenType.
Inductive t : Type :=
  | None | Function | ArrayOpen | ArrayClose | Comma | ParamOpen | ParamClose
  | Value | Plus | Minus | Multiply | Divide | Mod | Equal | Different
  | Lesser | Greater | LessEqual | GreaterEqual
  | LogicalAnd | LogicalOr | LogicalNot.

(** The numeric value of the enum member. *)
Definition index (x : t) : nat :=
  match x with
  | None => 0 | Function => 1 | ArrayOpen => 2 | ArrayClose => 3
  | Comma => 4 | ParamOpen => 5 | ParamClose => 6 | Value => 7
  | Plus => 8 | Minus => 9 | Multiply => 10 | Divide => 11 | Mod => 12
  | Equal => 13 | Different => 14 | Lesser => 15 | Greater => 16
  | LessEqual => 17 | GreaterEqual => 18
  | LogicalAnd => 19 | LogicalOr => 20 | LogicalNot => 21
  end%nat.

Definition eqb (x y : t) : bool := Nat.eqb (index x) (index y).
End TokenType.

Module TokenClass.
Inductive t : Type :=
  | None | Function | ArrayOpen | ArrayClose | Value | ParamOpen | ParamClose
  | Unary | LogicalUnary | Binary | Comma.

Definition index (x : t) : nat :=
  match x with
  | None => 0 | Function => 1 | ArrayOpen => 2 | ArrayClose => 3 | Value => 4
  | ParamOpen => 5 | ParamClose => 6 | Unary => 7 | LogicalUnary => 8
  | Binary => 9 | Comma => 10
  end%nat.

Definition eqb (x y : t) : bool := Nat.eqb (index x) (index y).
End TokenClass.

(** Modelled from the spec: [ExFuncParamType] is declared in the functions
    module; a payload is a string, a number or a numeric array, and [Any] is
    the wildcard of the argument checks. *)
Module ExFuncParamType.
Inductive t : Type := Any | Number | String | Array.

Definition eqb (x y : t) : bool :=
  match x, y with
  | Any, Any | Number, Number | String, String | Array, Array => true
  | _, _ => false
  end.
End ExFuncParamType.

(** [paType === x] on a field that may be undefined. *)
Definition paTypeIs (p : option ExFuncParamType.t) (x : ExFuncParamType.t) : bool :=
  match p with
  | Some y => ExFuncParamType.eqb y x
  | None => false
  end.

(** Arrays are objects in a store; [addr] names one. *)
Abbreviation addr := nat.

(** An array element: a number, or [undefined] ([None]). *)
Abbreviation JsArray := (list (option number)).

(** What the field [sValue] holds at run time: a text or, once [+] has
    added two operands that have no text, a number. *)
Inductive SValue : Type :=
  | SText (s : string)
  | SNumber (n : number).

(** Modelled from the spec: [ExFuncParam] is declared in the functions
    module; these are the fields that the expressions module reads and
    writes.  Each may be undefined. *)
Record ExFuncParam : Type := mkParam {
  paType : option ExFuncParamType.t;
  sValue : option SValue;
  numValue : option number;
  arrayValue : option addr
}.

(** [interface Token extends ExFuncParam].  [funcParams] is the empty list
    where the source leaves it undefined. *)
Record Token : Type := mkToken {
  param :> ExFuncParam;
  tkType : TokenType.t;
  tkClass : TokenClass.t;
  canBinOp : bool;
  funcParams : list ExFuncParam
}.

Definition undefinedParam : ExFuncParam := mkParam None None None None.

Definition withParam (tk : Token) (p : ExFuncParam) : Token :=
  mkToken p (tkType tk) (tkClass tk) (canBinOp tk) (funcParams tk).
Definition withType (tk : Token) (ty : TokenType.t) (cl : TokenClass.t) : Token :=
  mkToken (param tk) ty cl (canBinOp tk) (funcParams tk).
Definition withCanBinOp (tk : Token) (b : bool) : Token :=
  mkToken (param tk) (tkType tk) (tkClass tk) b (funcParams tk).
Definition withFuncParams (tk : Token) (l : list ExFuncParam) : Token :=
  mkToken (param tk) (tkType tk) (tkClass tk) (canBinOp tk) l.

(** List of operator precedence, indexed by [TokenType]. *)
Definition opPriority : list Z :=
  [ 0;  (* None *)
    19; (* Function *)
    19; (* ArrayOpen *)
    19; (* ArrayClose *)
    19; (* Comma *)
    20; (* ParamOpen *)
    20; (* ParamClose *)
    1;  (* Value *)
    13; (* Plus *)
    13; (* Minus *)
    14; (* Multiply *)
    14; (* Divide *)
    14; (* Mod *)
    10; (* Equal *)
    10; (* Different *)
    11; (* Lesser *)
    11; (* Greater *)
    11; (* LessEqual *)
    11; (* GreaterEqual *)
    6;  (* LogicalAnd *)
    5;  (* LogicalOr *)
    16  (* LogicalNot *) ].

Definition Type2Class : list TokenClass.t :=
  [ TokenClass.None; TokenClass.Function; TokenClass.ArrayOpen;
    TokenClass.ArrayClose; TokenClass.Comma; TokenClass.ParamOpen;
    TokenClass.ParamClose; TokenClass.Value;
    TokenClass.Unary; TokenClass.Unary;
    TokenClass.Binary; TokenClass.Binary; TokenClass.Binary;
    (* equality operators *)
    TokenClass.Binary; TokenClass.Binary;
    (* conditional operators *)
    TokenClass.Binary; TokenClass.Binary; TokenClass.Binary; TokenClass.Binary;
    (* logical operators *)
    TokenClass.Binary; TokenClass.Binary; TokenClass.LogicalUnary ].

(** [Str2TokenType[ch]]; the keys that the enum's reverse mapping adds are
    digit strings, and no digit reaches the table. *)
Definition Str2TokenType (ch : string) : option TokenType.t :=
  if String.eqb ch "[" then Some TokenType.ArrayOpen
  else if String.eqb ch "]" then Some TokenType.ArrayClose
  else if String.eqb ch "(" then Some TokenType.ParamOpen
  else if String.eqb ch ")" then Some TokenType.ParamClose
  else if String.eqb ch "+" then Some TokenType.Plus
  else if String.eqb ch "-" then Some TokenType.Minus
  else if String.eqb ch "*" then Some TokenType.Multiply
  else if String.eqb ch "/" then Some TokenType.Divide
  else if String.eqb ch "%" then Some TokenType.Mod
  else if String.eqb ch "," then Some TokenType.Comma
  else if String.eqb ch "==" then Some TokenType.Equal
  else if String.eqb ch "!=" then Some TokenType.Different
  else if String.eqb ch "<" then Some TokenType.Lesser
  else if String.eqb ch ">" then Some TokenType.Greater
  else if String.eqb ch "<=" then Some TokenType.LessEqual
  else if String.eqb ch ">=" then Some TokenType.GreaterEqual
  else None.

(** Compares operators priority. *)
Definition _comparePriority (op1 op2 : Token) : bool :=
  match opPriority !! TokenType.index (tkType op1),
        opPriority !! TokenType.index (tkType op2) with
  | Some p1, Some p2 => p2 <=? p1
  | _, _ => false
  end.

(* ===================================================================== *)
(** ** The variable context and the array store *)
(* ===================================================================== *)

(** What a variable holds; [VUnsupported] stands for the values whose
    [typeof] the lexer rejects (objects that are not arrays, functions). *)
Inductive VarValue : Type :=
  | VNumber (n : number)
  | VString (s : string)
  | VBoolean (b : bool)
  | VArray (a : addr)
  | VUnsupported.

Record World : Type := mkWorld {
  vars : gmap string VarValue;
  heap : list JsArray
}.

(** The array object at an address, and the store after a write to it. *)
Definition heapGet (w : World) (a : addr) : option JsArray := heap w !! a.
Definition heapSet (w : World) (a : addr) (arr : JsArray) : World :=
  mkWorld (vars w) (<[a := arr]> (heap w)).

(** A new array object: its address, and the store that holds it. *)
Definition newAddr (w : World) : addr := length (heap w).
Definition heapPush (w : World) (arr : JsArray) : World :=
  mkWorld (vars w) (heap w ++ [arr]).

(** The members that every object inherits and whose name is an identifier
    of the lexer: reading them from [vars] gives a function. *)
Definition inheritedNames : list string :=
  [ "constructor"; "toString"; "valueOf"; "hasOwnProperty"; "isPrototypeOf";
    "propertyIsEnumerable"; "toLocaleString" ].

(** [p.args.vars[varName]]. *)
Definition readVar (w : World) (varName : string) : option VarValue :=
  match vars w !! varName with
  | Some v => Some v
  | None =>
      if existsb (String.eqb varName) inheritedNames then Some VUnsupported
      else None
  end.

(* ===================================================================== *)
(** ** The lexer *)
(* ===================================================================== *)

(** Defines the code range for characters: the latin alphabet. *)
Definition CharRanges : list (Z * Z) := [ (65, 90); (97, 122) ].

Definition isCharacter (ch : ascii) : bool :=
  let codePoint := code ch in
  existsb (fun rg => (fst rg <=? codePoint) && (codePoint <=? snd rg)) CharRanges.

(** [ch >= '0' && ch <= '9']; false on [undefined]. *)
Definition isDigit (ch : option ascii) : bool :=
  match ch with
  | Some c => (48 <=? code c) && (code c <=? 57)
  | None => false
  end.

Definition isCharacterOrNum (ch : ascii) : bool :=
  isDigit (Some ch) || isCharacter ch.

(** Tests if [text] is an expression. *)
Definition isExpr (text : string) : bool :=
  match text with
  | String c _ => Ascii.eqb c "="
  | EmptyString => false
  end.

(** [expr[pos]]. *)
Definition charAt (expr : string) (pos : nat) : option ascii := String.get pos expr.

(** The text from index [n] on (empty past the end). *)
Fixpoint strDrop (n : nat) (s : string) : string :=
  match n, s with
  | O, _ => s
  | S k, String _ r => strDrop k r
  | S _, EmptyString => EmptyString
  end.

(** [expr.substring(startPos, pos)] for [startPos <= pos]. *)
Definition jsSubstring (expr : string) (startPos pos : nat) : string :=
  substring startPos (pos - startPos) expr.

(** [while (ch === ' ') ch = expr[++pos]], on the text [rest] that starts at
    [pos]: the index of the first character that is not a space. *)
Fixpoint skipSpaces (rest : string) (pos : nat) : nat :=
  match rest with
  | String c r => if Ascii.eqb c " " then skipSpaces r (S pos) else pos
  | EmptyString => pos
  end.

(** The two scanning loops [do { ch = expr[++pos] } while (ch && test(ch))],
    on the text [rest] that starts at the incremented [pos]: the index of the
    first character that fails the test, or of the end. *)
Fixpoint scanWhile (test : ascii -> bool) (rest : string) (pos : nat) : nat :=
  match rest with
  | String c r => if test c then scanWhile test r (S pos) else pos
  | EmptyString => pos
  end.

(** [do { prevCh = ch; ch = expr[++pos] }
     while ((ch !== "'" || prevCh === '\\') && ch !== undefined)]. *)
Fixpoint scanString (rest : string) (pos : nat) (prevCh : ascii) : nat :=
  match rest with
  | String c r =>
      if negb (Ascii.eqb c "'") || Ascii.eqb prevCh "\"
      then scanString r (S pos) c
      else pos
  | EmptyString => pos
  end.

(** [s.replace(/\\([n'])/g, ...)]: backslash-n becomes a new line and
    backslash-quote a quote, from left to right. *)
Fixpoint unescape (s : string) : string :=
  match s with
  | String c r =>
      match r with
      | String d r' =>
          if Ascii.eqb c "\" && Ascii.eqb d "n" then String "010" (unescape r')
          else if Ascii.eqb c "\" && Ascii.eqb d "'" then String "'" (unescape r')
          else String c (unescape r)
      | EmptyString => s
      end
  | EmptyString => s
  end.

(** The text that [setToken] has just stored in [sValue]. *)
Definition storedText (v : option SValue) : string :=
  match v with
  | Some (SText s) => s
  | _ => ""
  end.

(** The token [p.token = {}] after [p.token.tkClass = TokenClass.None]. *)
Definition freshToken : Token :=
  mkToken undefinedParam TokenType.None TokenClass.None false [].

Definition lookupClass (aType : TokenType.t) : TokenClass.t :=
  default TokenClass.None (Type2Class !! TokenType.index aType).

Definition setToken (expr : string) (startPos pos : nat) (tk : Token)
    (aType : TokenType.t) : Token :=
  withType
    (withParam tk (mkParam (paType tk) (Some (SText (jsSubstring expr startPos pos)))
                           (numValue tk) (arrayValue tk)))
    aType (lookupClass aType).

(** [['not', 'and', 'or'].indexOf(varName)]. *)
Definition opNameIndex (varName : string) : option nat :=
  if String.eqb varName "not" then Some 0%nat
  else if String.eqb varName "and" then Some 1%nat
  else if String.eqb varName "or" then Some 2%nat
  else None.

(** The text of [ch] as a key of [Str2TokenType] and in messages. *)
Definition chText (ch : option ascii) : string :=
  match ch with
  | Some c => String c EmptyString
  | None => "undefined"
  end.

Definition chIs (ch : option ascii) (c : ascii) : bool :=
  match ch with
  | Some d => Ascii.eqb d c
  | None => false
  end.

Definition err {A : Type} (expr : string) (msg : ErrMsg) : Res A :=
  Err (ExpHasErrors expr msg).

(** The branch of [parser] for variables, functions and named operators;
    [pos] is the index after the name. *)
Definition parseName (w : World) (expr : string) (startPos pos : nat)
    (tk : Token) : Res (Token * nat) :=
  if chIs (charAt expr pos) "(" then
    let tk := setToken expr startPos pos tk TokenType.Function in
    let funcName := storedText (sValue tk) in
    if String.eqb funcName "not"
    then Ok (withType tk TokenType.LogicalNot TokenClass.LogicalUnary, pos)
    else Ok (tk, S pos)
  else
    let tk := setToken expr startPos pos tk TokenType.Value in
    let varName := storedText (sValue tk) in
    match opNameIndex varName with
    | Some i =>
        (* named operators *)
        let ty := default TokenType.None
                    ([TokenType.LogicalNot; TokenType.LogicalAnd;
                      TokenType.LogicalOr] !! i) in
        Ok (withType tk ty
              (if Nat.eqb i 0 then TokenClass.LogicalUnary else TokenClass.Binary),
            pos)
    | None =>
        (* variables *)
        match readVar w varName with
        | None => err expr (UnknownVariable varName)
        | Some (VString s) =>
            Ok (withParam tk (mkParam (Some ExFuncParamType.String) (Some (SText s))
                                      (numValue tk) (arrayValue tk)), pos)
        | Some (VNumber n) =>
            Ok (withParam tk (mkParam (Some ExFuncParamType.Number) None
                                      (Some n) None), pos)
        | Some (VArray a) =>
            Ok (withParam tk (mkParam (Some ExFuncParamType.Array) None
                                      None (Some a)), pos)
        | Some (VBoolean b) =>
            Ok (withParam tk (mkParam (Some ExFuncParamType.Number) None
                                      (Some (if b then ofZ 1 else ofZ 0)) None), pos)
        | Some VUnsupported => err expr (UnsupportedTypeOf varName)
        end
    end.

(** The body of the [do ... while (true)] of [parser], which every path
    leaves at its first pass; the result is the token and the new [pos]. *)
Definition parserBody (w : World) (expr : string) (pos0 : nat)
    (checkSign : bool) (tk : Token) : Res (Token * nat) :=
  let pos := skipSpaces (strDrop pos0 expr) pos0 in
  let startPos := pos in
  match charAt expr pos with
  | None => Ok (tk, pos)
  | Some c =>
      (* vars, functions, named operators *)
      if isCharacter c then
        let pos := scanWhile isCharacterOrNum (strDrop (S pos) expr) (S pos) in
        parseName w expr startPos pos tk
      else
        (* number sign *)
        let '(ch, pos) :=
          if checkSign && ((Ascii.eqb c "-" || Ascii.eqb c "+")
                           && isDigit (charAt expr (S pos)))
          then (charAt expr (S pos), S pos)
          else (Some c, pos) in
        (* numbers *)
        if isDigit ch then
          let pos := scanWhile (fun d => isDigit (Some d) || Ascii.eqb d ".")
                               (strDrop (S pos) expr) (S pos) in
          let tk := setToken expr startPos pos tk TokenType.Value in
          Ok (withParam tk
                (mkParam (Some ExFuncParamType.Number) None
                         (Some (parseFloat (storedText (sValue tk))))
                         (arrayValue tk)), pos)
        (* strings *)
        else if chIs ch "'" then
          let pos := scanString (strDrop (S pos) expr) (S pos) "'" in
          let startPos := S startPos in
          let tk := setToken expr startPos pos tk TokenType.Value in
          Ok (withParam tk
                (mkParam (Some ExFuncParamType.String)
                         (Some (SText (unescape (storedText (sValue tk)))))
                         (numValue tk) (arrayValue tk)), S pos)
        else
          (* equality and comparison *)
          let '(sym, pos) :=
            if (chIs ch "=" || chIs ch "!" || chIs ch "<" || chIs ch ">")
               && chIs (charAt expr (S pos)) "="
            then (String.append (chText ch) "=", S pos)
            else (chText ch, pos) in
          (* symbols *)
          match Str2TokenType sym with
          | None => err expr (UnknownToken sym pos)
          | Some type => Ok (setToken expr startPos (S pos) tk type, S pos)
          end
  end.

Definition parser (w : World) (expr : string) (pos : nat) (checkSign : bool)
    : Res (Token * nat) :=
  '(tk, pos) ← parserBody w expr pos checkSign freshToken;
  let cl := tkClass tk in
  Ok (withCanBinOp tk (TokenClass.eqb cl TokenClass.Unary
                       || TokenClass.eqb cl TokenClass.Binary), pos).

(* ===================================================================== *)
(** ** Compute *)
(* ===================================================================== *)

(** ToNumber on a numeric field that may be undefined. *)
Definition toNumber (v : option number) : number := default NaN v.

(** ToBoolean on such a field. *)
Definition truthy (v : option number) : bool :=
  match v with
  | Some x => toBoolean x
  | None => false
  end.

(** [a === b] on such fields. *)
Definition strictEq (a b : option number) : bool :=
  match a, b with
  | Some x, Some y => PrimFloat.eqb x y
  | None, None => true
  | _, _ => false
  end.

Definition setNum (tk : Token) (v : option number) : Token :=
  withParam tk (mkParam (paType tk) (sValue tk) v (arrayValue tk)).

Definition bool2num (b : bool) : option number := Some (if b then one else zero).

(** Computes unary operators. *)
Definition _calcUnary (expr : string) (op value : Token) : Res Token :=
  if negb (paTypeIs (paType value) ExFuncParamType.Number) then err expr UnaryErr
  else if TokenType.eqb (tkType op) TokenType.Minus
  then Ok (setNum value (Some (- toNumber (numValue value))%float))
  else if TokenType.eqb (tkType op) TokenType.LogicalNot
  then Ok (setNum value (Some (if truthy (numValue value) then zero else one)))
  else Ok value.

(** One pass of the callback of [value1.arrayValue.forEach]: it reads both
    arrays at [index] in the store as it is now, and writes the first. *)
Definition forEachStep (f : number -> number -> number) (a1 a2 : addr)
    (w : World) (index : nat) : World :=
  let arr1 := default [] (heapGet w a1) in
  let arr2 := default [] (heapGet w a2) in
  let v1 := mjoin (arr1 !! index) in
  let v2 := mjoin (arr2 !! index) in
  heapSet w a1 (<[index := Some (f (toNumber v1) (toNumber v2))]> arr1).

Definition forEachIndex (f : number -> number -> number) (a1 a2 : addr)
    (len : nat) (w : World) : World :=
  foldl (forEachStep f a1 a2) w (seq 0 len).

(** What [execOp] leaves behind: [false], or [true] with the new [v], the
    updated [value1] and the store. *)
Inductive ExecOp : Type :=
  | ExecFalse
  | ExecTrue (v : option number) (value1 : Token) (w : World).

Definition execOp (expr : string) (w : World) (value1 value2 : Token)
    (f : number -> number -> number) (allowOther : bool) : Res ExecOp :=
  let AnyNotNumber :=
    negb (paTypeIs (paType value1) ExFuncParamType.Number)
    || negb (paTypeIs (paType value2) ExFuncParamType.Number) in
  let is1stArray := paTypeIs (paType value1) ExFuncParamType.Array in
  let is2ndArray := paTypeIs (paType value2) ExFuncParamType.Array in
  if is1stArray || is2ndArray then
    if negb is1stArray || negb is2ndArray then Err (ThrowErr "Can only add 2 arrays")
    else
      a1 ← fromOption (arrayValue value1);
      a2 ← fromOption (arrayValue value2);
      arr1 ← fromOption (heapGet w a1);
      arr2 ← fromOption (heapGet w a2);
      if negb (Nat.eqb (length arr1) (length arr2))
      then Err (ThrowErr "Both arrays must have the same value")
      else
        Ok (ExecTrue None
              (withParam value1 (mkParam (Some ExFuncParamType.Array) (sValue value1)
                                         (numValue value1) (arrayValue value1)))
              (forEachIndex f a1 a2 (length arr1) w))
  else if AnyNotNumber then
    if allowOther then Ok ExecFalse else err expr ThisOpOnlySupportsNumbers
  else Ok (ExecTrue (Some (f (toNumber (numValue value1)) (toNumber (numValue value2))))
                    value1 w).

(** ToString on what [sValue] holds, which may be undefined. *)
Definition jsToString (v : option SValue) : string :=
  match v with
  | Some (SText s) => s
  | Some (SNumber n) => toString n
  | None => "undefined"
  end.

Definition isText (v : option SValue) : bool :=
  match v with
  | Some (SText _) => true
  | _ => false
  end.

(** The host's [a + b] on two such values: when one of them is a text, the
    texts of both, appended; otherwise the sum of the numbers, where
    [undefined] counts as NaN. *)
Definition jsPlus (a b : option SValue) : SValue :=
  if isText a || isText b
  then SText (String.append (jsToString a) (jsToString b))
  else
    let num (v : option SValue) : number :=
      match v with
      | Some (SNumber n) => n
      | _ => NaN
      end in
    SNumber (num a + num b)%float.

(** An operand of the [+] that does not add numbers: the text of the number
    for a token of type [Number], else what its [sValue] holds. *)
Definition plusOperand (value : Token) : Res (option SValue) :=
  if paTypeIs (paType value) ExFuncParamType.Number then
    match numValue value with
    | Some n => Ok (Some (SText (toString n)))
    | None => Err TypeError
    end
  else Ok (sValue value).

(** Computes binary operators: the updated [value1] and the store. *)
Definition _calcBinary (expr : string) (w : World) (op value1 value2 : Token)
    : Res (Token * World) :=
  let AnyNotNumber :=
    negb (paTypeIs (paType value1) ExFuncParamType.Number)
    || negb (paTypeIs (paType value2) ExFuncParamType.Number) in
  let NumbersOnly (v : bool) : Res (Token * World) :=
    if AnyNotNumber then err expr ThisOpOnlySupportsNumbers
    else Ok (setNum value1 (bool2num v), w) in
  let arith (f : number -> number -> number) : Res (Token * World) :=
    r ← execOp expr w value1 value2 f false;
    match r with
    | ExecTrue v value1' w' => Ok (setNum value1' v, w')
    | ExecFalse => Ok (setNum value1 None, w)
    end in
  let n1 := numValue value1 in
  let n2 := numValue value2 in
  match tkType op with
  | TokenType.Plus =>
      r ← execOp expr w value1 value2 PrimFloat.add true;
      match r with
      | ExecTrue v value1' w' => Ok (setNum value1' v, w')
      | ExecFalse =>
          v1 ← plusOperand value1;
          v2 ← plusOperand value2;
          Ok (withParam value1
                (mkParam (Some ExFuncParamType.String) (Some (jsPlus v1 v2))
                         (numValue value1) (arrayValue value1)), w)
      end
  | TokenType.Minus => arith PrimFloat.sub
  | TokenType.Multiply => arith PrimFloat.mul
  | TokenType.Divide => arith PrimFloat.div
  | TokenType.Mod => arith JsNumber.rem
  | TokenType.Equal => NumbersOnly (strictEq n1 n2)
  | TokenType.Different => NumbersOnly (negb (strictEq n1 n2))
  | TokenType.Lesser => NumbersOnly (PrimFloat.ltb (toNumber n1) (toNumber n2))
  | TokenType.Greater => NumbersOnly (PrimFloat.ltb (toNumber n2) (toNumber n1))
  | TokenType.LessEqual => NumbersOnly (PrimFloat.leb (toNumber n1) (toNumber n2))
  | TokenType.GreaterEqual => NumbersOnly (PrimFloat.leb (toNumber n2) (toNumber n1))
  | TokenType.LogicalAnd => NumbersOnly (truthy n1 && truthy n2)
  | TokenType.LogicalOr => NumbersOnly (truthy n1 || truthy n2)
  | _ => Ok (setNum value1 None, w)
  end.

(** The result of an evaluation; an array is returned by reference. *)
Inductive ExprResult : Type :=
  | RString (s : string)
  | RNumber (n : number)
  | RArray (a : addr)
  | RUndefined.

Definition _valueOfToken (token : Token) : ExprResult :=
  if paTypeIs (paType token) ExFuncParamType.String
  then match sValue token with
       | Some (SText s) => RString s
       | Some (SNumber n) => RNumber n
       | None => RUndefined
       end
  else if paTypeIs (paType token) ExFuncParamType.Array
  then match arrayValue token with Some a => RArray a | None => RUndefined end
  else match numValue token with Some n => RNumber n | None => RUndefined end.

(** Execute array: a new array object of the [numValue]s of the arguments. *)
Definition _execArray (w : World) (funcToken : Token) : Token * World :=
  (mkToken (mkParam (Some ExFuncParamType.Array) None None (Some (newAddr w)))
           TokenType.Value TokenClass.Value false [],
   heapPush w (map numValue (funcParams funcToken))).

(* ===================================================================== *)
(** ** State machine *)
(* ===================================================================== *)

Inductive States : Type := IdAndUnary | NoUnary | Binary.

Definition isBinaryState (s : States) : bool :=
  match s with Binary => true | _ => false end.
Definition isNoUnaryState (s : States) : bool :=
  match s with NoUnary => true | _ => false end.
Definition isIdAndUnaryState (s : States) : bool :=
  match s with IdAndUnary => true | _ => false end.

(** The variables of [_stateMachine].  [stackLast] is [stack.length - 1]
    throughout the source, so the tests on it are written on the length:
    [stackLast > k] is [k + 1 < length stack]. *)
Record Machine : Type := mkMachine {
  stack : list Token;
  state : States;
  startPoint : nat;
  startPoints : list nat;
  pos : nat;
  world : World
}.

(** [l.splice(start, count)]. *)
Definition splice {A : Type} (l : list A) (start count : nat) : list A :=
  take start l ++ drop (start + count) l.

(** Modelled from the spec: the type of a registered function is declared
    in the functions module.  A function receives the evaluated arguments
    and the request, may read and write the variable context, and fills the
    result [p.res] or throws; it leaves the evaluator's own state (the text,
    the position of the lexer, the stack) alone. *)
Definition ExprFunc : Type :=
  list ExFuncParam -> World -> Res (ExFuncParam * World).

Section StateMachine.

(** The registry [_exFunctions], of the functions module. *)
Variable _exFunctions : string -> option ExprFunc.

Variable expr : string.

Local Open Scope nat_scope.
Local Open Scope list_scope.

(** Execute expression function. *)
Definition _execExprFunction (w : World) (funcToken : Token) : Res (Token * World) :=
  let funcName := jsToString (sValue funcToken) in
  match _exFunctions funcName with
  | None => err expr (UnknownFunction funcName)
  | Some func =>
      '(res, w') ← func (funcParams funcToken) w;
      Ok (mkToken res TokenType.Value TokenClass.Value false [], w')
  end.

(** [calcStackLeft]; [fuel] bounds the passes of its loop. *)
Fixpoint calcStackLeftLoop (fuel : nat) (startPoint : nat) (stack : list Token)
    (w : World) : Res (list Token * World) :=
  if (2 <? length stack) && (startPoint + 2 <? length stack) then
    match fuel with
    | O => OutOfFuel
    | S fuel' =>
        op ← fromOption (stack !! (startPoint + 1));
        if negb (canBinOp op) then Ok (stack, w)
        else
          t1 ← fromOption (stack !! startPoint);
          t2 ← fromOption (stack !! (startPoint + 2));
          '(t1', w') ← _calcBinary expr w op t1 t2;
          calcStackLeftLoop fuel' startPoint
            (splice (<[startPoint := t1']> stack) (startPoint + 1) 2) w'
    end
  else Ok (stack, w).

Definition calcStackLeft (startPoint : nat) (stack : list Token) (w : World)
    : Res (list Token * World) :=
  calcStackLeftLoop (length stack) startPoint stack w.

(** [calcStackRight]. *)
Fixpoint calcStackRightLoop (fuel : nat) (stack : list Token) (w : World)
    : Res (list Token * World) :=
  let len := length stack in
  if 3 <? len then
    match fuel with
    | O => OutOfFuel
    | S fuel' =>
        op ← fromOption (stack !! (len - 2));
        if negb (canBinOp op) then Ok (stack, w)
        else
          t1 ← fromOption (stack !! (len - 3));
          t2 ← fromOption (stack !! (len - 1));
          prevOp ← fromOption (stack !! (len - 4));
          if _comparePriority op prevOp then
            '(t1', w') ← _calcBinary expr w op t1 t2;
            calcStackRightLoop fuel' (take (len - 2) (<[len - 3 := t1']> stack)) w'
          else Ok (stack, w)
    end
  else Ok (stack, w).

Definition calcStackRight (stack : list Token) (w : World)
    : Res (list Token * World) :=
  calcStackRightLoop (length stack) stack w.

(** [onCloseParamOrArrayOrFunc]: the token it pops, and the stack. *)
Definition onCloseParamOrArrayOrFunc (startPoint : nat) (stack : list Token)
    (w : World) : Res (Token * list Token * World) :=
  '(stack, w) ← calcStackLeft startPoint stack w;
  if negb (S startPoint =? length stack) then err expr EmptyMsg
  else
    match last stack with
    | Some token => Ok (token, take (length stack - 1) stack, w)
    | None => Err TypeError
    end.

Definition pushParam (funcToken token : Token) : Token :=
  withFuncParams funcToken (funcParams funcToken ++ [param token]).

(** [case TokenClass.Value]. *)
Definition onValue (m : Machine) (token : Token) : Res Machine :=
  if isBinaryState (state m) then err expr EmptyMsg
  else
    let len := length (stack m) in
    top ← (if isNoUnaryState (state m)
           then x ← fromOption (last (stack m)); Ok (Some x)
           else Ok None);
    below ← (match top with
             | Some t =>
                 if TokenClass.eqb (tkClass t) TokenClass.Unary
                    || TokenClass.eqb (tkClass t) TokenClass.LogicalUnary
                 then if len =? 1 then Ok true
                      else x ← fromOption (stack m !! (len - 2));
                           Ok (negb (TokenClass.eqb (tkClass x) TokenClass.Value))
                 else Ok false
             | None => Ok false
             end);
    '(token, stack) ←
      (match top, below with
       | Some op, true =>
           token ← _calcUnary expr op token;
           Ok (token, take (len - 1) (stack m))
       | _, _ => Ok (token, stack m)
       end);
    '(stack, w) ← calcStackRight (stack ++ [token]) (world m);
    Ok (mkMachine stack Binary (startPoint m) (startPoints m) (pos m) w).

(** [case TokenClass.ArrayOpen], [Function] and [ParamOpen]. *)
Definition onOpen (m : Machine) (token : Token) : Res Machine :=
  if isBinaryState (state m) then err expr EmptyMsg
  else
    let stack := stack m ++ [token] in
    let startPoint := length stack in
    Ok (mkMachine stack IdAndUnary startPoint (startPoints m ++ [startPoint])
                  (pos m) (world m)).

(** [case TokenClass.Comma], [ParamClose] and [ArrayClose]. *)
Definition onCommaOrClose (m : Machine) (token : Token) : Res Machine :=
  let startPoint := startPoint m in
  if startPoint =? 0 then err expr MissingStartingParenthesis
  else
    funcToken ← fromOption (stack m !! (startPoint - 1));
    let isTokenComma := TokenClass.eqb (tkClass token) TokenClass.Comma in
    let isFunc := TokenClass.eqb (tkClass funcToken) TokenClass.Function in
    let isArray := TokenClass.eqb (tkClass funcToken) TokenClass.ArrayOpen in
    if isTokenComma && negb isFunc && negb isArray then err expr MissingFunction
    else
      '(token, stack, w) ←
        (if (isFunc || isArray) && negb isTokenComma then
           (* function code *)
           '(funcToken, stack, w) ←
             (if negb (startPoint =? length (stack m)) then
                '(token, stack, w) ←
                  onCloseParamOrArrayOrFunc startPoint (stack m) (world m);
                let funcToken := pushParam funcToken token in
                Ok (funcToken, <[startPoint - 1 := funcToken]> stack, w)
              else Ok (funcToken, stack m, world m));
           if isFunc then
             '(token, w) ← _execExprFunction w funcToken;
             Ok (token, stack, w)
           else
             let '(token, w) := _execArray w funcToken in
             Ok (token, stack, w)
         else
           (* not a function *)
           onCloseParamOrArrayOrFunc startPoint (stack m) (world m));
      if negb isTokenComma then
        let startPoints := take (length (startPoints m) - 1) (startPoints m) in
        Ok (mkMachine (<[length stack - 1 := token]> stack) Binary
                      (default 0 (last startPoints)) startPoints (pos m) w)
      else
        funcToken ← fromOption (stack !! (startPoint - 1));
        Ok (mkMachine (<[startPoint - 1 := pushParam funcToken token]> stack)
                      IdAndUnary startPoint (startPoints m) (pos m) w).

(** [case TokenClass.Binary], where the unary cases flow to. *)
Definition onBinary (m : Machine) (token : Token) : Res Machine :=
  if negb (isBinaryState (state m)) then err expr EmptyMsg
  else
    let len := length (stack m) in
    '(stack, w) ←
      (if 1 <? len then
         top ← fromOption (last (stack m));
         if TokenClass.eqb (tkClass top) TokenClass.Value then
           op ← fromOption (stack m !! (len - 2));
           if canBinOp op && _comparePriority op token
           then calcStackLeft (startPoint m) (stack m) (world m)
           else Ok (stack m, world m)
         else Ok (stack m, world m)
       else Ok (stack m, world m));
    Ok (mkMachine (stack ++ [token]) NoUnary (startPoint m) (startPoints m)
                  (pos m) w).

(** [case TokenClass.LogicalUnary] and [Unary]. *)
Definition onUnary (m : Machine) (token : Token) : Res Machine :=
  if isIdAndUnaryState (state m) then
    Ok (mkMachine (stack m ++ [token])
                  (if TokenClass.eqb (tkClass token) TokenClass.Unary
                   then NoUnary else state m)
                  (startPoint m) (startPoints m) (pos m) (world m))
  else onBinary m token.

(** The [switch (thisTkClass)]. *)
Definition onToken (m : Machine) (token : Token) : Res Machine :=
  match tkClass token with
  | TokenClass.Value => onValue m token
  | TokenClass.ArrayOpen | TokenClass.Function =>
      onOpen m (withFuncParams token [])
  | TokenClass.ParamOpen => onOpen m token
  | TokenClass.Comma | TokenClass.ParamClose | TokenClass.ArrayClose =>
      onCommaOrClose m token
  | TokenClass.LogicalUnary | TokenClass.Unary => onUnary m token
  | TokenClass.Binary => onBinary m token
  | TokenClass.None => Ok m
  end.

(** The [do ... while (true)] of [_stateMachine], left when the lexer is at
    the end of the text; [fuel] bounds its passes. *)
Fixpoint mainLoop (fuel : nat) (m : Machine) : Res Machine :=
  match fuel with
  | O => OutOfFuel
  | S fuel' =>
      '(token, pos) ← parser (world m) expr (pos m) (negb (isBinaryState (state m)));
      let m := mkMachine (stack m) (state m) (startPoint m) (startPoints m)
                         pos (world m) in
      match tkClass token with
      | TokenClass.None => Ok m
      | _ => m ← onToken m token; mainLoop fuel' m
      end
  end.

(** The lexer reads at least one character for every token, so one pass per
    character of the text and one to meet its end are enough.  The logging
    under [isVerbose], between [#debug-start] and [#debug-end], is left
    out. *)
Definition _stateMachine (w : World) (pos : nat) : Res (ExprResult * World) :=
  m ← mainLoop (S (String.length expr)) (mkMachine [] IdAndUnary 0 [] pos w);
  '(stack, w) ← calcStackLeft (startPoint m) (stack m) (world m);
  if negb (length stack =? 1) then err expr StackNotEmpty
  else
    token ← fromOption (stack !! 0);
    top ← fromOption (last stack);
    if negb (TokenClass.eqb (tkClass top) TokenClass.Value) then err expr NotAValue
    else Ok (_valueOfToken token, w).

(** Calculates an expression. *)
Definition calcExpr (w : World) : Res (ExprResult * World) :=
  _stateMachine w 1.

End StateMachine.

(* ===================================================================== *)
(** ** Public functions *)
(* ===================================================================== *)

(** Initializes the default global expression variables. *)
Definition _vars : gmap string VarValue :=
  let pi := parseFloat "3.141592653589793" in
  <["e" := VNumber (parseFloat "2.718281828459045")]>
  (<["pi" := VNumber pi]>
  (<["deg2rad" := VNumber (pi / ofZ 180)%float]>
  (<["rad2deg" := VNumber (ofZ 180 / pi)%float]> ∅))).

(** [Array.prototype.join(',')] on the elements' texts; [undefined] gives
    the empty text. *)
Fixpoint joinComma (l : list (option number)) : string :=
  match l with
  | [] => ""
  | [x] => from_option toString "" x
  | x :: r => String.append (from_option toString "" x) (String.append "," (joinComma r))
  end.

(** ToString on a result, which [parseFloat] applies to its argument. *)
Definition resultText (w : World) (v : ExprResult) : string :=
  match v with
  | RString s => s
  | RNumber n => toString n
  | RArray a => joinComma (default [] (heapGet w a))
  | RUndefined => "undefined"
  end.

Definition isNumberResult (v : ExprResult) : bool :=
  match v with RNumber _ => true | _ => false end.
Definition isUndefinedResult (v : ExprResult) : bool :=
  match v with RUndefined => true | _ => false end.

(** If it's an expression, it computes its value and returns its numerical
    value.  Returns [defNumber] if it's not an expression. *)
Definition ifExprCalcNum (_exFunctions : string -> option ExprFunc)
    (expr : string) (defNumber : option number) (isStrict : bool) (w : World)
    : Res (option number * World) :=
  if negb (isExpr expr) then Ok (defNumber, w)
  else
    '(exprValue, w) ← calcExpr _exFunctions expr w;
    if isStrict && negb (isUndefinedResult exprValue)
       && negb (isNumberResult exprValue)
    then Err (MustBeANumber expr)
    else Ok (if negb (isUndefinedResult exprValue)
             then Some (parseFloat (resultText w exprValue))
             else defNumber, w).

(** A registry with no function at all. *)
Definition noFunctions : string -> option ExprFunc := fun _ => None.

(* ===================================================================== *)
(** ** Reference notions used by the statements *)
(* ===================================================================== *)

(** Whether the text after an opening quote holds a closing one: a quote
    that no backslash precedes.  [prev] is the character before [s]. *)
Fixpoint hasClosingQuote (prev : ascii) (s : string) : bool :=
  match s with
  | String c r =>
      if Ascii.eqb c "'" && negb (Ascii.eqb prev "\") then true
      else hasClosingQuote c r
  | EmptyString => false
  end.

Definition isDigitOrPoint (c : ascii) : bool :=
  isDigit (Some c) || Ascii.eqb c ".".

Fixpoint allChars (test : ascii -> bool) (s : string) : bool :=
  match s with
  | String c r => test c && allChars test r
  | EmptyString => true
  end.

(** A plain decimal numeral: an optional sign, a digit, then digits and
    points only (no exponent part, no name). *)
Definition plainNumeral (s : string) : bool :=
  match s with
  | String c r =>
      if Ascii.eqb c "-" || Ascii.eqb c "+" then
        match r with
        | String d r' => isDigit (Some d) && allChars isDigitOrPoint r'
        | EmptyString => false
        end
      else isDigit (Some c) && allChars isDigitOrPoint r
  | EmptyString => false
  end.

(** The function that an arithmetic operator applies to two numbers. *)
Definition arithOf (ty : TokenType.t) : option (number -> number -> number) :=
  match ty with
  | TokenType.Plus => Some PrimFloat.add
  | TokenType.Minus => Some PrimFloat.sub
  | TokenType.Multiply => Some PrimFloat.mul
  | TokenType.Divide => Some PrimFloat.div
  | TokenType.Mod => Some JsNumber.rem
  | _ => None
  end.

(** Element-wise combination of two arrays. *)
Definition elementWise (f : number -> number -> number) (arr1 arr2 : JsArray)
    : JsArray :=
  zip_with (fun x y => Some (f (toNumber x) (toNumber y))) arr1 arr2.

(** The literal's token: a value of type number. *)
Definition numberToken (n : number) : Token :=
  mkToken (mkParam (Some ExFuncParamType.Number) None (Some n) None)
          TokenType.Value TokenClass.Value false [].

(** The token of a quoted text. *)
Definition stringToken (s : string) : Token :=
  mkToken (mkParam (Some ExFuncParamType.String) (Some (SText s)) None None)
          TokenType.Value TokenClass.Value false [].

(** The world a story starts from: the built-in variables and no array. *)
Definition defaultWorld : World := mkWorld _vars [].

(** A small registry, for the examples: [first(...)] returns its first
    argument and throws when it has none. *)
Definition sampleFunctions (name : string) : option ExprFunc :=
  if String.eqb name "first" then
    Some (fun args w =>
            match args with
            | a :: _ => Ok (a, w)
            | [] => Err (FunctionError "first: no argument")
            end)
  else None.

(** The arithmetic operators as they are written, with what they apply. *)
Definition arithSymbols : list (string * (number -> number -> number)) :=
  [ ("+", PrimFloat.add); ("-", PrimFloat.sub); ("*", PrimFloat.mul);
    ("/", PrimFloat.div); ("%", JsNumber.rem) ].

(** The operator token that the lexer makes of [+]. *)
Definition plusToken : Token :=
  mkToken (mkParam None (Some (SText "+")) None None) TokenType.Plus TokenClass.Unary
          true [].

(** The value token of the array object at an address. *)
Definition arrayToken (a : addr) : Token :=
  mkToken (mkParam (Some ExFuncParamType.Array) None None (Some a))
          TokenType.Value TokenClass.Value false [].

(** The tokens that can stand to the left of a binary operator: a value,
    and the end of a group. *)
Definition canBeLeftOperand (cl : TokenClass.t) : bool :=
  match cl with
  | TokenClass.Value | TokenClass.ParamClose | TokenClass.ArrayClose => true
  | _ => false
  end.

(** Worlds and numbers of the examples: three array objects; the variable
    [myArr] bound to an array object, before and after [=myArr + [1,1]];
    10^21, whose text has an exponent part; -12.5, whose text has none. *)
Definition threeArrays : World :=
  mkWorld ∅ [ [Some (ofZ 2); Some (ofZ 3)]; [Some (ofZ 4); Some (ofZ 5)];
              [Some (ofZ 4); Some (ofZ 5); Some (ofZ 6)] ].

Definition myArrWorld : World :=
  mkWorld (<["myArr" := VArray 0]> _vars) [ [Some (ofZ 2); Some (ofZ 3)] ].

Definition myArrWorldAfter : World :=
  mkWorld (<["myArr" := VArray 0]> _vars)
          [ [Some (ofZ 3); Some (ofZ 4)]; [Some (ofZ 1); Some (ofZ 1)] ].

Definition tenToThe21 : number := parseFloat "1000000000000000000000".

Definition minusTwelveAndHalf : number := parseFloat "-12.5".

(** A computation that returns or throws. *)
Definition finishes {A : Type} (r : Res A) : Prop :=
  match r with
  | OutOfFuel => False
  | _ => True
  end.

(* ===================================================================== *)
(** ** Checking the arguments of a function *)
(* ===================================================================== *)

(** The two complaints of [_checkFuncParams], with the name of the function
    and the index of the argument; [err] wraps them as it wraps the rest. *)
Inductive ParamsMsg : Type :=
  | WrongNrParams (p : option SValue)
  | WrongParamType (p : option SValue) (i : nat).

(** Whether [_checkFuncParams] returns or throws. *)
Inductive Checked : Type :=
  | Passes
  | Throws (msg : ParamsMsg).

(** The callback of [paramTypes.forEach], from [index] on; the first
    complaint ends the loop. *)
Fixpoint checkParamTypes (p : option SValue) (params : list ExFuncParam)
    (paramTypes : list ExFuncParamType.t) (index : nat) : Checked :=
  match paramTypes with
  | [] => Passes
  | paramType :: rest =>
      match params !! index with
      | Some pi =>
          if negb (paTypeIs (paType pi) paramType)
             && negb (ExFuncParamType.eqb paramType ExFuncParamType.Any)
          then Throws (WrongParamType p index)
          else checkParamTypes p params rest (S index)
      | None => Throws (WrongParamType p index)
      end
  end.

(** Checks if the function parameter count matches the parameters expected,
    and if their types match the expected.  [token] is [req.token], the
    function with its arguments. *)
Definition _checkFuncParams (token : Token) (paramCount : Z)
    (paramTypes : option (list ExFuncParamType.t)) : Checked :=
  let params := funcParams token in
  if (0 <=? paramCount) && negb (Z.of_nat (length params) =? paramCount)
  then Throws (WrongNrParams (sValue token))
  else
    match paramTypes with
    | Some paramTypes => checkParamTypes (sValue token) params paramTypes 0
    | None => Passes
    end.

(** An argument is of a declared type when the type is [Any] or its own. *)
Definition accepts (paramType : ExFuncParamType.t) (pi : ExFuncParam) : Prop :=
  paramType = ExFuncParamType.Any \/ paType pi = Some paramType.

(* ===================================================================== *)
(** ** Further notions used by the statements *)
(* ===================================================================== *)

(** Whether a text is empty or starts with a character that fails a test:
    what stops a scanning loop. *)
Definition startsOutside (test : ascii -> bool) (rest : string) : bool :=
  match rest with
  | String c _ => negb (test c)
  | EmptyString => true
  end.

Definition isSpace (c : ascii) : bool := Ascii.eqb c " ".

(** A numeral without a sign: a digit, then digits and points only. *)
Definition unsignedNumeral (s : string) : bool :=
  match s with
  | String c r => isDigit (Some c) && allChars isDigitOrPoint r
  | EmptyString => false
  end.

(** A name as the lexer reads it: a letter, then letters and digits. *)
Definition identifier (name : string) : bool :=
  match name with
  | String c r => isCharacter c && allChars isCharacterOrNum r
  | EmptyString => false
  end.

(** The token that the lexer makes of a symbol of [Str2TokenType]. *)
Definition symbolToken (sym : string) (ty : TokenType.t) : Token :=
  mkToken (mkParam None (Some (SText sym)) None None) ty (lookupClass ty)
          (TokenClass.eqb (lookupClass ty) TokenClass.Unary
           || TokenClass.eqb (lookupClass ty) TokenClass.Binary) [].

(** Whether a symbol that [rest] follows is a token of its own: a sign
    before a digit is part of the literal where a sign may stand, and [<]
    and [>] before [=] are the start of [<=] and [>=]. *)
Definition symbolStops (sym rest : string) (checkSign : bool) : bool :=
  negb ((String.eqb sym "+" || String.eqb sym "-")
        && checkSign && isDigit (charAt rest 0))
  && negb ((String.eqb sym "<" || String.eqb sym ">")
           && chIs (charAt rest 0) "=").

(** The text between two quotes: after the character [prev], [body] holds
    no quote that closes the string (every quote in it follows a backslash)
    and does not end in a backslash, which would escape the closing quote. *)
Fixpoint quotedBody (prev : ascii) (body : string) : bool :=
  match body with
  | String c r => (negb (Ascii.eqb c "'") || Ascii.eqb prev "\") && quotedBody c r
  | EmptyString => negb (Ascii.eqb prev "\")
  end.

(** The token of a name that an opening parenthesis follows. *)
Definition functionToken (name : string) : Token :=
  mkToken (mkParam None (Some (SText name)) None None) TokenType.Function
          TokenClass.Function false [].

(** A character that starts no token: no letter, digit, space, quote or
    symbol. *)
Definition startsNoToken (c : ascii) : bool :=
  negb (isCharacter c) && negb (isDigit (Some c)) && negb (isSpace c)
  && negb (Ascii.eqb c "'")
  && match Str2TokenType (String c EmptyString) with
     | Some _ => false
     | None => true
     end.

(** The store [w'] has the variables of [w] and every array of [w], at its
    address and with its length. *)
Definition keepsShape (w w' : World) : Prop :=
  vars w' = vars w /\
  forall (a : addr) (arr : JsArray), heapGet w a = Some arr ->
    exists arr', heapGet w' a = Some arr' /\ length arr' = length arr.

(** Every registered function keeps the shape of the store. *)
Definition registryKeepsShape (fns : string -> option ExprFunc) : Prop :=
  forall name f ps w r w',
    fns name = Some f -> f ps w = Ok (r, w') -> keepsShape w w'.

(** A value token, as the lexer and the operators make them. *)
Definition valueToken (p : ExFuncParam) : Token :=
  mkToken p TokenType.Value TokenClass.Value false [].

(** What [calcExpr] returns for the one token left on the stack. *)
Definition resultOf (r : Res (Token * World)) : Res (ExprResult * World) :=
  '(t, w) ← r; Ok (_valueOfToken t, w).

(** What a binary operator makes of two numbers: the arithmetic operators
    their result, the comparisons 1 or 0. *)
Definition numericOf (ty : TokenType.t) : option (number -> number -> number) :=
  let test (r : number -> number -> bool) :=
    Some (fun a b => if r a b then one else zero) in
  match ty with
  | TokenType.Equal => test PrimFloat.eqb
  | TokenType.Different => test (fun a b => negb (PrimFloat.eqb a b))
  | TokenType.Lesser => test PrimFloat.ltb
  | TokenType.Greater => test (fun a b => PrimFloat.ltb b a)
  | TokenType.LessEqual => test PrimFloat.leb
  | TokenType.GreaterEqual => test (fun a b => PrimFloat.leb b a)
  | TokenType.LogicalAnd => test (fun a b => toBoolean a && toBoolean b)
  | TokenType.LogicalOr => test (fun a b => toBoolean a || toBoolean b)
  | _ => arithOf ty
  end.

(** The texts of a list of arguments, with commas between them. *)
Fixpoint commaSeparated (ss : list string) : string :=
  match ss with
  | [] => ""
  | [s] => s
  | s :: r => String.append s (String "," (commaSeparated r))
  end.

(** The argument that a function receives for a number. *)
Definition numberParam (n : number) : ExFuncParam :=
  mkParam (Some ExFuncParamType.Number) None (Some n) None.

(** What the end of a group of arguments runs: the registered function for
    a name, the making of an array for a bracket. *)
Definition closeGroup (_exFunctions : string -> option ExprFunc) (expr : string)
    (w : World) (funcToken : Token) : Res (Token * World) :=
  if TokenClass.eqb (tkClass funcToken) TokenClass.Function
  then _execExprFunction _exFunctions expr w funcToken
  else Ok (_execArray w funcToken).

(** The two binary operators that are words, with their types. *)
Definition wordOperator (word : string) : option TokenType.t :=
  if String.eqb word "and" then Some TokenType.LogicalAnd
  else if String.eqb word "or" then Some TokenType.LogicalOr
  else None.

(** The text of a chain of operands, each after the same operator symbol. *)
Fixpoint chained (sym : string) (ss : list string) : string :=
  match ss with
  | [] => ""
  | s :: r => String.append sym (String.append s (chained sym r))
  end.

(** A call of the examples: [f(1, 'x')]. *)
Definition sampleCall : Token :=
  mkToken (mkParam None (Some (SText "f")) None None) TokenType.Function
          TokenClass.Function false
          [ numberParam (ofZ 1);
            mkParam (Some ExFuncParamType.String) (Some (SText "x")) None None ].

(** The value of the built-in variable [pi]. *)
Definition piValue : number := parseFloat "3.141592653589793".

(** No token of the stack is the name of a function. *)
Definition noFunctionToken (stack : list Token) : Prop :=
  Forall (fun t => TokenClass.eqb (tkClass t) TokenClass.Function = false) stack.

(** A token that neither opens a group of arguments nor holds an array. *)
Definition scalarToken (t : Token) : Prop :=
  TokenClass.eqb (tkClass t) TokenClass.Function = false
  /\ TokenClass.eqb (tkClass t) TokenClass.ArrayOpen = false
  /\ paTypeIs (paType t) ExFuncParamType.Array = false.

(** A text without an opening parenthesis or bracket. *)
Definition opensNoGroup (expr : string) : bool :=
  allChars (fun c => negb (Ascii.eqb c "(") && negb (Ascii.eqb c "[")) expr.

(** No variable of the context is bound to an array. *)
Definition noArrayVariable (w : World) : Prop :=
  forall (name : string) (a : addr), vars w !! name <> Some (VArray a).

(** The token that the lexer makes of [and]. *)
Definition andToken : Token :=
  mkToken (mkParam None (Some (SText "and")) None None) TokenType.LogicalAnd
          TokenClass.Binary true [].

(* ===================================================================== *)
(** ** Notions for the host's numbers *)
(* ===================================================================== *)

(** The value [m * 2^e] of a finite number, as a rational. *)
Definition binaryValue (m : positive) (e : Z) : QArith_base.Q :=
  QArith_base.Qmult (QArith_base.inject_Z (Zpos m))
                    (QArith_base.Qpower (QArith_base.Qmake 2 1) e).

(** The fraction [a / b] of two positive integers is the rational [y]. *)
Definition isFraction (a b : Z) (y : QArith_base.Q) : Prop :=
  0 < a /\ 0 < b /\
  QArith_base.Qeq (QArith_base.inject_Z a)
                  (QArith_base.Qmult y (QArith_base.inject_Z b)).

(** The number that a text of decimal digits denotes, continuing from
    [acc]. *)
Fixpoint digitsValue (u : string) (acc : Z) : Z :=
  match u with
  | String c r => digitsValue r (10 * acc + digitValue c)
  | EmptyString => acc
  end.

(* ===================================================================== *)
(** ** Facts about texts and the scanning loops *)
(* ===================================================================== *)

Section TextFacts.

Local Open Scope nat_scope.

Lemma charAt_strDrop (expr : string) (pos : nat) :
  charAt expr pos =
  match strDrop pos expr with
  | String c _ => Some c
  | EmptyString => None
  end.
Proof.
  unfold charAt. revert expr.
  induction pos as [|pos IH]; intros [|c r]; simpl; auto.
Qed.

Lemma strDrop_length (s : string) (n : nat) :
  String.length (strDrop n s) = String.length s - n.
Proof.
  revert s. induction n as [|n IH]; intros [|c r]; simpl; auto.
Qed.

Lemma strDrop_past_end (s : string) (n : nat) :
  String.length s <= n -> strDrop n s = EmptyString.
Proof.
  intros H. pose proof (strDrop_length s n) as L.
  destruct (strDrop n s); [reflexivity | simpl in L; lia].
Qed.

Lemma charAt_Some_lt (expr : string) (pos : nat) (c : ascii) :
  charAt expr pos = Some c -> pos < String.length expr.
Proof.
  rewrite charAt_strDrop. intros H.
  destruct (Nat.lt_ge_cases pos (String.length expr)) as [|Hge]; [assumption|].
  rewrite (strDrop_past_end _ _ Hge) in H. discriminate.
Qed.


Lemma substring_strDrop (s : string) (n : nat) :
  substring n (String.length s - n) s = strDrop n s.
Proof.
  revert n. induction s as [|c r IH]; intros [|n]; simpl; auto.
  f_equal. specialize (IH 0). simpl in IH.
  rewrite Nat.sub_0_r in IH. exact IH.
Qed.

Lemma jsSubstring_to_end (expr : string) (startPos : nat) :
  jsSubstring expr startPos (String.length expr) = strDrop startPos expr.
Proof. apply substring_strDrop. Qed.

Lemma skipSpaces_ge (rest : string) (pos : nat) : pos <= skipSpaces rest pos.
Proof.
  revert pos. induction rest as [|c r IH]; intros pos; simpl; [lia|].
  destruct (Ascii.eqb c " "); [|lia]. specialize (IH (S pos)). lia.
Qed.

Lemma scanWhile_ge (test : ascii -> bool) (rest : string) (pos : nat) :
  pos <= scanWhile test rest pos.
Proof.
  revert pos. induction rest as [|c r IH]; intros pos; simpl; [lia|].
  destruct (test c); [|lia]. specialize (IH (S pos)). lia.
Qed.

Lemma scanWhile_all (test : ascii -> bool) (rest : string) (pos : nat) :
  allChars test rest = true ->
  scanWhile test rest pos = pos + String.length rest.
Proof.
  revert pos. induction rest as [|c r IH]; intros pos; simpl; [lia|].
  intros [Hc Hr]%andb_prop. rewrite Hc, (IH (S pos) Hr). lia.
Qed.

Lemma scanString_ge (rest : string) (pos : nat) (prevCh : ascii) :
  pos <= scanString rest pos prevCh.
Proof.
  revert pos prevCh. induction rest as [|c r IH]; intros pos prevCh; simpl; [lia|].
  destruct (negb (Ascii.eqb c "'") || Ascii.eqb prevCh "\"); [|lia].
  specialize (IH (S pos) c). lia.
Qed.

(** Without a closing quote the string loop runs to the end of the text. *)
Lemma scanString_unterminated (rest : string) (pos : nat) (prevCh : ascii) :
  hasClosingQuote prevCh rest = false ->
  scanString rest pos prevCh = pos + String.length rest.
Proof.
  revert pos prevCh. induction rest as [|c r IH]; intros pos prevCh; simpl; [lia|].
  destruct (Ascii.eqb c "'"), (Ascii.eqb prevCh "\"); simpl;
    try discriminate; intros H; rewrite (IH (S pos) c H); lia.
Qed.

End TextFacts.

(* ===================================================================== *)
(** ** Facts about computations that may throw *)
(* ===================================================================== *)

Lemma finishes_bind {A B : Type} (m : Res A) (f : A -> Res B) :
  finishes m -> (forall a, m = Ok a -> finishes (f a)) -> finishes (m ≫= f).
Proof.
  destruct m as [a|e|]; simpl; intros Hm Hf; [apply Hf; reflexivity | exact I | exact Hm].
Qed.

Lemma Ok_pair_inv {A B : Type} (a a' : A) (b b' : B) :
  @Ok (A * B) (a, b) = Ok (a', b') -> a = a' /\ b = b'.
Proof. intros [= -> ->]. split; reflexivity. Qed.

Lemma finishes_fromOption {A : Type} (o : option A) : finishes (fromOption o).
Proof. destruct o; exact I. Qed.

(** Splits a goal [finishes e] along the structure of [e]. *)
Ltac finish_step :=
  match goal with
  | |- finishes (Ok _) => exact I
  | |- finishes (Err _) => exact I
  | |- finishes (err _ _) => exact I
  | |- finishes (fromOption _) => apply finishes_fromOption
  | |- finishes (_ ≫= _) => apply finishes_bind; [ | intros ? ? ]
  | |- finishes (match ?x with _ => _ end) => destruct x eqn:?
  | |- finishes (let '(_, _) := ?x in _) => destruct x eqn:?
  end.
Ltac finish := repeat finish_step.

Lemma bind_Ok_inv {A B : Type} (m : Res A) (f : A -> Res B) (b : B) :
  m ≫= f = Ok b -> exists a, m = Ok a /\ f a = Ok b.
Proof. destruct m as [a| |]; simpl; try discriminate. intros H. exists a. auto. Qed.

(** Follows a hypothesis [H : e = Ok _] back through the structure of [e]. *)
Ltac ok_inv H :=
  repeat match type of H with
         | Err _ = Ok _ => discriminate H
         | err _ _ = Ok _ => discriminate H
         | OutOfFuel = Ok _ => discriminate H
         | (_ ≫= _) = Ok _ =>
             let a := fresh "a" in
             let Ha := fresh "Ha" in
             apply bind_Ok_inv in H as (a & Ha & H)
         | (match ?x with _ => _ end) = Ok _ => destruct x eqn:?
         | (let '(_, _) := ?x in _) = Ok _ => destruct x eqn:?
         end.

(* ===================================================================== *)
(** ** Facts about the lexer *)
(* ===================================================================== *)

Section LexerFacts.

Local Open Scope nat_scope.

Variable w : World.
Variable expr : string.

Lemma lookupClass_not_None (ty : TokenType.t) :
  ty <> TokenType.None -> lookupClass ty <> TokenClass.None.
Proof. destruct ty; intros H; try discriminate; contradiction. Qed.

Lemma Str2TokenType_not_None (sym : string) (ty : TokenType.t) :
  Str2TokenType sym = Some ty -> ty <> TokenType.None.
Proof.
  unfold Str2TokenType.
  repeat match goal with
         | |- (if ?b then _ else _) = _ -> _ => destruct b
         end; intros [= <-]; discriminate.
Qed.

Lemma parseName_result (startPos pos : nat) (tk tk' : Token) (pos' : nat) :
  parseName w expr startPos pos tk = Ok (tk', pos') ->
  tkClass tk' <> TokenClass.None /\ pos <= pos'.
Proof.
  unfold parseName.
  destruct (chIs (charAt expr pos) "(").
  - destruct (String.eqb _ "not"); intros [= <- <-]; simpl; split;
      try discriminate; lia.
  - destruct (opNameIndex _) as [i|].
    + intros [= <- <-]; simpl. split; [|lia].
      destruct (i =? 0); discriminate.
    + destruct (readVar w _) as [[n|s|b|a|]|]; try discriminate;
        intros [= <- <-]; simpl; split; try discriminate; lia.
Qed.

(** Every path of the lexer returns or throws. *)
Lemma finishes_parser (pos : nat) (checkSign : bool) :
  finishes (parser w expr pos checkSign).
Proof.
  unfold parser, parserBody, parseName. finish.
Qed.

(** A token other than the end of the text takes at least one character:
    the new position is past the old one, which was inside the text. *)
Lemma parserBody_advance (pos : nat) (checkSign : bool) (tk tk' : Token)
    (pos' : nat) :
  parserBody w expr pos checkSign tk = Ok (tk', pos') ->
  (tk' = tk /\ String.length expr <= pos')
  \/ (tkClass tk' <> TokenClass.None /\ pos < pos' /\ pos < String.length expr).
Proof.
  unfold parserBody.
  pose proof (skipSpaces_ge (strDrop pos expr) pos) as Hskip.
  set (p1 := skipSpaces (strDrop pos expr) pos) in *.
  destruct (charAt expr p1) as [c|] eqn:Hc.
  2:{ intros [= <- <-]. left. split; [reflexivity|].
      rewrite charAt_strDrop in Hc.
      pose proof (strDrop_length expr p1) as L.
      destruct (strDrop p1 expr); [simpl in L; lia | discriminate]. }
  pose proof (charAt_Some_lt _ _ _ Hc) as Hlt.
  pose proof (scanWhile_ge isCharacterOrNum (strDrop (S p1) expr) (S p1)) as G1.
  pose proof (scanWhile_ge (fun d => isDigit (Some d) || Ascii.eqb d ".")
                (strDrop (S (S p1)) expr) (S (S p1))) as G2.
  pose proof (scanWhile_ge (fun d => isDigit (Some d) || Ascii.eqb d ".")
                (strDrop (S p1) expr) (S p1)) as G3.
  pose proof (scanString_ge (strDrop (S p1) expr) (S p1) "'") as G4.
  assert (Hv : lookupClass TokenType.Value <> TokenClass.None) by discriminate.
  intros H. right.
  destruct (isCharacter c).
  { apply parseName_result in H as [H1 H2].
    repeat split; [assumption | lia | lia]. }
  destruct (checkSign && _) eqn:Hsign.
  - (* the sign is part of the literal *)
    apply andb_prop in Hsign as [_ [_ Hd]%andb_prop].
    rewrite Hd in H. apply Ok_pair_inv in H as [<- <-].
    repeat split; [exact Hv | lia | lia].
  - destruct (isDigit (Some c)).
    { apply Ok_pair_inv in H as [<- <-]. repeat split; [exact Hv | lia | lia]. }
    destruct (chIs (Some c) "'").
    { apply Ok_pair_inv in H as [<- <-]. repeat split; [exact Hv | lia | lia]. }
    destruct (_ && chIs (charAt expr (S p1)) "=");
      destruct (Str2TokenType _) as [ty|] eqn:Hty; try discriminate;
      apply Ok_pair_inv in H as [<- <-];
      (repeat split; [apply lookupClass_not_None;
                      apply (Str2TokenType_not_None _ _ Hty) | lia | lia]).
Qed.

Lemma parser_advance (pos : nat) (checkSign : bool) (tk : Token) (pos' : nat) :
  parser w expr pos checkSign = Ok (tk, pos') ->
  tkClass tk <> TokenClass.None ->
  pos < pos' /\ pos < String.length expr.
Proof.
  unfold parser.
  destruct (parserBody w expr pos checkSign freshToken) as [[tk0 p0]| |] eqn:Hb;
    simpl; try discriminate.
  intros [= <- <-]. simpl. intros Hcl.
  apply parserBody_advance in Hb as [[-> _]|[_ H]]; [|exact H].
  simpl in Hcl. contradiction.
Qed.

(** At or past the end of the text the lexer yields the end token. *)
Lemma parser_at_end (pos : nat) (checkSign : bool) :
  String.length expr <= pos ->
  parser w expr pos checkSign = Ok (freshToken, pos).
Proof.
  intros H. unfold parser, parserBody.
  rewrite (strDrop_past_end _ _ H). simpl.
  rewrite charAt_strDrop, (strDrop_past_end _ _ H). reflexivity.
Qed.

End LexerFacts.

(* ===================================================================== *)
(** ** Every loop of the evaluator stops *)
(* ===================================================================== *)

Section Termination.

Local Open Scope nat_scope.

Variable _exFunctions : string -> option ExprFunc.
Variable expr : string.

(** The functions of the registry return or throw. *)
Hypothesis functions_finish :
  forall name func args w, _exFunctions name = Some func -> finishes (func args w).

Lemma finishes_calcUnary (op value : Token) : finishes (_calcUnary expr op value).
Proof. unfold _calcUnary. finish. Qed.

Lemma finishes_calcBinary (w : World) (op value1 value2 : Token) :
  finishes (_calcBinary expr w op value1 value2).
Proof. unfold _calcBinary, execOp, plusOperand. finish. Qed.

Lemma length_splice_2 {A : Type} (l : list A) (start : nat) :
  start + 2 <= length l -> length (splice l start 2) = length l - 2.
Proof.
  intros H. unfold splice. rewrite length_app, length_take, length_drop. lia.
Qed.

(** Each pass of [calcStackLeft] takes two tokens off the stack. *)
Lemma finishes_calcStackLeftLoop (fuel startPoint : nat) (stack : list Token)
    (w : World) :
  length stack <= fuel ->
  finishes (calcStackLeftLoop expr fuel startPoint stack w).
Proof.
  revert stack w. induction fuel as [|fuel IH]; intros stack w Hlen; simpl.
  - destruct (2 <? length stack) eqn:E; [|exact I].
    apply Nat.ltb_lt in E. lia.
  - destruct ((2 <? length stack) && (startPoint + 2 <? length stack)) eqn:E;
      [|exact I].
    apply andb_prop in E as [E1%Nat.ltb_lt E2%Nat.ltb_lt].
    finish; try apply finishes_calcBinary.
    apply IH. rewrite length_splice_2; rewrite length_insert; lia.
Qed.

Lemma finishes_calcStackLeft (startPoint : nat) (stack : list Token) (w : World) :
  finishes (calcStackLeft expr startPoint stack w).
Proof. apply finishes_calcStackLeftLoop. lia. Qed.

(** So does each pass of [calcStackRight]. *)
Lemma finishes_calcStackRightLoop (fuel : nat) (stack : list Token) (w : World) :
  length stack <= fuel ->
  finishes (calcStackRightLoop expr fuel stack w).
Proof.
  revert stack w. induction fuel as [|fuel IH]; intros stack w Hlen; simpl.
  - destruct (3 <? length stack) eqn:E; [|exact I].
    apply Nat.ltb_lt in E. lia.
  - destruct (3 <? length stack) eqn:E; [|exact I].
    apply Nat.ltb_lt in E.
    finish; try apply finishes_calcBinary.
    apply IH. rewrite length_take, length_insert. lia.
Qed.

Lemma finishes_calcStackRight (stack : list Token) (w : World) :
  finishes (calcStackRight expr stack w).
Proof. apply finishes_calcStackRightLoop. lia. Qed.

Lemma finishes_onClose (startPoint : nat) (stack : list Token) (w : World) :
  finishes (onCloseParamOrArrayOrFunc expr startPoint stack w).
Proof.
  unfold onCloseParamOrArrayOrFunc.
  finish; apply finishes_calcStackLeft.
Qed.

Lemma finishes_execExprFunction (w : World) (funcToken : Token) :
  finishes (_execExprFunction _exFunctions expr w funcToken).
Proof.
  unfold _execExprFunction.
  destruct (_exFunctions _) as [func|] eqn:E; [|exact I].
  finish. eapply functions_finish, E.
Qed.

Lemma finishes_onBinary (m : Machine) (token : Token) :
  finishes (onBinary expr m token).
Proof. unfold onBinary. finish; apply finishes_calcStackLeft. Qed.

Lemma finishes_onToken (m : Machine) (token : Token) :
  finishes (onToken _exFunctions expr m token).
Proof.
  unfold onToken.
  destruct (tkClass token); try exact I.
  - unfold onOpen. finish.
  - unfold onOpen. finish.
  - unfold onCommaOrClose.
    finish; first [ apply finishes_onClose | apply finishes_execExprFunction ].
  - unfold onValue.
    finish; first [ apply finishes_calcUnary | apply finishes_calcStackRight ].
  - unfold onOpen. finish.
  - unfold onCommaOrClose.
    finish; first [ apply finishes_onClose | apply finishes_execExprFunction ].
  - unfold onUnary. finish. apply finishes_onBinary.
  - unfold onUnary. finish. apply finishes_onBinary.
  - apply finishes_onBinary.
  - unfold onCommaOrClose.
    finish; first [ apply finishes_onClose | apply finishes_execExprFunction ].
Qed.

Lemma onBinary_pos (m m' : Machine) (token : Token) :
  onBinary expr m token = Ok m' -> pos m' = pos m.
Proof.
  unfold onBinary. intros H. ok_inv H; injection H as <-; reflexivity.
Qed.

(** Handling a token leaves the position of the lexer alone. *)
Lemma onToken_pos (m m' : Machine) (token : Token) :
  onToken _exFunctions expr m token = Ok m' -> pos m' = pos m.
Proof.
  unfold onToken, onValue, onOpen, onCommaOrClose, onUnary. intros H.
  ok_inv H;
    first [ injection H as <-; reflexivity | exact (onBinary_pos _ _ _ H) ].
Qed.

(** The main loop stops within one pass per character left, and one more. *)
Lemma finishes_mainLoop (fuel : nat) (m : Machine) :
  String.length expr - pos m < fuel ->
  finishes (mainLoop _exFunctions expr fuel m).
Proof.
  revert m. induction fuel as [|fuel IH]; intros m Hfuel; [lia|].
  simpl.
  apply finishes_bind; [apply finishes_parser|].
  intros [token pos'] Hp.
  destruct (TokenClass.eqb (tkClass token) TokenClass.None) eqn:Hcl.
  { destruct (tkClass token); try discriminate. exact I. }
  assert (Hne : tkClass token <> TokenClass.None)
    by (intros E; rewrite E in Hcl; discriminate).
  apply parser_advance in Hp as [Hlt Hin]; [|exact Hne].
  assert (Hstep : finishes
            (onToken _exFunctions expr
               (mkMachine (stack m) (state m) (startPoint m) (startPoints m)
                          pos' (world m)) token ≫= mainLoop _exFunctions expr fuel)).
  { apply finishes_bind; [apply finishes_onToken|].
    intros m' Hm'. apply IH.
    apply onToken_pos in Hm'. simpl in Hm'. lia. }
  destruct (tkClass token); try exact Hstep. contradiction.
Qed.

End Termination.

(* ===================================================================== *)
(** ** What the lexer reads at a quote, a digit and a sign *)
(* ===================================================================== *)

Section LexerShapes.

Local Open Scope nat_scope.

Variable w : World.
Variable expr : string.

Lemma skipSpaces_nonspace (pos : nat) (c : ascii) :
  charAt expr pos = Some c -> Ascii.eqb c " " = false ->
  skipSpaces (strDrop pos expr) pos = pos.
Proof.
  rewrite charAt_strDrop. destruct (strDrop pos expr) as [|d r]; [discriminate|].
  intros [= ->] H. simpl. rewrite H. reflexivity.
Qed.

Lemma digit_facts (c : ascii) :
  isDigit (Some c) = true ->
  isCharacter c = false /\ Ascii.eqb c " " = false /\ Ascii.eqb c "-" = false
  /\ Ascii.eqb c "+" = false.
Proof.
  destruct c as [[] [] [] [] [] [] [] []]; vm_compute; intros H;
    try discriminate H; repeat split.
Qed.

Lemma sign_facts (c : ascii) :
  Ascii.eqb c "-" || Ascii.eqb c "+" = true ->
  isCharacter c = false /\ Ascii.eqb c " " = false /\ isDigit (Some c) = false
  /\ chIs (Some c) "'" = false
  /\ (chIs (Some c) "=" || chIs (Some c) "!" || chIs (Some c) "<"
      || chIs (Some c) ">") = false
  /\ Str2TokenType (chText (Some c))
     = Some (if Ascii.eqb c "-" then TokenType.Minus else TokenType.Plus).
Proof.
  destruct c as [[] [] [] [] [] [] [] []]; vm_compute; intros H;
    try discriminate H; repeat split.
Qed.

(** At a quote that nothing closes, the lexer takes the rest of the text as
    the string and moves past the end; it does not throw. *)
Lemma parser_unterminated_string (pos : nat) (checkSign : bool) :
  charAt expr pos = Some "'"%char ->
  hasClosingQuote "'" (strDrop (S pos) expr) = false ->
  parser w expr pos checkSign
  = Ok (stringToken (unescape (strDrop (S pos) expr)), S (String.length expr)).
Proof.
  intros Hc Hq. unfold parser, parserBody.
  rewrite (skipSpaces_nonspace pos "'" Hc eq_refl), Hc.
  change (isCharacter "'") with false. cbv iota.
  replace (checkSign && ((Ascii.eqb "'" "-" || Ascii.eqb "'" "+")
                         && isDigit (charAt expr (S pos)))) with false
    by (destruct checkSign; reflexivity).
  change (isDigit (Some "'"%char)) with false.
  change (chIs (Some "'"%char) "'") with true. cbv iota.
  rewrite (scanString_unterminated _ _ _ Hq), strDrop_length.
  pose proof (charAt_Some_lt _ _ _ Hc) as Hlt.
  replace (S pos + (String.length expr - S pos)) with (String.length expr) by lia.
  unfold setToken. cbn [sValue withParam withType param default from_option id storedText].
  rewrite jsSubstring_to_end. reflexivity.
Qed.

(** At a digit, the literal runs over the digits and points that follow. *)
Lemma parser_number (pos : nat) (checkSign : bool) (c : ascii) :
  charAt expr pos = Some c -> isDigit (Some c) = true ->
  let pos' := scanWhile isDigitOrPoint (strDrop (S pos) expr) (S pos) in
  parser w expr pos checkSign
  = Ok (numberToken (parseFloat (jsSubstring expr pos pos')), pos').
Proof.
  intros Hc Hd pos'. unfold parser, parserBody.
  destruct (digit_facts c Hd) as (E1 & E2 & E3 & E4).
  rewrite (skipSpaces_nonspace pos c Hc E2), Hc, E1, E3, E4.
  cbn [orb andb]. rewrite andb_false_r, Hd. reflexivity.
Qed.

(** At a sign that a digit follows: with [checkSign] the sign is part of
    the literal; without it the sign is an operator of its own. *)
Lemma parser_sign (pos : nat) (c : ascii) :
  charAt expr pos = Some c ->
  Ascii.eqb c "-" || Ascii.eqb c "+" = true ->
  isDigit (charAt expr (S pos)) = true ->
  let pos' := scanWhile isDigitOrPoint (strDrop (S (S pos)) expr) (S (S pos)) in
  parser w expr pos true
  = Ok (numberToken (parseFloat (jsSubstring expr pos pos')), pos')
  /\ parser w expr pos false
     = Ok (mkToken (mkParam None (Some (SText (jsSubstring expr pos (S pos)))) None None)
                   (if Ascii.eqb c "-" then TokenType.Minus else TokenType.Plus)
                   TokenClass.Unary true [], S pos).
Proof.
  intros Hc Hs Hd pos'. unfold parser, parserBody.
  destruct (sign_facts c Hs) as (E1 & E2 & E3 & E4 & E5 & E6).
  rewrite (skipSpaces_nonspace pos c Hc E2), Hc, E1, Hs, Hd.
  split.
  - cbn [orb andb]. rewrite Hd. reflexivity.
  - cbn [orb andb]. rewrite E3, E4, E5. cbn [andb]. rewrite E6.
    destruct (Ascii.eqb c "-"); reflexivity.
Qed.

End LexerShapes.

(* ===================================================================== *)
(** ** Expressions that are one value *)
(* ===================================================================== *)

Section SingleValue.

Local Open Scope nat_scope.

Variable _exFunctions : string -> option ExprFunc.

(** When the first token is a value that reaches the end of the text, the
    evaluation returns that value and leaves the world as it was. *)
Lemma calcExpr_single_value (expr : string) (w : World) (p : ExFuncParam)
    (pos' : nat) :
  parser w expr 1 true
  = Ok (mkToken p TokenType.Value TokenClass.Value false [], pos') ->
  String.length expr <= pos' ->
  calcExpr _exFunctions expr w
  = Ok (_valueOfToken (mkToken p TokenType.Value TokenClass.Value false []), w).
Proof.
  intros Hp Hend.
  pose proof (parser_advance w expr 1 true _ _ Hp) as [_ Hlen]; [discriminate|].
  unfold calcExpr, _stateMachine.
  destruct (String.length expr) as [|[|n]] eqn:Hn; [lia | lia |].
  cbn [mainLoop pos world state isBinaryState negb].
  rewrite Hp.
  cbn [mbind Res_bind tkClass onToken onValue state isBinaryState isNoUnaryState
       stack world startPoint startPoints pos length app calcStackRight
       calcStackRightLoop Nat.ltb Nat.leb].
  rewrite parser_at_end by lia.
  reflexivity.
Qed.

End SingleValue.

(* ===================================================================== *)
(** ** Arrays in the store *)
(* ===================================================================== *)

Section ArrayFacts.

Local Open Scope nat_scope.
Local Open Scope list_scope.

Lemma heapSet_same (w : World) (a : addr) (arr : JsArray) :
  heapGet w a = Some arr -> heapSet w a arr = w.
Proof.
  unfold heapGet, heapSet. intros H. rewrite (list_insert_id _ _ _ H).
  destruct w; reflexivity.
Qed.

Lemma heapSet_heapSet (w : World) (a : addr) (arr arr' : JsArray) :
  heapSet (heapSet w a arr) a arr' = heapSet w a arr'.
Proof. unfold heapSet. simpl. rewrite list_insert_insert_eq. reflexivity. Qed.

Lemma heapGet_heapSet_eq (w : World) (a : addr) (arr arr' : JsArray) :
  heapGet w a = Some arr -> heapGet (heapSet w a arr') a = Some arr'.
Proof.
  unfold heapGet, heapSet. simpl. intros H.
  apply list_lookup_insert_eq. exact (lookup_lt_Some _ _ _ H).
Qed.

Lemma heapGet_heapSet_ne (w : World) (a b : addr) (arr' : JsArray) :
  a <> b -> heapGet (heapSet w a arr') b = heapGet w b.
Proof. unfold heapGet, heapSet. simpl. apply list_lookup_insert_ne. Qed.

Lemma heapGet_heapPush_new (w : World) (arr : JsArray) :
  heapGet (heapPush w arr) (newAddr w) = Some arr.
Proof.
  unfold heapGet, heapPush, newAddr. simpl.
  rewrite lookup_app_r by lia. rewrite Nat.sub_diag. reflexivity.
Qed.

Lemma heapGet_heapPush_old (w : World) (arr arr' : JsArray) (a : addr) :
  heapGet w a = Some arr' -> heapGet (heapPush w arr) a = Some arr'.
Proof.
  unfold heapGet, heapPush. simpl. intros H.
  rewrite lookup_app_l by exact (lookup_lt_Some _ _ _ H). exact H.
Qed.


Lemma readVar_heapPush (w : World) (arr : JsArray) (name : string) :
  readVar (heapPush w arr) name = readVar w name.
Proof. reflexivity. Qed.

(** One more pass of the callback extends the part already written. *)
Lemma forEach_prefix_step (f : number -> number -> number) (arr1 arr2 : JsArray)
    (k : nat) (x y : option number) :
  arr1 !! k = Some x -> arr2 !! k = Some y ->
  <[k := Some (f (toNumber x) (toNumber y))]>
    (take k (elementWise f arr1 arr2) ++ drop k arr1)
  = take (S k) (elementWise f arr1 arr2) ++ drop (S k) arr1.
Proof.
  intros H1 H2.
  assert (Hr : elementWise f arr1 arr2 !! k
               = Some (Some (f (toNumber x) (toNumber y)))).
  { unfold elementWise. rewrite lookup_zip_with, H1, H2. reflexivity. }
  pose proof (lookup_lt_Some _ _ _ Hr) as Hlt.
  rewrite (take_S_r _ _ _ Hr), (drop_S _ _ _ H1).
  rewrite insert_app_r_alt by (rewrite length_take; lia).
  rewrite length_take, Nat.min_l by lia.
  rewrite Nat.sub_diag. simpl. rewrite <- app_assoc. reflexivity.
Qed.

(** The passes of [forEach] over the first [k] indices write the first [k]
    combined elements into the first array, whether or not both operands
    are the same object. *)
Lemma forEach_prefix (f : number -> number -> number) (a1 a2 : addr) (w : World)
    (arr1 arr2 : JsArray) (k : nat) :
  heapGet w a1 = Some arr1 -> heapGet w a2 = Some arr2 ->
  length arr1 = length arr2 -> k <= length arr1 ->
  foldl (forEachStep f a1 a2) w (seq 0 k)
  = heapSet w a1 (take k (elementWise f arr1 arr2) ++ drop k arr1).
Proof.
  intros H1 H2 Hlen. induction k as [|k IH]; intros Hk.
  - simpl. rewrite drop_0. symmetry. apply heapSet_same, H1.
  - rewrite seq_S, foldl_app, IH by lia. simpl.
    unfold forEachStep.
    rewrite (heapGet_heapSet_eq _ _ _ _ H1). simpl.
    destruct (lookup_lt_is_Some_2 arr1 k ltac:(lia)) as [x Hx].
    destruct (lookup_lt_is_Some_2 arr2 k ltac:(lia)) as [y Hy].
    assert (Hlenr : length (elementWise f arr1 arr2) = length arr1).
    { unfold elementWise. rewrite length_zip_with. lia. }
    assert (Hk1 : (take k (elementWise f arr1 arr2) ++ drop k arr1) !! k = Some x).
    { rewrite lookup_app_r by (rewrite length_take; lia).
      rewrite length_take, Nat.min_l, Nat.sub_diag by lia.
      rewrite lookup_drop, Nat.add_0_r. exact Hx. }
    rewrite Hk1. simpl.
    assert (Hv2 : mjoin (default [] (heapGet
                     (heapSet w a1 (take k (elementWise f arr1 arr2) ++ drop k arr1))
                     a2) !! k) = y).
    { destruct (decide (a1 = a2)) as [->|Hne].
      - rewrite (heapGet_heapSet_eq _ _ _ _ H1). simpl. rewrite Hk1. simpl.
        rewrite H1 in H2. injection H2 as ->. rewrite Hx in Hy.
        injection Hy as ->. reflexivity.
      - rewrite (heapGet_heapSet_ne _ _ _ _ Hne), H2. simpl. rewrite Hy.
        reflexivity. }
    rewrite Hv2, heapSet_heapSet.
    rewrite (forEach_prefix_step f arr1 arr2 k x y Hx Hy). reflexivity.
Qed.

(** [forEach] over two arrays of one length leaves their element-wise
    combination in the first array object. *)
Lemma forEachIndex_elementWise (f : number -> number -> number) (a1 a2 : addr)
    (w : World) (arr1 arr2 : JsArray) :
  heapGet w a1 = Some arr1 -> heapGet w a2 = Some arr2 ->
  length arr1 = length arr2 ->
  forEachIndex f a1 a2 (length arr1) w = heapSet w a1 (elementWise f arr1 arr2).
Proof.
  intros H1 H2 Hlen. unfold forEachIndex.
  rewrite (forEach_prefix f a1 a2 w arr1 arr2 _ H1 H2 Hlen (Nat.le_refl _)).
  rewrite drop_all, app_nil_r, take_ge; [reflexivity|].
  unfold elementWise. rewrite length_zip_with. lia.
Qed.

End ArrayFacts.

(* ===================================================================== *)
(** ** Running the state machine on a text *)
(* ===================================================================== *)

Section Runs.

Local Open Scope nat_scope.

Lemma mainLoop_S (_exFunctions : string -> option ExprFunc) (expr : string)
    (fuel : nat) (m : Machine) :
  mainLoop _exFunctions expr (S fuel) m
  = parser (world m) expr (pos m) (negb (isBinaryState (state m)))
    ≫= fun '(token, pos) =>
         let m := mkMachine (stack m) (state m) (startPoint m)
                            (startPoints m) pos (world m) in
         match tkClass token with
         | TokenClass.None => Ok m
         | _ => onToken _exFunctions expr m token
                ≫= mainLoop _exFunctions expr fuel
         end.
Proof. reflexivity. Qed.

(** After a token, the state is [Binary] exactly when that token can be the
    left operand of a binary operator. *)
Lemma onToken_state (_exFunctions : string -> option ExprFunc) (expr : string)
    (m m' : Machine) (token : Token) :
  tkClass token <> TokenClass.None ->
  onToken _exFunctions expr m token = Ok m' ->
  isBinaryState (state m') = canBeLeftOperand (tkClass token).
Proof.
  intros Hne. unfold onToken, onValue, onOpen, onCommaOrClose, onUnary, onBinary.
  destruct (tkClass token) eqn:Hcl; try contradiction; intros H;
    ok_inv H; try (injection H as <-; reflexivity).
  all: cbn [TokenClass.eqb TokenClass.index Nat.eqb negb andb orb] in *;
    try discriminate.
  (* [not] in the state that accepts an operand: the state stays as it is *)
  injection H as <-. simpl. destruct (state m); [reflexivity | reflexivity | discriminate].
Qed.

Lemma forEachIndex_known (f : number -> number -> number) (a1 a2 : addr)
    (w : World) (arr1 arr2 : JsArray) (n : nat) :
  heapGet w a1 = Some arr1 -> heapGet w a2 = Some arr2 ->
  n = length arr1 -> n = length arr2 ->
  forEachIndex f a1 a2 n w = heapSet w a1 (elementWise f arr1 arr2).
Proof.
  intros H1 H2 -> Hlen. apply forEachIndex_elementWise; assumption.
Qed.

Lemma readVar_of_vars (w : World) (name : string) (v : VarValue) :
  vars w !! name = Some v -> readVar w name = Some v.
Proof. unfold readVar. intros ->. reflexivity. Qed.

(** Both operands arrays: [execOp] compares the lengths and writes the
    combined elements through the first operand's reference. *)
Lemma execOp_arrays (expr : string) (w : World) (value1 value2 : Token)
    (f : number -> number -> number) (allowOther : bool) (a1 a2 : addr)
    (arr1 arr2 : JsArray) :
  paType value1 = Some ExFuncParamType.Array ->
  paType value2 = Some ExFuncParamType.Array ->
  arrayValue value1 = Some a1 -> arrayValue value2 = Some a2 ->
  heapGet w a1 = Some arr1 -> heapGet w a2 = Some arr2 ->
  execOp expr w value1 value2 f allowOther
  = if length arr1 =? length arr2
    then Ok (ExecTrue None value1 (heapSet w a1 (elementWise f arr1 arr2)))
    else Err (ThrowErr "Both arrays must have the same value").
Proof.
  intros T1 T2 V1 V2 H1 H2. unfold execOp.
  rewrite T1, T2, V1, V2. simpl. rewrite H1, H2. simpl.
  destruct (length arr1 =? length arr2) eqn:E; simpl; [|reflexivity].
  apply Nat.eqb_eq in E.
  rewrite (forEachIndex_elementWise f a1 a2 w arr1 arr2 H1 H2 E).
  destruct value1 as [[pt sv nv av] ty cl cb fp]. simpl in *. subst pt av.
  reflexivity.
Qed.

(** One operand an array and the other not: [execOp] throws. *)
Lemma execOp_mixed (expr : string) (w : World) (value1 value2 : Token)
    (f : number -> number -> number) (allowOther : bool) :
  xorb (paTypeIs (paType value1) ExFuncParamType.Array)
       (paTypeIs (paType value2) ExFuncParamType.Array) = true ->
  execOp expr w value1 value2 f allowOther = Err (ThrowErr "Can only add 2 arrays").
Proof.
  unfold execOp.
  destruct (paTypeIs (paType value1) _), (paTypeIs (paType value2) _);
    simpl; intros H; try discriminate H; reflexivity.
Qed.

End Runs.

(** Finds what the store holds at an address after some allocations. *)
Ltac heap_lookup :=
  first [ apply heapGet_heapPush_new
        | eassumption
        | eapply heapGet_heapPush_old; heap_lookup ].

(** Evaluates everything but the accesses to the world, resolves those with
    the facts at hand, and goes on. *)
Ltac run :=
  cbv -[heapGet heapSet heapPush newAddr forEachIndex readVar elementWise
       JsNumber.rem];
  repeat (progress (
    repeat match goal with
    | H : readVar ?w ?n = _ |- context [readVar ?w ?n] => rewrite H
    | |- context [readVar (heapPush ?w ?arr) ?n] =>
        rewrite (readVar_heapPush w arr n)
    | |- context [heapGet ?w ?a] =>
        let H := fresh "H" in
        eassert (H : heapGet w a = Some _) by heap_lookup;
        rewrite H; clear H
    | |- context [forEachIndex ?f ?a1 ?a2 ?n ?w] =>
        erewrite (forEachIndex_known f a1 a2 w) by
          first [ heap_lookup | reflexivity | eassumption ]
    end;
    cbv -[heapGet heapSet heapPush newAddr forEachIndex readVar elementWise
       JsNumber.rem])).

(* ===================================================================== *)
(** ** The host's numbers: the text of a number reads back as the number *)
(* ===================================================================== *)

Section Binary64.

Local Open Scope Z_scope.

Lemma digits2_pos_bounds (m : positive) :
  2 ^ (Zpos (digits2_pos m) - 1) <= Zpos m < 2 ^ Zpos (digits2_pos m).
Proof.
  induction m as [m IH|m IH|]; cbn [digits2_pos].
  - rewrite Pos2Z.inj_succ, Z.pow_succ_r by lia.
    replace (Z.succ (Zpos (digits2_pos m)) - 1) with (Z.succ (Zpos (digits2_pos m) - 1)) by lia.
    rewrite Z.pow_succ_r by lia. lia.
  - rewrite Pos2Z.inj_succ, Z.pow_succ_r by lia.
    replace (Z.succ (Zpos (digits2_pos m)) - 1) with (Z.succ (Zpos (digits2_pos m) - 1)) by lia.
    rewrite Z.pow_succ_r by lia. lia.
  - cbn. lia.
Qed.

Lemma iter_pos_nat {A : Type} (f : A -> A) (p : positive) (x : A) :
  SpecFloat.iter_pos f p x = Nat.iter (Pos.to_nat p) f x.
Proof.
  revert x. induction p as [p IH|p IH|]; intros x; cbn [SpecFloat.iter_pos].
  - rewrite !IH, Pos2Nat.inj_xI.
    replace (S (2 * Pos.to_nat p))%nat with (Pos.to_nat p + (Pos.to_nat p + 1))%nat by lia.
    rewrite !Nat.iter_add. reflexivity.
  - rewrite !IH, Pos2Nat.inj_xO.
    replace (2 * Pos.to_nat p)%nat with (Pos.to_nat p + Pos.to_nat p)%nat by lia.
    rewrite Nat.iter_add. reflexivity.
  - reflexivity.
Qed.

Lemma shiftl_nat_value (m : positive) (u : nat) :
  Zpos (Pos.shiftl_nat m u) = Zpos m * 2 ^ Z.of_nat u.
Proof.
  induction u as [|u IH].
  - cbn. lia.
  - rewrite Nat2Z.inj_succ, Z.pow_succ_r by lia.
    cbn [Pos.shiftl_nat nat_rect]. rewrite Pos2Z.inj_xO.
    change (nat_rect _ m (fun _ => xO) u) with (Pos.shiftl_nat m u).
    rewrite IH. ring.
Qed.

Lemma shiftl_nat_digits (m : positive) (u : nat) :
  Zpos (digits2_pos (Pos.shiftl_nat m u)) = Zpos (digits2_pos m) + Z.of_nat u.
Proof.
  induction u as [|u IH].
  - cbn. lia.
  - cbn [Pos.shiftl_nat nat_rect].
    change (nat_rect _ m (fun _ => xO) u) with (Pos.shiftl_nat m u).
    cbn [digits2_pos]. rewrite Pos2Z.inj_succ, IH. lia.
Qed.

Lemma shr_1_shiftl_nat (m : positive) (u : nat) :
  Nat.iter u shr_1 (Build_shr_record (Zpos (Pos.shiftl_nat m u)) false false)
  = Build_shr_record (Zpos m) false false.
Proof.
  induction u as [|u IH]; [reflexivity|].
  rewrite Nat.iter_succ_r.
  cbn [Pos.shiftl_nat nat_rect].
  change (nat_rect _ m (fun _ => xO) u) with (Pos.shiftl_nat m u).
  cbn [shr_1 orb]. exact IH.
Qed.

Lemma shr_exact (m : positive) (t e0 q : Z) :
  0 <= t -> q = Zpos m * 2 ^ t ->
  shr (Build_shr_record q false false) e0 t
  = (Build_shr_record (Zpos m) false false, e0 + t).
Proof.
  intros Ht ->. destruct t as [|p|p]; [| |lia].
  - cbn [shr]. rewrite Z.pow_0_r, Z.mul_1_r, Z.add_0_r. reflexivity.
  - cbn [shr]. rewrite iter_pos_nat.
    rewrite <- (positive_nat_Z p) at 1. rewrite <- shiftl_nat_value.
    rewrite shr_1_shiftl_nat. reflexivity.
Qed.

Lemma bounded_inv (m : positive) (e : Z) :
  bounded prec emax m e = true ->
  fexp prec emax (Zpos (digits2_pos m) + e) = e /\ e <= emax - prec.
Proof.
  unfold bounded, canonical_mantissa. intros H.
  apply andb_prop in H as [H1 H2].
  apply Z.eqb_eq in H1. apply Z.leb_le in H2. split; assumption.
Qed.

Lemma binary_round_aux_exact (m : positive) (e t q : Z) :
  bounded prec emax m e = true -> 0 <= t -> q = Zpos m * 2 ^ t ->
  binary_round_aux prec emax false q (e - t) loc_Exact = S754_finite false m e.
Proof.
  intros Hb Ht Hq. destruct (bounded_inv m e Hb) as [Hc He].
  assert (Hd : Zdigits2 q = Zpos (digits2_pos m) + t).
  { rewrite Hq, <- (Z2Nat.id t Ht), <- shiftl_nat_value. cbn [Zdigits2].
    apply shiftl_nat_digits. }
  unfold binary_round_aux. unfold shr_fexp at 1.
  rewrite Hd.
  replace (Zpos (digits2_pos m) + t + (e - t)) with (Zpos (digits2_pos m) + e) by lia.
  rewrite Hc. replace (e - (e - t)) with t by lia.
  cbn [shr_record_of_loc].
  rewrite (shr_exact m t (e - t) q Ht Hq).
  replace (e - t + t) with e by lia.
  cbn [shr_m loc_of_shr_record round_nearest_even].
  unfold shr_fexp. cbn [Zdigits2]. rewrite Hc, Z.sub_diag.
  cbn [shr shr_record_of_loc shr_m].
  apply Z.leb_le in He. rewrite He. reflexivity.
Qed.

Lemma fexp_mono (a b : Z) : a <= b -> fexp prec emax a <= fexp prec emax b.
Proof. unfold fexp. lia. Qed.

Lemma pow2_lt_inv (a b : Z) : 0 <= a -> 0 <= b -> 2 ^ a < 2 ^ b -> a < b.
Proof. intros Ha Hb H. apply (Z.pow_lt_mono_r_iff 2); lia. Qed.

(** The quotient of two integers that is a binary64 value is what the
    division of the host returns. *)
Lemma SFdiv_exact (m L T : positive) (e : Z) :
  bounded prec emax m e = true ->
  (0 <= e -> Zpos L = Zpos m * 2 ^ e * Zpos T) ->
  (e < 0 -> Zpos L * 2 ^ (- e) = Zpos m * Zpos T) ->
  SFdiv prec emax (S754_finite false L 0) (S754_finite false T 0)
  = S754_finite false m e.
Proof.
  intros Hb Hpos Hneg. destruct (bounded_inv m e Hb) as [Hc He].
  pose proof (digits2_pos_bounds m) as Bm.
  pose proof (digits2_pos_bounds L) as BL.
  pose proof (digits2_pos_bounds T) as BT.
  set (dm := Zpos (digits2_pos m)) in *.
  set (d1 := Zpos (digits2_pos L)) in *.
  set (d2 := Zpos (digits2_pos T)) in *.
  set (e' := Z.min (fexp prec emax (d1 + 0 - (d2 + 0))) (0 - 0)).
  assert (He' : e' <= e /\ e' <= 0).
  { subst e'. split; [|lia].
    destruct (Z_lt_le_dec e 0) as [En|Ep]; [|lia].
    specialize (Hneg En).
    assert (d1 - d2 <= dm + e).
    { assert (2 ^ (d1 - 1 - e) < 2 ^ (dm + d2)).
      { replace (d1 - 1 - e) with ((d1 - 1) + (- e)) by lia.
        rewrite !Z.pow_add_r by lia. nia. }
      apply pow2_lt_inv in H; lia. }
    pose proof (fexp_mono (d1 + 0 - (d2 + 0)) (dm + e) ltac:(lia)) as Hm.
    rewrite Hc in Hm. lia. }
  destruct He' as [He1 He2].
  assert (Hq : Zpos L * 2 ^ (- e') = (Zpos m * 2 ^ (e - e')) * Zpos T).
  { destruct (Z_lt_le_dec e 0) as [En|Ep].
    - specialize (Hneg En).
      replace (- e') with (- e + (e - e')) by lia.
      rewrite Z.pow_add_r by lia. nia.
    - specialize (Hpos Ep). rewrite Hpos.
      replace (e - e') with (e + - e') by lia.
      rewrite Z.pow_add_r by lia. ring. }
  unfold SFdiv, SFdiv_core_binary. cbn [Zdigits2 xorb].
  fold d1 d2 e'.
  replace (0 - 0 - e') with (- e') by lia.
  assert (Hm' : match - e' with
                | Z0 => Zpos L
                | Zpos _ => Z.shiftl (Zpos L) (- e')
                | Zneg _ => 0
                end = Zpos L * 2 ^ (- e')).
  { destruct (- e') eqn:E; [rewrite Z.pow_0_r; lia| |lia].
    rewrite Z.shiftl_mul_pow2 by lia. reflexivity. }
  rewrite Hm', Hq.
  pose proof (Z.div_mul (Zpos m * 2 ^ (e - e')) (Zpos T) ltac:(lia)) as Hd.
  pose proof (Z.mod_mul (Zpos m * 2 ^ (e - e')) (Zpos T) ltac:(lia)) as Hr.
  unfold Z.div in Hd. unfold Z.modulo in Hr.
  destruct (Z.div_eucl (Zpos m * 2 ^ (e - e') * Zpos T) (Zpos T)) as [q r].
  subst q r.
  assert (Hloc : new_location (Zpos T) 0 = loc_Exact).
  { unfold new_location, new_location_even, new_location_odd.
    destruct (Z.even (Zpos T)); reflexivity. }
  rewrite Hloc.
  replace e' with (e - (e - e')) at 2 by lia.
  apply binary_round_aux_exact; [exact Hb|lia|reflexivity].
Qed.

Lemma binary_round_aux_sign (mx ex : Z) (lx : location) :
  SF2Prim (binary_round_aux prec emax true mx ex lx)
  = (- SF2Prim (binary_round_aux prec emax false mx ex lx))%float.
Proof.
  unfold binary_round_aux.
  destruct (shr_fexp prec emax mx ex lx) as [mrs' e'].
  destruct (shr_fexp prec emax _ e' loc_Exact) as [mrs'' e''].
  destruct (shr_m mrs''); [reflexivity| |reflexivity].
  destruct (e'' <=? emax - prec); reflexivity.
Qed.

Lemma ofDecimal_sign (m e : Z) :
  0 <= m -> ofDecimal true m e = (- ofDecimal false m e)%float.
Proof.
  intros Hm. unfold ofDecimal. destruct m as [|p|p]; [reflexivity| |lia].
  destruct (0 <=? e).
  - unfold binary_round.
    destruct (shl_align _ 0 _) as [mz ez]. apply binary_round_aux_sign.
  - unfold SFdiv.
    destruct (SFdiv_core_binary _ _ _ _ _ _) as [[mz ez] lz].
    apply binary_round_aux_sign.
Qed.

Lemma SFeqb_finite_refl (s : bool) (m : positive) (e : Z) :
  SFeqb (S754_finite s m e) (S754_finite s m e) = true.
Proof.
  unfold SFeqb, SFcompare. rewrite Z.compare_refl.
  change (Pos.compare_cont Eq m m) with (Pos.compare m m).
  rewrite Pos.compare_refl. destruct s; reflexivity.
Qed.

Lemma SFeqb_finite_inv (R : spec_float) (s : bool) (m : positive) (e : Z) :
  SFeqb R (S754_finite s m e) = true -> R = S754_finite s m e.
Proof.
  unfold SFeqb, SFcompare.
  destruct R as [s1|s1| |s1 m1 e1]; try discriminate.
  - destruct s; discriminate.
  - destruct s1; discriminate.
  - change (Pos.compare_cont Eq m1 m) with (Pos.compare m1 m).
    destruct s1, s; try discriminate;
      destruct (Z.compare_spec e1 e); try discriminate;
      destruct (Pos.compare_spec m1 m); try discriminate;
      intros _; subst; reflexivity.
Qed.

(** Two numbers that [===] holds equal are the same number when one of
    them is finite and not a zero. *)
Lemma eqb_finite_eq (r x : float) (s : bool) (m : positive) (e : Z) :
  Prim2SF x = S754_finite s m e -> PrimFloat.eqb r x = true -> r = x.
Proof.
  intros Hx H. rewrite FloatAxioms.eqb_spec, Hx in H.
  apply SFeqb_finite_inv in H. apply FloatAxioms.Prim2SF_inj. congruence.
Qed.

Lemma eqb_sign (a x : float) (s : bool) (m : positive) (e : Z) :
  Prim2SF x = S754_finite s m e ->
  PrimFloat.eqb a (abs x) = true ->
  PrimFloat.eqb (if s then (- a)%float else a) x = true.
Proof.
  intros Hx H. rewrite FloatAxioms.eqb_spec, FloatAxioms.abs_spec, Hx in H. cbn [SFabs] in H.
  apply SFeqb_finite_inv in H.
  destruct s; rewrite FloatAxioms.eqb_spec, ?FloatAxioms.opp_spec, H, Hx; cbn [SFopp negb];
    apply SFeqb_finite_refl.
Qed.

(** The text of a finite number that is divided exactly reads back. *)
Lemma ofDecimal_exact (x : float) (s : bool) (m : positive) (e L j : Z) :
  Prim2SF x = S754_finite s m e ->
  0 < L -> 0 < j ->
  (0 <= e -> L = Zpos m * 2 ^ e * 10 ^ j) ->
  (e < 0 -> L * 2 ^ (- e) = Zpos m * 10 ^ j) ->
  PrimFloat.eqb (ofDecimal false L (- j)) (abs x) = true.
Proof.
  intros Hx HL Hj Hpos Hneg.
  pose proof (FloatAxioms.Prim2SF_valid x) as Hv. rewrite Hx in Hv. cbn [valid_binary] in Hv.
  unfold ofDecimal. destruct L as [|p|p]; try lia.
  destruct (Z.leb_spec 0 (- j)) as [?|_]; [lia|].
  rewrite Z.opp_involutive.
  assert (HT : Zpos (Z.to_pos (10 ^ j)) = 10 ^ j).
  { apply Z2Pos.id. apply Z.pow_pos_nonneg; lia. }
  rewrite (SFdiv_exact m p (Z.to_pos (10 ^ j)) e Hv).
  - rewrite FloatAxioms.eqb_spec, FloatAxioms.abs_spec, Hx. cbn [SFabs].
    assert (Hp : Prim2SF (SF2Prim (S754_finite false m e)) = S754_finite false m e).
    { apply FloatAxioms.Prim2SF_SF2Prim. exact Hv. }
    rewrite Hp. apply SFeqb_finite_refl.
  - rewrite HT. exact Hpos.
  - rewrite HT. exact Hneg.
Qed.

End Binary64.

Module DecimalDigits.

Import QArith Qround Qpower.
Local Open Scope Z_scope.


Lemma pow10_pos (p : Z) : (0 < 10 ^ p)%Q.
Proof. apply Qpower_0_lt. reflexivity. Qed.

Lemma pow2_pos (p : Z) : (0 < 2 ^ p)%Q.
Proof. apply Qpower_0_lt. reflexivity. Qed.

Lemma inject_pow10 (p : Z) : 0 <= p -> (inject_Z (10 ^ p) == 10 ^ p)%Q.
Proof. intros H. apply (Zpower_Qpower 10 p H). Qed.

Lemma inject_pow2 (p : Z) : 0 <= p -> (inject_Z (2 ^ p) == 2 ^ p)%Q.
Proof. intros H. apply (Zpower_Qpower 2 p H). Qed.

Lemma pow10_add (p q : Z) : (10 ^ (p + q) == 10 ^ p * 10 ^ q)%Q.
Proof. apply Qpower_plus. discriminate. Qed.

Lemma pow2_add (p q : Z) : (2 ^ (p + q) == 2 ^ p * 2 ^ q)%Q.
Proof. apply Qpower_plus. discriminate. Qed.

Lemma numden_frac (m : positive) (e : Z) :
  let '(num, den) :=
    if 0 <=? e then (Zpos m * 2 ^ e, 1) else (Zpos m, 2 ^ (- e)) in
  isFraction num den (binaryValue m e).
Proof.
  unfold isFraction, binaryValue.
  destruct (Z.leb_spec 0 e) as [He|He].
  - split; [|split]; [apply Z.mul_pos_pos; [lia|apply Z.pow_pos_nonneg; lia] | lia |].
    rewrite inject_Z_mult, (inject_pow2 e He). ring.
  - split; [|split]; [lia | apply Z.pow_pos_nonneg; lia |].
    rewrite (inject_pow2 (- e)) by lia.
    rewrite <- Qmult_assoc, <- pow2_add.
    replace (e + - e) with 0 by lia. change (2 ^ 0)%Q with 1%Q. ring.
Qed.

Lemma scale10_frac (num den p : Z) (y : Q) :
  isFraction num den y ->
  let '(a, b) := scale10 num den p in isFraction a b (y * 10 ^ p)%Q.
Proof.
  unfold isFraction. intros (Hn & Hd & H). unfold scale10.
  destruct (Z.leb_spec 0 p) as [Hp|Hp].
  - split; [|split]; [apply Z.mul_pos_pos; [lia|apply Z.pow_pos_nonneg; lia] | lia |].
    rewrite inject_Z_mult, (inject_pow10 p Hp), H. ring.
  - split; [|split]; [lia | apply Z.mul_pos_pos; [lia|apply Z.pow_pos_nonneg; lia] |].
    rewrite inject_Z_mult, (inject_pow10 (- p)) by lia.
    rewrite H.
    assert (E : (10 ^ p * 10 ^ (- p) == 1)%Q).
    { rewrite <- pow10_add. replace (p + - p) with 0 by lia. reflexivity. }
    rewrite <- (Qmult_1_r (y * inject_Z den)), <- E. ring.
Qed.

Lemma frac_ltb (a b : Z) (y : Q) :
  isFraction a b y -> (a <? b) = true <-> (y < 1)%Q.
Proof.
  unfold isFraction. intros (Ha & Hb & H). rewrite Z.ltb_lt, Zlt_Qlt, H.
  rewrite <- (Qmult_1_l (inject_Z b)) at 2.
  apply Qmult_lt_r. change 0%Q with (inject_Z 0). rewrite <- Zlt_Qlt. exact Hb.
Qed.

Lemma frac_floor_ge (a b z : Z) (y : Q) :
  isFraction a b y -> z <= a / b <-> (inject_Z z <= y)%Q.
Proof.
  unfold isFraction. intros (Ha & Hb & H).
  assert (Hb' : (0 < inject_Z b)%Q)
    by (change 0%Q with (inject_Z 0); rewrite <- Zlt_Qlt; exact Hb).
  rewrite <- (Qmult_le_r _ _ (inject_Z b) Hb'), <- H, <- inject_Z_mult, <- Zle_Qle.
  split; intros Hz.
  - pose proof (Z.mul_div_le a b Hb). nia.
  - apply Z.div_le_lower_bound; lia.
Qed.

Lemma frac_floor_lt (a b z : Z) (y : Q) :
  isFraction a b y -> a / b < z <-> (y < inject_Z z)%Q.
Proof.
  intros F. pose proof (frac_floor_ge a b z y F) as H.
  split; intros Hz.
  - apply Qnot_le_lt. intros Hc. apply H in Hc. lia.
  - apply Z.lt_nge. intros Hc. apply H in Hc. exact (Qlt_not_le _ _ Hz Hc).
Qed.

Lemma scaled_lt (y : Q) (p q : Z) : (y * 10 ^ p < 10 ^ q <-> y < 10 ^ (q - p))%Q.
Proof.
  rewrite <- (Qmult_lt_r y (10 ^ (q - p)) (10 ^ p) (pow10_pos p)).
  rewrite <- pow10_add. replace (q - p + p) with q by lia. reflexivity.
Qed.

Lemma scaled_le (y : Q) (p q : Z) : (10 ^ q <= y * 10 ^ p <-> 10 ^ (q - p) <= y)%Q.
Proof.
  rewrite <- (Qmult_le_r (10 ^ (q - p)) y (10 ^ p) (pow10_pos p)).
  rewrite <- pow10_add. replace (q - p + p) with q by lia. reflexivity.
Qed.

Lemma binaryValue_bounds (m : positive) (e : Z) :
  (2 ^ (Zpos (digits2_pos m) + e - 1) <= binaryValue m e
   /\ binaryValue m e < 2 ^ (Zpos (digits2_pos m) + e))%Q.
Proof.
  pose proof (digits2_pos_bounds m) as [Hl Hu].
  unfold binaryValue. split.
  - replace (Zpos (digits2_pos m) + e - 1) with (Zpos (digits2_pos m) - 1 + e) by lia.
    rewrite pow2_add. apply Qmult_le_r; [apply pow2_pos|].
    rewrite <- inject_pow2 by lia. rewrite <- Zle_Qle. exact Hl.
  - rewrite pow2_add. apply Qmult_lt_r; [apply pow2_pos|].
    rewrite <- inject_pow2 by lia. rewrite <- Zlt_Qlt. exact Hu.
Qed.

(** The estimate of the decimal exponent from the binary one is at most
    the exponent and at least the exponent less 8: checked at each binary
    exponent of a binary64 value. *)
Lemma exponent_estimate_table :
  forallb (fun E => Qle_bool (10 ^ ((E - 1) * 30103 / 100000 - 2)) (2 ^ (E - 1))
                    && Qle_bool (2 ^ E) (10 ^ ((E - 1) * 30103 / 100000 + 7)))
          (map (fun i => Z.of_nat i - 1073) (seq 0 2098)) = true.
Proof. vm_compute. reflexivity. Qed.

Lemma exponent_estimate (E : Z) :
  -1073 <= E <= 1024 ->
  (10 ^ ((E - 1) * 30103 / 100000 - 2) <= 2 ^ (E - 1)
   /\ 2 ^ E <= 10 ^ ((E - 1) * 30103 / 100000 + 7))%Q.
Proof.
  intros HE. pose proof exponent_estimate_table as T.
  rewrite forallb_forall in T.
  specialize (T E). rewrite andb_true_iff, !Qle_bool_iff in T. apply T.
  apply in_map_iff. exists (Z.to_nat (E + 1073)). split; [lia|].
  apply in_seq. lia.
Qed.

Lemma binary_exponent_range (m : positive) (e : Z) :
  bounded prec emax m e = true ->
  -1073 <= Zpos (digits2_pos m) + e <= 1024
  /\ e = Z.max (Zpos (digits2_pos m) + e - 53) (-1074).
Proof.
  intros Hb. destruct (bounded_inv m e Hb) as [Hc He].
  unfold fexp, emin, prec, emax in *. lia.
Qed.

Lemma decimalExponent_spec (num den : Z) (y : Q) (fuel : nat) (n : Z) :
  isFraction num den y ->
  (10 ^ (n - 1) <= y)%Q -> (y < 10 ^ (n + Z.of_nat fuel))%Q ->
  n <= decimalExponent fuel num den n <= n + Z.of_nat fuel
  /\ (10 ^ (decimalExponent fuel num den n - 1) <= y
      /\ y < 10 ^ decimalExponent fuel num den n)%Q.
Proof.
  intros F. revert n. induction fuel as [|fuel IH]; intros n Hl Hu.
  - cbn [decimalExponent]. rewrite Z.add_0_r in Hu. cbn. repeat split; try lia; assumption.
  - cbn [decimalExponent].
    pose proof (scale10_frac num den (- n) y F) as Fs.
    destruct (scale10 num den (- n)) as [a b].
    pose proof (frac_ltb a b _ Fs) as Hlt.
    change 1%Q with (10 ^ 0)%Q in Hlt. rewrite scaled_lt in Hlt.
    replace (0 - - n) with n in Hlt by lia.
    destruct (a <? b).
    + repeat split; try lia; try assumption. apply Hlt. reflexivity.
    + assert (Hn : (10 ^ (n + 1 - 1) <= y)%Q).
      { replace (n + 1 - 1) with n by lia. apply Qnot_lt_le. intros Hc.
        apply Hlt in Hc. discriminate Hc. }
      destruct (IH (n + 1) Hn) as (R1 & R2).
      { replace (n + 1 + Z.of_nat fuel) with (n + Z.of_nat (S fuel)) by lia. exact Hu. }
      split; [lia|exact R2].
Qed.

Lemma floor_bounds (num den : Z) (y : Q) (n k : Z) :
  isFraction num den y -> (10 ^ (n - 1) <= y)%Q -> (y < 10 ^ n)%Q -> 1 <= k ->
  let '(a, b) := scale10 num den (k - n) in
  10 ^ (k - 1) <= a / b < 10 ^ k.
Proof.
  intros F Hl Hu Hk.
  pose proof (scale10_frac num den (k - n) y F) as Fs.
  destruct (scale10 num den (k - n)) as [a b]. split.
  - apply (frac_floor_ge a b _ _ Fs). rewrite inject_pow10 by lia.
    apply scaled_le. replace (k - 1 - (k - n)) with (n - 1) by lia. exact Hl.
  - apply (frac_floor_lt a b _ _ Fs). rewrite inject_pow10 by lia.
    apply scaled_lt. replace (k - (k - n)) with n by lia. exact Hu.
Qed.

Lemma candidate_Some (x' : float) (num den : Z) (y : Q) (n k s n' : Z) :
  isFraction num den y -> (10 ^ (n - 1) <= y)%Q -> (y < 10 ^ n)%Q -> 1 <= k ->
  candidate x' num den n k = Some (s, n') ->
  10 ^ (k - 1) <= s < 10 ^ k
  /\ PrimFloat.eqb (ofDecimal false s (n' - k)) x' = true.
Proof.
  intros F Hl Hu Hk.
  pose proof (floor_bounds num den y n k F Hl Hu Hk) as B.
  unfold candidate. destruct (scale10 num den (k - n)) as [a b].
  set (lo := a / b) in *.
  assert (P : 10 ^ (k - 1) < 10 ^ k).
  { apply Z.pow_lt_mono_r; lia. }
  assert (E1 : (lo =? 10 ^ k) = false) by (apply Z.eqb_neq; lia).
  rewrite E1.
  destruct (lo + 1 =? 10 ^ k) eqn:E2; cbv beta iota zeta;
    [pose proof (proj1 (Z.eqb_eq _ _) E2) as E2'
    | pose proof (proj1 (Z.eqb_neq _ _) E2) as E2'];
    destruct ((a - lo * b <? (lo + 1) * b - a)
              || (a - lo * b =? (lo + 1) * b - a) && Z.even lo);
    repeat match goal with
    | |- context [if ?c then _ else _] =>
        first [rewrite E1 | rewrite E2 | destruct c eqn:?]
    end;
    intros R; try discriminate R; injection R as <- <-;
    repeat match goal with
    | H : _ && _ = true |- _ => apply andb_prop in H as [? ?]
    end;
    (split; [lia | assumption]).
Qed.

Lemma pow10_split (j d : Z) :
  0 <= d <= j -> 10 ^ j = 2 ^ (j - d) * 5 ^ j * 2 ^ d.
Proof.
  intros H. change 10 with (2 * 5). rewrite Z.pow_mul_l.
  replace j with (j - d + d) at 1 by lia. rewrite Z.pow_add_r by lia. ring.
Qed.

(** With enough digits the decimal expansion of a finite number is exact,
    and it reads back as the number. *)
Lemma candidate_exact (x : float) (sg : bool) (m : positive) (e n k : Z) :
  Prim2SF x = S754_finite sg m e ->
  (10 ^ (n - 1) <= binaryValue m e)%Q -> (binaryValue m e < 10 ^ n)%Q ->
  1 <= k -> 1 <= k - n -> - e <= k - n ->
  let '(num, den) :=
    if 0 <=? e then (Zpos m * 2 ^ e, 1) else (Zpos m, 2 ^ (- e)) in
  candidate (abs x) num den n k <> None.
Proof.
  intros Hx Hl Hu Hk Hj He.
  pose proof (numden_frac m e) as F.
  set (nd := if 0 <=? e then (Zpos m * 2 ^ e, 1) else (Zpos m, 2 ^ (- e))) in *.
  assert (Hnd : exists L,
             0 < L /\ fst nd * 10 ^ (k - n) / snd nd = L
             /\ (0 <= e -> L = Zpos m * 2 ^ e * 10 ^ (k - n))
             /\ (e < 0 -> L * 2 ^ (- e) = Zpos m * 10 ^ (k - n))).
  { assert (P10 : 0 < 10 ^ (k - n)) by (apply Z.pow_pos_nonneg; lia).
    subst nd. destruct (Z.leb_spec 0 e) as [E|E]; cbn [fst snd].
    - exists (Zpos m * 2 ^ e * 10 ^ (k - n)). rewrite Z.div_1_r.
      assert (0 < 2 ^ e) by (apply Z.pow_pos_nonneg; lia).
      repeat split; lia || nia.
    - exists (Zpos m * (2 ^ (k - n - - e) * 5 ^ (k - n))).
      assert (0 < 2 ^ (k - n - - e)) by (apply Z.pow_pos_nonneg; lia).
      assert (0 < 5 ^ (k - n)) by (apply Z.pow_pos_nonneg; lia).
      assert (0 < 2 ^ (- e)) by (apply Z.pow_pos_nonneg; lia).
      rewrite (pow10_split (k - n) (- e)) by lia.
      repeat split; try lia; try nia.
      rewrite !Z.mul_assoc. apply Z.div_mul. lia. }
  destruct nd as [num den]. cbn [fst snd] in Hnd.
  destruct Hnd as (L & HL & Hdiv & Hpos & Hneg).
  pose proof (floor_bounds num den _ n k F Hl Hu Hk) as B.
  unfold candidate. unfold scale10 in *.
  destruct (Z.leb_spec 0 (k - n)) as [_|?]; [|lia].
  rewrite Hdiv in *.
  assert (E1 : (L =? 10 ^ k) = false) by (apply Z.eqb_neq; lia).
  rewrite E1. cbv beta iota zeta.
  assert (C1 : (0 <? L) = true) by (apply Z.ltb_lt; lia).
  assert (C2 : (10 ^ (k - 1) <=? L) = true) by (apply Z.leb_le; lia).
  assert (C3 : PrimFloat.eqb (ofDecimal false L (n - k)) (abs x) = true).
  { replace (n - k) with (- (k - n)) by lia.
    apply (ofDecimal_exact x sg m e L (k - n) Hx); assumption || lia. }
  rewrite C1, C2, C3. cbn [andb].
  match goal with |- context [if ?c then Some _ else Some _] => destruct c end;
    discriminate.
Qed.

Lemma shortest_finds (x' : float) (num den n : Z) (fuel : nat) (k k0 : Z) :
  k <= k0 <= k + Z.of_nat fuel ->
  candidate x' num den n k0 <> None ->
  exists s n' k1,
    shortest fuel x' num den n k = (s, n', k1)
    /\ k <= k1 /\ candidate x' num den n k1 = Some (s, n').
Proof.
  revert k. induction fuel as [|fuel IH]; intros k Hk Hc.
  - assert (k0 = k) by lia. subst k0. cbn [shortest].
    destruct (candidate x' num den n k) as [[s n']|] eqn:E; [|congruence].
    exists s, n', k. repeat split; [lia|exact E].
  - cbn [shortest].
    destruct (candidate x' num den n k) as [[s n']|] eqn:E.
    + exists s, n', k. repeat split; [lia|exact E].
    + assert (k0 <> k) by (intros ->; congruence).
      destruct (IH (k + 1) ltac:(lia) Hc) as (s & n' & k1 & R1 & R2 & R3).
      exists s, n', k1. repeat split; [exact R1|lia|exact R3].
Qed.

(** The search of [toString] for the digits of a finite number ends with
    digits that read back as the number. *)
Lemma digits_found (x : float) (sg : bool) (m : positive) (e num den : Z) :
  Prim2SF x = S754_finite sg m e ->
  (if 0 <=? e then (Zpos m * 2 ^ e, 1) else (Zpos m, 2 ^ (- e))) = (num, den) ->
  exists s n k,
    shortest maxDigits (abs x) num den
      (decimalExponent 8 num den
         ((Zpos (digits2_pos m) + e - 1) * 30103 / 100000 - 1)) 1
    = (s, n, k)
    /\ 1 <= k /\ 10 ^ (k - 1) <= s < 10 ^ k
    /\ PrimFloat.eqb (ofDecimal false s (n - k)) (abs x) = true.
Proof.
  intros Hx Hnd.
  pose proof (FloatAxioms.Prim2SF_valid x) as Hv. rewrite Hx in Hv. cbn [valid_binary] in Hv.
  destruct (binary_exponent_range m e Hv) as [HE He].
  pose proof (numden_frac m e) as F.
  pose proof (candidate_exact x sg m e) as Cx.
  rewrite Hnd in F, Cx.
  set (E := Zpos (digits2_pos m) + e) in *.
  destruct (exponent_estimate E HE) as [T1 T2].
  destruct (binaryValue_bounds m e) as [B1 B2]. fold E in B1, B2.
  set (q := (E - 1) * 30103 / 100000) in *.
  assert (Hq : 100000 * q <= (E - 1) * 30103 < 100000 * q + 100000).
  { subst q. split.
    - apply Z.mul_div_le. lia.
    - pose proof (Z.mul_succ_div_gt ((E - 1) * 30103) 100000 ltac:(lia)). lia. }
  assert (Hl0 : (10 ^ (q - 1 - 1) <= binaryValue m e)%Q).
  { replace (q - 1 - 1) with (q - 2) by lia. exact (Qle_trans _ _ _ T1 B1). }
  assert (Hu0 : (binaryValue m e < 10 ^ (q - 1 + Z.of_nat 8))%Q).
  { replace (q - 1 + Z.of_nat 8) with (q + 7) by lia. exact (Qlt_le_trans _ _ _ B2 T2). }
  destruct (decimalExponent_spec num den _ 8 (q - 1) F Hl0 Hu0) as (Hn & Hl & Hu).
  set (n0 := decimalExponent 8 num den (q - 1)) in *.
  set (k0 := n0 + Z.max 1 (- e)).
  assert (Hm : Z.of_nat maxDigits = 1200) by (vm_compute; reflexivity).
  assert (Hk0 : 1 <= k0 <= 1 + Z.of_nat maxDigits) by lia.
  specialize (Cx n0 k0 Hx Hl Hu ltac:(lia) ltac:(lia) ltac:(lia)).
  destruct (shortest_finds (abs x) num den n0 maxDigits 1 k0 Hk0 Cx)
    as (s & n & k & R1 & R2 & R3).
  exists s, n, k. split; [exact R1|]. split; [exact R2|].
  exact (candidate_Some (abs x) num den _ n0 k s n F Hl Hu R2 R3).
Qed.

End DecimalDigits.

Section DecimalText.

Local Open Scope string_scope.
Local Open Scope Z_scope.

Lemma append_cons (c : ascii) (a b : string) :
  String.append (String c a) b = String c (String.append a b).
Proof. reflexivity. Qed.

Lemma append_nil (b : string) : String.append "" b = b.
Proof. reflexivity. Qed.

Lemma of_uint_acc_value (d : Decimal.uint) (acc : positive) :
  Zpos (Pos.of_uint_acc d acc)
  = Zpos acc * 10 ^ Z.of_nat (Decimal.nb_digits d) + Z.of_N (Pos.of_uint d).
Proof.
  revert acc.
  induction d as [|d IH|d IH|d IH|d IH|d IH|d IH|d IH|d IH|d IH|d IH]; intros acc;
    cbn [Pos.of_uint_acc Pos.of_uint Decimal.nb_digits];
    [cbn; lia | rewrite IH | | | | | | | | | ];
    rewrite ?Nat2Z.inj_succ, ?Z.pow_succ_r by lia;
    try lia;
    rewrite IH; cbn [Z.of_N]; rewrite (IH (_ : positive)); lia.
Qed.

Lemma of_uint_bounds (d : Decimal.uint) :
  0 <= Z.of_N (Pos.of_uint d) < 10 ^ Z.of_nat (Decimal.nb_digits d).
Proof.
  induction d as [|d IH|d IH|d IH|d IH|d IH|d IH|d IH|d IH|d IH|d IH];
    cbn [Pos.of_uint Decimal.nb_digits];
    rewrite ?Nat2Z.inj_succ, ?Z.pow_succ_r by lia;
    [cbn; lia | lia | | | | | | | | | ];
    cbn [Z.of_N]; rewrite of_uint_acc_value; lia.
Qed.

Lemma of_uint_lower (d : Decimal.uint) :
  d <> Decimal.Nil -> (forall d', d <> Decimal.D0 d') ->
  10 ^ (Z.of_nat (Decimal.nb_digits d) - 1) <= Z.of_N (Pos.of_uint d).
Proof.
  intros Hn H0.
  destruct d as [|d|d|d|d|d|d|d|d|d|d]; [congruence | exfalso; exact (H0 d eq_refl) | ..];
    cbn [Pos.of_uint Decimal.nb_digits Z.of_N];
    rewrite of_uint_acc_value, Nat2Z.inj_succ;
    replace (Z.succ (Z.of_nat (Decimal.nb_digits d)) - 1)
      with (Z.of_nat (Decimal.nb_digits d)) by lia;
    pose proof (of_uint_bounds d);
    assert (0 < 10 ^ Z.of_nat (Decimal.nb_digits d)) by (apply Z.pow_pos_nonneg; lia);
    nia.
Qed.

Lemma to_uint_head (p : positive) (d' : Decimal.uint) :
  Pos.to_uint p <> Decimal.D0 d'.
Proof.
  pose proof (DecimalN.Unsigned.to_of (Pos.to_uint p)) as H.
  change (N.of_uint (Pos.to_uint p)) with (Pos.of_uint (Pos.to_uint p)) in H.
  rewrite DecimalPos.Unsigned.of_to in H. cbn [N.to_uint] in H.
  intros E.
  assert (Hz : Decimal.nzhead (Pos.to_uint p) <> Decimal.Nil).
  { intros Hz. apply DecimalFacts.unorm_0 in Hz. rewrite <- H in Hz.
    exact (DecimalPos.Unsigned.to_uint_nonzero p Hz). }
  rewrite (DecimalFacts.unorm_nzhead _ Hz) in H.
  apply (DecimalFacts.nzhead_nonzero (Pos.to_uint p) d'). congruence.
Qed.

Lemma digitsValue_app (u v : string) (acc : Z) :
  digitsValue (String.append u v) acc = digitsValue v (digitsValue u acc).
Proof.
  revert acc. induction u as [|c u IH]; intros acc; [reflexivity|].
  rewrite append_cons. cbn [digitsValue]. apply IH.
Qed.

Lemma readDigits_digits (u rest : string) (acc count : Z) :
  allChars isDecimalDigit u = true ->
  readDigits (String.append u rest) acc count
  = readDigits rest (digitsValue u acc) (count + Z.of_nat (String.length u)).
Proof.
  revert acc count. induction u as [|c u IH]; intros acc count H.
  - rewrite append_nil. cbn [digitsValue String.length Z.of_nat]. f_equal. lia.
  - cbn [allChars] in H. apply andb_prop in H as [Hc Hu].
    rewrite append_cons. cbn [readDigits digitsValue String.length].
    rewrite Hc, (IH _ _ Hu). f_equal. lia.
Qed.

Lemma uint_text (d : Decimal.uint) :
  allChars isDecimalDigit (NilEmpty.string_of_uint d) = true
  /\ String.length (NilEmpty.string_of_uint d) = Decimal.nb_digits d
  /\ forall acc, digitsValue (NilEmpty.string_of_uint d) acc
                 = acc * 10 ^ Z.of_nat (Decimal.nb_digits d)
                   + Z.of_N (Pos.of_uint d).
Proof.
  induction d as [|d IH|d IH|d IH|d IH|d IH|d IH|d IH|d IH|d IH|d IH];
    cbn [NilEmpty.string_of_uint Decimal.nb_digits Pos.of_uint allChars
         String.length digitsValue];
    [repeat split; intros acc; cbn; lia | ..];
    destruct IH as (I1 & I2 & I3);
    (split; [rewrite I1; reflexivity|]; split; [rewrite I2; reflexivity|];
     intros acc; rewrite I3;
     match goal with
     | |- context [digitValue ?c] =>
         let v := eval vm_compute in (digitValue c) in
         change (digitValue c) with v
     end;
     rewrite ?Nat2Z.inj_succ, ?Z.pow_succ_r by lia;
     cbn [Z.of_N]; rewrite ?of_uint_acc_value; lia).
Qed.

(** The decimal digits of a positive integer of [k] digits. *)
Lemma digitsOfZ_text (s k : Z) :
  1 <= k -> 10 ^ (k - 1) <= s < 10 ^ k ->
  allChars isDecimalDigit (digitsOfZ s) = true
  /\ Z.of_nat (String.length (digitsOfZ s)) = k
  /\ (forall acc, digitsValue (digitsOfZ s) acc = acc * 10 ^ k + s).
Proof.
  intros Hk Hs.
  assert (P : 0 < 10 ^ (k - 1)) by (apply Z.pow_pos_nonneg; lia).
  destruct s as [|p|p]; try lia.
  unfold digitsOfZ. cbn [Z.to_N N.to_uint].
  pose proof (DecimalPos.Unsigned.to_uint_nonnil p) as Hn.
  pose proof (to_uint_head p) as Hh.
  pose proof (DecimalPos.Unsigned.of_to p) as Hv.
  destruct (uint_text (Pos.to_uint p)) as (T1 & T2 & T3).
  pose proof (of_uint_bounds (Pos.to_uint p)) as B1.
  pose proof (of_uint_lower (Pos.to_uint p) Hn Hh) as B2.
  rewrite Hv in *. cbn [Z.of_N] in *.
  assert (Hlen : Z.of_nat (Decimal.nb_digits (Pos.to_uint p)) = k).
  { set (l := Z.of_nat (Decimal.nb_digits (Pos.to_uint p))) in *.
    destruct (Z.lt_trichotomy l k) as [H|[H|H]]; [|exact H|].
    - pose proof (Z.pow_le_mono_r 10 l (k - 1) ltac:(lia) ltac:(lia)). lia.
    - pose proof (Z.pow_le_mono_r 10 k (l - 1) ltac:(lia) ltac:(lia)). lia. }
  assert (E : NilZero.string_of_uint (Pos.to_uint p)
              = NilEmpty.string_of_uint (Pos.to_uint p)).
  { unfold NilZero.string_of_uint. destruct (Pos.to_uint p); congruence. }
  rewrite E, T2, Hlen. split; [exact T1|]. split; [reflexivity|].
  intros acc. rewrite T3, Hlen. reflexivity.
Qed.

Lemma zeros_text (t : nat) :
  allChars isDecimalDigit (zeros t) = true
  /\ String.length (zeros t) = t
  /\ forall acc, digitsValue (zeros t) acc = acc * 10 ^ Z.of_nat t.
Proof.
  induction t as [|t (I1 & I2 & I3)]; cbn [zeros allChars String.length digitsValue].
  - repeat split. intros acc. cbn. lia.
  - split; [rewrite I1; reflexivity|]. split; [rewrite I2; reflexivity|].
    intros acc. rewrite I3, Nat2Z.inj_succ, Z.pow_succ_r by lia.
    change (digitValue "0") with 0. lia.
Qed.

Lemma allChars_app (test : ascii -> bool) (u v : string) :
  allChars test (String.append u v) = allChars test u && allChars test v.
Proof.
  induction u as [|c u IH]; [reflexivity|].
  rewrite append_cons. cbn [allChars]. rewrite IH, andb_assoc. reflexivity.
Qed.

Lemma allChars_substring (test : ascii -> bool) (s : string) (a b : nat) :
  allChars test s = true -> allChars test (substring a b s) = true.
Proof.
  revert a b. induction s as [|c s IH]; intros a b H.
  - destruct a, b; reflexivity.
  - cbn [allChars] in H. apply andb_prop in H as [Hc Hs].
    destruct a as [|a]; cbn [substring].
    + destruct b as [|b]; [reflexivity|]. cbn [allChars]. rewrite Hc. apply (IH 0%nat b Hs).
    + apply IH. exact Hs.
Qed.

Lemma substring_split (s : string) (n : nat) :
  (n <= String.length s)%nat ->
  String.append (substring 0 n s) (substring n (String.length s - n) s) = s.
Proof.
  revert n. induction s as [|c s IH]; intros n H.
  - destruct n; [reflexivity|cbn in H; lia].
  - destruct n as [|n].
    + cbn [substring]. rewrite append_nil, Nat.sub_0_r. cbn [String.length].
      f_equal. clear. induction s as [|d s IH]; [reflexivity|].
      cbn [String.length substring]. f_equal. exact IH.
    + cbn [String.length] in *. cbn [substring]. rewrite append_cons.
      replace (S (String.length s) - S n)%nat with (String.length s - n)%nat by lia.
      f_equal. apply IH. lia.
Qed.

Lemma length_substring (s : string) (a b : nat) :
  (a + b <= String.length s)%nat -> String.length (substring a b s) = b.
Proof.
  revert a b. induction s as [|c s IH]; intros a b H; cbn [String.length] in H.
  - destruct a, b; try reflexivity; lia.
  - destruct a as [|a]; cbn [substring].
    + destruct b as [|b]; [reflexivity|]. cbn [String.length]. f_equal. apply IH. lia.
    + apply IH. lia.
Qed.

Lemma digit_code (c : ascii) : isDecimalDigit c = true -> 48 <= code c <= 57.
Proof. unfold isDecimalDigit. lia. Qed.

(** What [parseFloat] does with a text that starts, after an optional
    minus sign, with a digit. *)
Lemma parseFloat_signed (neg : bool) (c0 : ascii) (r : string) :
  isDecimalDigit c0 = true ->
  parseFloat (if neg then String "-" (String c0 r) else String c0 r)
  = let '(ip, ni, afterInt) := readDigits (String c0 r) 0 0 in
    let '(m, nf, afterFrac) :=
      match afterInt with
      | String c r =>
          if code c =? 46 then
            let '(m, nf, rest) := readDigits r ip 0 in
            if (ni =? 0) && (nf =? 0) then (ip, 0, afterInt) else (m, nf, rest)
          else (ip, 0, afterInt)
      | EmptyString => (ip, 0, afterInt)
      end in
    if (ni =? 0) && (nf =? 0) then NaN
    else ofDecimal neg m (readExponent afterFrac - nf).
Proof.
  intros Hd. pose proof (digit_code c0 Hd) as Hc.
  assert (HI : startsWith "Infinity" (String c0 r) = false).
  { unfold startsWith. cbn [String.prefix].
    destruct (ascii_dec "I" c0) as [<-|_]; [|reflexivity].
    change (code "I") with 73 in Hc. lia. }
  unfold parseFloat. destruct neg.
  - cbn [trimStart]. change (isStrWhiteSpaceChar "-") with false.
    cbv beta iota zeta. change (code "-" =? 45) with true.
    cbv beta iota zeta. rewrite HI. reflexivity.
  - cbn [trimStart].
    assert (W : isStrWhiteSpaceChar c0 = false).
    { unfold isStrWhiteSpaceChar.
      repeat match goal with
      | |- context [?a =? ?b] => destruct (Z.eqb_spec a b); [lia|]
      end. reflexivity. }
    rewrite W. cbv beta iota zeta.
    destruct (Z.eqb_spec (code c0) 45); [lia|].
    destruct (Z.eqb_spec (code c0) 43); [lia|].
    cbv beta iota zeta. rewrite HI. reflexivity.
Qed.

Lemma append_empty_r (s : string) : String.append s "" = s.
Proof. induction s as [|c s IH]; [reflexivity|]. rewrite append_cons, IH. reflexivity. Qed.

(** [parseFloat] on digits, after an optional minus sign. *)
Lemma parseFloat_integer (neg : bool) (c0 : ascii) (r : string) :
  allChars isDecimalDigit (String c0 r) = true ->
  parseFloat (String.append (if neg then "-" else "") (String c0 r))
  = ofDecimal neg (digitsValue (String c0 r) 0) 0.
Proof.
  intros H. pose proof H as H'. cbn [allChars] in H'. apply andb_prop in H' as [Hc _].
  replace (String.append (if neg then "-" else "") (String c0 r))
    with (if neg then String "-" (String c0 r) else String c0 r)
    by (destruct neg; reflexivity).
  rewrite (parseFloat_signed neg c0 r Hc).
  rewrite <- (append_empty_r (String c0 r)) at 1.
  rewrite (readDigits_digits _ "" 0 0 H). cbn [readDigits].
  cbv beta iota zeta.
  destruct (Z.eqb_spec (0 + Z.of_nat (String.length (String c0 r))) 0) as [E|_];
    [cbn [String.length] in E; lia|].
  cbn [andb readExponent]. reflexivity.
Qed.

(** [parseFloat] on digits, a point and digits, after an optional minus
    sign. *)
Lemma parseFloat_fraction (neg : bool) (c0 : ascii) (r u2 : string) :
  allChars isDecimalDigit (String c0 r) = true ->
  allChars isDecimalDigit u2 = true ->
  parseFloat (String.append (if neg then "-" else "")
                (String.append (String c0 r) (String "." u2)))
  = ofDecimal neg (digitsValue u2 (digitsValue (String c0 r) 0))
                  (- Z.of_nat (String.length u2)).
Proof.
  intros H1 H2. pose proof H1 as H'. cbn [allChars] in H'.
  apply andb_prop in H' as [Hc _].
  replace (String.append (if neg then "-" else "")
             (String.append (String c0 r) (String "." u2)))
    with (if neg then String "-" (String c0 (String.append r (String "." u2)))
          else String c0 (String.append r (String "." u2)))
    by (destruct neg; reflexivity).
  rewrite (parseFloat_signed neg c0 _ Hc).
  change (String c0 (String.append r (String "." u2)))
    with (String.append (String c0 r) (String "." u2)).
  rewrite (readDigits_digits _ _ 0 0 H1). cbn [readDigits].
  change (isDecimalDigit ".") with false. cbv beta iota zeta.
  change (code "." =? 46) with true. cbv beta iota zeta.
  rewrite <- (append_empty_r u2) at 1.
  rewrite (readDigits_digits _ "" _ 0 H2). cbn [readDigits].
  cbv beta iota zeta.
  destruct (Z.eqb_spec (0 + Z.of_nat (String.length (String c0 r))) 0) as [E|_];
    [cbn [String.length] in E; lia|].
  cbn [andb readExponent]. f_equal; lia.
Qed.

Lemma ofDecimal_scale (neg : bool) (s t : Z) :
  0 < s -> 0 <= t -> ofDecimal neg (s * 10 ^ t) 0 = ofDecimal neg s t.
Proof.
  intros Hs Ht. unfold ofDecimal.
  assert (P : 0 < 10 ^ t) by (apply Z.pow_pos_nonneg; lia).
  destruct s as [|p|p]; try lia.
  destruct (Zpos p * 10 ^ t) as [|q|q] eqn:E; try lia.
  destruct (Z.leb_spec 0 t) as [_|?]; [|lia].
  cbn [Z.leb Z.compare]. do 2 f_equal.
  apply Pos2Z.inj. rewrite !Pos2Z.inj_mul, (Z2Pos.id (10 ^ t)) by exact P.
  change (Zpos (Z.to_pos (10 ^ 0))) with 1. lia.
Qed.

Lemma reads_back (x : float) (sg : bool) (m : positive) (e s ex : Z) :
  Prim2SF x = S754_finite sg m e -> 0 <= s ->
  PrimFloat.eqb (ofDecimal false s ex) (abs x) = true ->
  PrimFloat.eqb (ofDecimal sg s ex) x = true.
Proof.
  intros Hx Hs H. pose proof (eqb_sign _ x sg m e Hx H) as R.
  destruct sg; [rewrite ofDecimal_sign by exact Hs|]; exact R.
Qed.

Lemma length_append (u v : string) :
  String.length (String.append u v) = (String.length u + String.length v)%nat.
Proof.
  induction u as [|c u IH]; [reflexivity|].
  rewrite append_cons. cbn [String.length]. rewrite IH. reflexivity.
Qed.

Lemma plainNumeral_chars (s : string) :
  plainNumeral s = true ->
  allChars (fun c => isDigitOrPoint c || Ascii.eqb c "-" || Ascii.eqb c "+") s = true.
Proof.
  assert (M : forall r, allChars isDigitOrPoint r = true ->
              allChars (fun c => isDigitOrPoint c || Ascii.eqb c "-" || Ascii.eqb c "+") r
              = true).
  { induction r as [|c r IH]; [reflexivity|]. cbn [allChars]. intros H.
    apply andb_prop in H as [-> H]. rewrite (IH H). reflexivity. }
  unfold plainNumeral. destruct s as [|c r]; [discriminate|].
  destruct (Ascii.eqb c "-" || Ascii.eqb c "+") eqn:Hc.
  - destruct r as [|d r]; [discriminate|]. intros H. apply andb_prop in H as [Hd Hr].
    cbn [allChars]. unfold isDigitOrPoint at 2. rewrite Hd, (M r Hr).
    apply orb_prop in Hc as [-> | ->]; cbn; rewrite ?orb_true_r; reflexivity.
  - intros H. apply andb_prop in H as [Hd Hr].
    cbn [allChars]. unfold isDigitOrPoint at 1. rewrite Hd, (M r Hr). reflexivity.
Qed.

(** The text of a finite number, when it is a plain numeral, reads back as
    the number. *)
Lemma toString_finite (x : float) (sg : bool) (m : positive) (e : Z) :
  Prim2SF x = S754_finite sg m e ->
  plainNumeral (toString x) = true ->
  PrimFloat.eqb (parseFloat (toString x)) x = true.
Proof.
  intros Hx. unfold toString. rewrite Hx.
  destruct (if 0 <=? e then (Zpos m * 2 ^ e, 1) else (Zpos m, 2 ^ (- e)))
    as [num den] eqn:Hnd.
  destruct (DecimalDigits.digits_found x sg m e num den Hx Hnd)
    as (s & n & k & Hs & Hk & Hb & Hr).
  cbv zeta. rewrite Hs. cbv beta iota zeta.
  match goal with
  | |- plainNumeral (if sg then String.append "-" ?b else ?b) = true -> _ =>
      set (body := b)
  end.
  replace (if sg then String.append "-" body else body)
    with (String.append (if sg then "-" else "") body)
    by (destruct sg; reflexivity).
  assert (P10 : 0 < 10 ^ (k - 1)) by (apply Z.pow_pos_nonneg; lia).
  destruct (digitsOfZ_text s k Hk Hb) as (D1 & D2 & D3).
  assert (R : forall ex, ex = n - k ->
            PrimFloat.eqb (ofDecimal sg s ex) x = true).
  { intros ex ->. apply (reads_back x sg m e s (n - k) Hx); [lia|exact Hr]. }
  subst body.
  destruct (digitsOfZ s) as [|c0 r] eqn:Eds; [cbn in D2; lia|].
  destruct ((k <=? n) && (n <=? 21)) eqn:B1;
    [|destruct ((0 <? n) && (n <=? 21)) eqn:B2;
      [|destruct ((-6 <? n) && (n <=? 0)) eqn:B3]].
  - (* digits, then zeros *)
    intros _.
    destruct (zeros_text (Z.to_nat (n - k))) as (Z1 & Z2 & Z3).
    change (String.append (String c0 r) (zeros (Z.to_nat (n - k))))
      with (String c0 (String.append r (zeros (Z.to_nat (n - k))))).
    rewrite parseFloat_integer
      by (change (String c0 (String.append r (zeros (Z.to_nat (n - k)))))
            with (String.append (String c0 r) (zeros (Z.to_nat (n - k))));
          rewrite allChars_app, D1, Z1; reflexivity).
    change (String c0 (String.append r (zeros (Z.to_nat (n - k)))))
      with (String.append (String c0 r) (zeros (Z.to_nat (n - k)))).
    rewrite digitsValue_app, D3, Z3.
    replace ((0 * 10 ^ k + s) * 10 ^ Z.of_nat (Z.to_nat (n - k)))
      with (s * 10 ^ (n - k)) by (rewrite Z2Nat.id by lia; lia).
    rewrite ofDecimal_scale by lia. apply R. reflexivity.
  - (* digits, a point, digits *)
    intros _.
    assert (Hn : 0 < n < k) by lia.
    set (ds := String c0 r) in *.
    set (u1 := substring 0 (Z.to_nat n) ds).
    set (u2 := substring (Z.to_nat n) (Z.to_nat (k - n)) ds).
    assert (Hsplit : String.append u1 u2 = ds).
    { subst u1 u2. replace (Z.to_nat (k - n))
        with (String.length ds - Z.to_nat n)%nat by lia.
      apply substring_split. lia. }
    assert (L1 : String.length u1 = Z.to_nat n)
      by (apply length_substring; lia).
    assert (L2 : String.length u2 = Z.to_nat (k - n))
      by (apply length_substring; lia).
    assert (A1 : allChars isDecimalDigit u1 = true)
      by (apply allChars_substring; exact D1).
    assert (A2 : allChars isDecimalDigit u2 = true)
      by (apply allChars_substring; exact D1).
    assert (Hv : digitsValue u2 (digitsValue u1 0) = s).
    { rewrite <- digitsValue_app, Hsplit, D3. lia. }
    destruct u1 as [|c1 r1] eqn:E1; [cbn in L1; lia|].
    change (String.append "." u2) with (String "." u2).
    rewrite (parseFloat_fraction sg c1 r1 u2 A1 A2), Hv.
    apply R. lia.
  - (* a zero, a point, zeros, digits *)
    intros _.
    destruct (zeros_text (Z.to_nat (- n))) as (Z1 & Z2 & Z3).
    change (String.append "0."
              (String.append (zeros (Z.to_nat (- n))) (String c0 r)))
      with (String.append (String "0" "")
              (String "." (String.append (zeros (Z.to_nat (- n))) (String c0 r)))).
    rewrite (parseFloat_fraction sg "0" "")
      by (reflexivity || (rewrite allChars_app, D1, Z1; reflexivity)).
    rewrite digitsValue_app, Z3, D3, length_append, Z2.
    change (digitsValue "0" 0) with 0.
    replace (0 * 10 ^ Z.of_nat (Z.to_nat (- n)) * 10 ^ k + s) with s by lia.
    apply R. lia.
  - (* the exponent notation *)
    intros Hp. exfalso. apply plainNumeral_chars in Hp.
    destruct (k =? 1); rewrite !allChars_app in Hp;
      repeat (apply andb_prop in Hp as [?H Hp]);
      match goal with
      | H : allChars _ "e" = true |- _ => vm_compute in H; discriminate H
      end.
Qed.

(** The host's round trip: a text of [toString] that is a plain numeral
    reads back as a number that [===] holds equal to the one printed, and
    as that very number unless it is the negative zero, whose text is
    [0]. *)
Lemma parseFloat_toString (x : float) :
  plainNumeral (toString x) = true ->
  PrimFloat.eqb (parseFloat (toString x)) x = true
  /\ (x <> neg_zero -> parseFloat (toString x) = x).
Proof.
  intros Hp. destruct (Prim2SF x) as [s|s| |s m e] eqn:Hx.
  - unfold toString. rewrite Hx.
    change (parseFloat "0") with zero. split.
    + rewrite FloatAxioms.eqb_spec, Hx. destruct s; reflexivity.
    + intros Hn. apply FloatAxioms.Prim2SF_inj. rewrite Hx.
      destruct s; [|reflexivity].
      exfalso. apply Hn. apply FloatAxioms.Prim2SF_inj. rewrite Hx. reflexivity.
  - unfold toString in Hp. rewrite Hx in Hp. destruct s; discriminate Hp.
  - unfold toString in Hp. rewrite Hx in Hp. discriminate Hp.
  - pose proof (toString_finite x s m e Hx Hp) as H. split; [exact H|].
    intros _. exact (eqb_finite_eq _ x s m e Hx H).
Qed.

End DecimalText.

(* ===================================================================== *)
(** ** The claims *)
(* ===================================================================== *)

Section Claims.

Local Open Scope nat_scope.

Variable _exFunctions : string -> option ExprFunc.

(** A plain decimal numeral after the [=] is read as one literal, and the
    evaluation returns what [parseFloat] makes of it. *)
Lemma calcExpr_plain_numeral (w : World) (s : string) :
  plainNumeral s = true ->
  calcExpr _exFunctions (String "=" s) w = Ok (RNumber (parseFloat s), w).
Proof.
  intros Hs. set (expr := String "=" s).
  assert (Hsub : jsSubstring expr 1 (String.length expr) = s)
    by (rewrite jsSubstring_to_end; reflexivity).
  destruct s as [|c r]; [discriminate|].
  simpl in Hs.
  destruct (Ascii.eqb c "-" || Ascii.eqb c "+") eqn:Hsign.
  - destruct r as [|d r']; [discriminate|].
    apply andb_prop in Hs as [Hd Hall].
    destruct (parser_sign w expr 1 c eq_refl Hsign Hd) as [Hp _].
    change (strDrop 3 expr) with r' in Hp.
    rewrite (scanWhile_all _ _ _ Hall) in Hp.
    change (3 + String.length r') with (String.length expr) in Hp.
    rewrite Hsub in Hp.
    exact (calcExpr_single_value _ expr w _ _ Hp (Nat.le_refl _)).
  - apply andb_prop in Hs as [Hd Hall].
    pose proof (parser_number w expr 1 true c eq_refl Hd) as Hp.
    change (strDrop 2 expr) with r in Hp.
    cbv zeta in Hp. rewrite (scanWhile_all _ _ _ Hall) in Hp.
    change (2 + String.length r) with (String.length expr) in Hp.
    rewrite Hsub in Hp.
    exact (calcExpr_single_value _ expr w _ _ Hp (Nat.le_refl _)).
Qed.

(** C1 (the code departs from the claim): with three operators of rising
    precedence the evaluator reduces the middle one before it has seen the
    third.  [15 < 2 + 3 * 4] is computed as [15 < (2 + 3) * 4], which is 1,
    while the grouping that precedence gives, [15 < (2 + (3 * 4))], is 0; and
    after a group the pending operators are reduced from left to right, so
    [1 + 2 * (3)] is 9 where [1 + (2 * 3)] is 7. *)
Theorem calcExpr_reduces_before_tighter_operator (w : World) :
  calcExpr _exFunctions "=15 < 2 + 3 * 4" w = Ok (RNumber (ofZ 1), w)
  /\ calcExpr _exFunctions "=15 < (2 + (3 * 4))" w = Ok (RNumber (ofZ 0), w)
  /\ bool2num (ofZ 15 <? ofZ 2 + ofZ 3 * ofZ 4)%float = Some (ofZ 0)
  /\ calcExpr _exFunctions "=1 + 2 * (3)" w = Ok (RNumber (ofZ 9), w)
  /\ calcExpr _exFunctions "=1 + (2 * 3)" w = Ok (RNumber (ofZ 7), w)
  /\ (ofZ 1 + ofZ 2 * ofZ 3)%float = ofZ 7.
Proof.
  repeat split; vm_compute; reflexivity.
Qed.

(** C2 (the code departs from the claim): [_calcUnary] does map zero to 1
    and any other number to 0 under [not], but the state machine never calls
    it for [not]: the operator stays on the stack and the evaluation of
    [=not(0)], as of [=not 0], throws "Stack not empty". *)
Theorem logical_not_is_left_on_the_stack (w : World) :
  calcExpr _exFunctions "=not(0)" w = Err (ExpHasErrors "=not(0)" StackNotEmpty)
  /\ calcExpr _exFunctions "=not 0" w = Err (ExpHasErrors "=not 0" StackNotEmpty)
  /\ forall (expr : string) (p : ExFuncParam) (cl : TokenClass.t) (b : bool)
            (v : number),
       _calcUnary expr (mkToken p TokenType.LogicalNot cl b []) (numberToken v)
       = Ok (numberToken (if toBoolean v then zero else one)).
Proof.
  split; [vm_compute; reflexivity|].
  split; [vm_compute; reflexivity|].
  intros expr p cl b v. reflexivity.
Qed.

(** C3 (as amended): a quote that nothing closes starts a string that runs
    to the end of the text: wherever it stands, the lexer returns the rest
    of the text, with its escapes replaced, as a string token and moves past
    the end.  When it is the first token, the evaluation returns that text;
    it does not throw. *)
Theorem unterminated_string_runs_to_the_end (w : World) (expr : string)
    (p : nat) (checkSign : bool) :
  charAt expr p = Some "'"%char ->
  hasClosingQuote "'" (strDrop (S p) expr) = false ->
  parser w expr p checkSign
  = Ok (stringToken (unescape (strDrop (S p) expr)), S (String.length expr))
  /\ (p = 1 ->
      calcExpr _exFunctions expr w = Ok (RString (unescape (strDrop 2 expr)), w)).
Proof.
  intros Hc Hq. split.
  - exact (parser_unterminated_string w expr p checkSign Hc Hq).
  - intros ->.
    pose proof (parser_unterminated_string w expr 1 true Hc Hq) as Hp.
    exact (calcExpr_single_value _ expr w _ _ Hp (Nat.le_succ_diag_r _)).
Qed.

(** C4 (as amended): when the text of a number is a plain decimal numeral,
    evaluating ["=" + n.toString()] returns that number: the lexer reads
    the whole text as one literal, and [parseFloat] undoes [toString].  The
    negative zero has the text [0], which evaluates to the zero that [===]
    holds equal to it. *)
Theorem roundtrip_of_plain_numerals (w : World) (n : number) :
  plainNumeral (toString n) = true ->
  (n <> neg_zero ->
   calcExpr _exFunctions (String.append "=" (toString n)) w = Ok (RNumber n, w))
  /\ exists r,
       calcExpr _exFunctions (String.append "=" (toString n)) w
       = Ok (RNumber r, w)
       /\ PrimFloat.eqb r n = true.
Proof.
  intros Hs.
  pose proof (calcExpr_plain_numeral w (toString n) Hs) as H.
  destruct (parseFloat_toString n Hs) as [He Hl].
  split.
  - intros Hn. rewrite (Hl Hn) in H. exact H.
  - exists (parseFloat (toString n)). split; [exact H|exact He].
Qed.

(** C8: a sign that a digit follows is part of the literal when the lexer
    is asked to look for it, and an operator otherwise; the state machine
    asks for it unless its state is [Binary], the state it is in exactly
    after a token that can be a left operand (a value or the end of a
    group).  So [-5 * -3] is 15, while in [5 -3] the sign is the binary
    minus. *)
Theorem sign_before_digit_is_part_of_literal (w : World) (expr : string)
    (p : nat) (c : ascii) :
  charAt expr p = Some c ->
  Ascii.eqb c "-" || Ascii.eqb c "+" = true ->
  isDigit (charAt expr (S p)) = true ->
  (exists p',
      S p < p'
      /\ parser w expr p true
         = Ok (numberToken (parseFloat (jsSubstring expr p p')), p'))
  /\ (exists tk,
         parser w expr p false = Ok (tk, S p)
         /\ tkClass tk = TokenClass.Unary /\ canBinOp tk = true)
  /\ (forall fuel m,
         mainLoop _exFunctions expr (S fuel) m
         = parser (world m) expr (pos m) (negb (isBinaryState (state m)))
           ≫= fun '(token, pos) =>
                let m := mkMachine (stack m) (state m) (startPoint m)
                                   (startPoints m) pos (world m) in
                match tkClass token with
                | TokenClass.None => Ok m
                | _ => onToken _exFunctions expr m token
                       ≫= mainLoop _exFunctions expr fuel
                end)
  /\ (forall m m' token,
         tkClass token <> TokenClass.None ->
         onToken _exFunctions expr m token = Ok m' ->
         isBinaryState (state m') = canBeLeftOperand (tkClass token))
  /\ calcExpr _exFunctions "=-5 * -3" w = Ok (RNumber (ofZ 15), w)
  /\ calcExpr _exFunctions "=5 -3" w = Ok (RNumber (ofZ 2), w).
Proof.
  intros Hc Hs Hd.
  destruct (parser_sign w expr p c Hc Hs Hd) as [H1 H2].
  split.
  { eexists. split; [|exact H1].
    apply (scanWhile_ge isDigitOrPoint (strDrop (S (S p)) expr) (S (S p))). }
  split.
  { eexists. split; [exact H2|]. split; reflexivity. }
  split; [intros fuel m; reflexivity|].
  split; [apply onToken_state|].
  split; vm_compute; reflexivity.
Qed.

(** C9: whatever the text, the variables and the registry (of functions
    that return or throw), the evaluation returns or throws: the bound of
    one pass per character and one more is never met, because every token
    but the end of the text moves the lexer forward. *)
Theorem calcExpr_returns_or_throws (expr : string) (w : World) :
  (forall name func args w',
      _exFunctions name = Some func -> finishes (func args w')) ->
  ((exists v w', calcExpr _exFunctions expr w = Ok (v, w'))
   \/ (exists e, calcExpr _exFunctions expr w = Err e))
  /\ forall w' pos checkSign tk pos',
       parser w' expr pos checkSign = Ok (tk, pos') ->
       tkClass tk <> TokenClass.None -> pos < pos'.
Proof.
  intros Hf. split.
  - assert (H : finishes (calcExpr _exFunctions expr w)).
    { unfold calcExpr, _stateMachine.
      apply finishes_bind.
      + apply (finishes_mainLoop _ _ Hf). simpl. lia.
      + intros m _. finish. apply finishes_calcStackLeft. }
    destruct (calcExpr _exFunctions expr w) as [[v w']|e|].
    + left. exists v, w'. reflexivity.
    + right. exists e. reflexivity.
    + contradiction.
  - intros w' pos checkSign tk pos' Hp Hcl.
    exact (proj1 (parser_advance _ _ _ _ _ _ Hp Hcl)).
Qed.

(** C5: on arrays the operators [+ - * / %] work element by element.  With a
    first operand that is an array: a second array of the same length gives
    the combined elements (written into the first array object), a second
    array of another length throws, and a second operand that is not an
    array throws, on either side.  [=[2,3] + [4,5]] yields [6,8];
    [=[2,3] + [4,5,6]] and [=[2,3] + 1] throw. *)
Theorem arrays_combine_elementwise_or_throw (w : World) (expr : string)
    (op value1 value2 : Token) (f : number -> number -> number) (a1 : addr)
    (arr1 : JsArray) :
  arithOf (tkType op) = Some f ->
  paType value1 = Some ExFuncParamType.Array ->
  arrayValue value1 = Some a1 ->
  heapGet w a1 = Some arr1 ->
  (forall a2 arr2,
      paType value2 = Some ExFuncParamType.Array ->
      arrayValue value2 = Some a2 -> heapGet w a2 = Some arr2 ->
      _calcBinary expr w op value1 value2
      = if length arr1 =? length arr2
        then Ok (setNum value1 None, heapSet w a1 (elementWise f arr1 arr2))
        else Err (ThrowErr "Both arrays must have the same value"))
  /\ (paTypeIs (paType value2) ExFuncParamType.Array = false ->
      _calcBinary expr w op value1 value2 = Err (ThrowErr "Can only add 2 arrays")
      /\ _calcBinary expr w op value2 value1
         = Err (ThrowErr "Can only add 2 arrays"))
  /\ (let w' := heapSet (heapPush (heapPush w [Some (ofZ 2); Some (ofZ 3)])
                                  [Some (ofZ 4); Some (ofZ 5)])
                        (newAddr w) [Some (ofZ 6); Some (ofZ 8)] in
      calcExpr _exFunctions "=[2,3] + [4,5]" w = Ok (RArray (newAddr w), w')
      /\ heapGet w' (newAddr w) = Some [Some (ofZ 6); Some (ofZ 8)])
  /\ calcExpr _exFunctions "=[2,3] + [4,5,6]" w
     = Err (ThrowErr "Both arrays must have the same value")
  /\ calcExpr _exFunctions "=[2,3] + 1" w = Err (ThrowErr "Can only add 2 arrays").
Proof.
  intros Hop T1 V1 H1.
  split.
  { intros a2 arr2 T2 V2 H2.
    pose proof (fun b => execOp_arrays expr w value1 value2 f b a1 a2 arr1 arr2
                           T1 T2 V1 V2 H1 H2) as Hexec.
    unfold _calcBinary.
    destruct (tkType op); try discriminate Hop; injection Hop as <-;
      rewrite Hexec; destruct (length arr1 =? length arr2); reflexivity. }
  split.
  { intros T2.
    assert (X1 : xorb (paTypeIs (paType value1) ExFuncParamType.Array)
                      (paTypeIs (paType value2) ExFuncParamType.Array) = true)
      by (rewrite T1, T2; reflexivity).
    assert (X2 : xorb (paTypeIs (paType value2) ExFuncParamType.Array)
                      (paTypeIs (paType value1) ExFuncParamType.Array) = true)
      by (rewrite T1, T2; reflexivity).
    unfold _calcBinary.
    destruct (tkType op); try discriminate Hop;
      rewrite !(execOp_mixed _ _ _ _ _ _ X1), !(execOp_mixed _ _ _ _ _ _ X2);
      split; reflexivity. }
  split.
  { split; [run; reflexivity|].
    eapply heapGet_heapSet_eq. heap_lookup. }
  split; run; reflexivity.
Qed.


(** C7 (as amended): when the input is an expression whose result is not a
    number, [ifExprCalcNum] throws in strict mode and, otherwise, returns
    what [parseFloat] reads in the text of the result; only an undefined
    result gives the default, in both modes. *)
Theorem ifExprCalcNum_on_a_result_that_is_no_number (expr : string)
    (defNumber : option number) (w w' : World) (v : ExprResult) :
  isExpr expr = true ->
  calcExpr _exFunctions expr w = Ok (v, w') ->
  isNumberResult v = false ->
  ifExprCalcNum _exFunctions expr defNumber true w
  = (if isUndefinedResult v then Ok (defNumber, w')
     else Err (MustBeANumber expr))
  /\ ifExprCalcNum _exFunctions expr defNumber false w
     = Ok (if isUndefinedResult v then defNumber
           else Some (parseFloat (resultText w' v)), w').
Proof.
  intros He Hc Hv. unfold ifExprCalcNum. rewrite He, Hc. simpl. rewrite Hv.
  destruct (isUndefinedResult v); split; reflexivity.
Qed.

(** C10: the value of an array variable is the array object itself, and an
    element-wise operator writes its results into the object of its first
    operand.  With [myArr] an array of two elements, evaluating
    [=myArr op [1,1]] returns the variable's own array, now holding the
    combined elements, and the next evaluation of [=myArr] reads them. *)
Theorem array_variable_is_written_in_place (w : World) (a : addr)
    (arr : JsArray) (sym : string) (f : number -> number -> number) :
  In (sym, f) arithSymbols ->
  vars w !! "myArr" = Some (VArray a) ->
  heapGet w a = Some arr ->
  length arr = 2 ->
  let ones := [Some (ofZ 1); Some (ofZ 1)] in
  let w' := heapSet (heapPush w ones) a (elementWise f arr ones) in
  calcExpr _exFunctions (String.append "=myArr " (String.append sym " [1,1]")) w
  = Ok (RArray a, w')
  /\ vars w' !! "myArr" = Some (VArray a)
  /\ heapGet w' a = Some (elementWise f arr ones)
  /\ calcExpr _exFunctions "=myArr" w' = Ok (RArray a, w').
Proof.
  intros Hin Hvars Ha Hl ones w'.
  pose proof (readVar_of_vars _ _ _ Hvars) as Hv.
  destruct arr as [|x [|y [|z r]]]; try discriminate Hl.
  assert (Hget : heapGet w' a = Some (elementWise f [x; y] ones)).
  { eapply heapGet_heapSet_eq. heap_lookup. }
  split; [|split; [exact Hvars|split; [exact Hget|]]].
  - simpl in Hin.
    destruct Hin as [E|[E|[E|[E|[E|[]]]]]]; injection E as <- <-;
      match goal with
      | |- calcExpr _ ?e _ = _ =>
          let s := eval vm_compute in e in
          change e with s;
          assert (Hp : parser w s 1 true
                       = Ok (mkToken (mkParam (Some ExFuncParamType.Array) None
                                              None (Some a))
                                     TokenType.Value TokenClass.Value false [], 6))
            by (cbv -[readVar]; rewrite Hv; reflexivity)
      end;
      unfold calcExpr, _stateMachine; cbn [String.length];
      rewrite mainLoop_S; cbn [world pos state isBinaryState negb];
      rewrite Hp; run; reflexivity.
  - assert (Hp : parser w' "=myArr" 1 true
               = Ok (mkToken (mkParam (Some ExFuncParamType.Array) None None (Some a))
                             TokenType.Value TokenClass.Value false [], 6)).
    { cbv -[readVar w']. replace (readVar w' "myArr") with (readVar w "myArr")
        by reflexivity.
      rewrite Hv. reflexivity. }
    exact (calcExpr_single_value _ "=myArr" w' _ _ Hp ltac:(simpl; lia)).
Qed.

End Claims.

(* ===================================================================== *)
(** ** The claims at concrete inputs *)
(* ===================================================================== *)

(** C3, the claim as stated fails: ['abc] has no closing quote, and the
    evaluation of [='abc] returns "abc"; it throws nothing. *)
Lemma unterminated_string_does_not_throw :
  hasClosingQuote "'" "abc" = false
  /\ calcExpr noFunctions "='abc" defaultWorld = Ok (RString "abc", defaultWorld)
  /\ forall e, calcExpr noFunctions "='abc" defaultWorld <> Err e.
Proof.
  split; [reflexivity|].
  assert (H : calcExpr noFunctions "='abc" defaultWorld
              = Ok (RString "abc", defaultWorld)) by (vm_compute; reflexivity).
  split; [exact H|]. intros e. rewrite H. discriminate.
Qed.

(** C3 (as amended) at [='abc\n]: nothing closes the quote, and the
    evaluation returns [abc] and a new line. *)
Lemma unterminated_string_runs_to_the_end_witness :
  charAt "='abc\n" 1 = Some "'"%char
  /\ hasClosingQuote "'" (strDrop 2 "='abc\n") = false
  /\ calcExpr noFunctions "='abc\n" defaultWorld
     = Ok (RString (String "a" (String "b" (String "c" (String "010" "")))),
           defaultWorld).
Proof.
  split; [reflexivity|]. split; [reflexivity|].
  exact (proj2 (unterminated_string_runs_to_the_end noFunctions defaultWorld
                  "='abc\n" 1 true eq_refl eq_refl) eq_refl).
Defined.

(** C4, the claim as stated fails: 10^21 is finite and its text is
    [1e+21]; the lexer reads the literal [1] and then the name [e], so the
    evaluation of [=1e+21] throws. *)
Lemma roundtrip_fails_on_exponent_text :
  is_finite tenToThe21 = true
  /\ toString tenToThe21 = "1e+21"
  /\ calcExpr noFunctions (String.append "=" (toString tenToThe21)) defaultWorld
     = Err (ExpHasErrors "=1e+21" EmptyMsg).
Proof.
  repeat split; vm_compute; reflexivity.
Qed.

(** C4 (as amended) at -12.5, whose text is [-12.5]. *)
Lemma roundtrip_of_plain_numerals_witness :
  plainNumeral (toString minusTwelveAndHalf) = true
  /\ calcExpr noFunctions (String.append "=" (toString minusTwelveAndHalf))
                defaultWorld
     = Ok (RNumber minusTwelveAndHalf, defaultWorld).
Proof.
  split; [vm_compute; reflexivity|].
  refine (proj1 (roundtrip_of_plain_numerals noFunctions defaultWorld
                   minusTwelveAndHalf _) _).
  - vm_compute; reflexivity.
  - intros E. apply (f_equal Prim2SF) in E. vm_compute in E. discriminate E.
Defined.

(** C5 on the array objects [2,3], [4,5] and [4,5,6], and on the number 1. *)
Lemma arrays_combine_elementwise_or_throw_witness :
  _calcBinary "" threeArrays plusToken (arrayToken 0) (arrayToken 1)
  = Ok (arrayToken 0, heapSet threeArrays 0 [Some (ofZ 6); Some (ofZ 8)])
  /\ _calcBinary "" threeArrays plusToken (arrayToken 0) (arrayToken 2)
     = Err (ThrowErr "Both arrays must have the same value")
  /\ _calcBinary "" threeArrays plusToken (arrayToken 0) (numberToken (ofZ 1))
     = Err (ThrowErr "Can only add 2 arrays").
Proof.
  pose proof (arrays_combine_elementwise_or_throw noFunctions threeArrays ""
                plusToken (arrayToken 0)) as H.
  split; [|split].
  - exact (proj1 (H (arrayToken 1) PrimFloat.add 0%nat _
                    eq_refl eq_refl eq_refl eq_refl) 1%nat _
                 eq_refl eq_refl eq_refl).
  - exact (proj1 (H (arrayToken 2) PrimFloat.add 0%nat _
                    eq_refl eq_refl eq_refl eq_refl) 2%nat _
                 eq_refl eq_refl eq_refl).
  - exact (proj1 (proj1 (proj2 (H (numberToken (ofZ 1)) PrimFloat.add 0%nat _
                                  eq_refl eq_refl eq_refl eq_refl)) eq_refl)).
Defined.


(** C7, the claim as stated fails: the result of [='12'] is the string "12",
    and without the strict flag [ifExprCalcNum] returns the number 12 that
    [parseFloat] reads in it, not the default 7. *)
Lemma ifExprCalcNum_lenient_reads_the_text :
  calcExpr noFunctions "='12'" defaultWorld = Ok (RString "12", defaultWorld)
  /\ ifExprCalcNum noFunctions "='12'" (Some (ofZ 7)) false defaultWorld
     = Ok (Some (ofZ 12), defaultWorld)
  /\ ifExprCalcNum noFunctions "='12'" (Some (ofZ 7)) false defaultWorld
     <> Ok (Some (ofZ 7), defaultWorld).
Proof.
  assert (H : ifExprCalcNum noFunctions "='12'" (Some (ofZ 7)) false defaultWorld
              = Ok (Some (ofZ 12), defaultWorld)) by (vm_compute; reflexivity).
  split; [vm_compute; reflexivity|]. split; [exact H|].
  rewrite H. intros E.
  apply (f_equal (fun r => match r with
                           | Ok (Some x, _) => PrimFloat.eqb x (ofZ 7)
                           | _ => true
                           end)) in E.
  vm_compute in E. discriminate E.
Qed.

(** C7 (as amended) at [='12px'], whose result is a string. *)
Lemma ifExprCalcNum_on_a_result_that_is_no_number_witness :
  ifExprCalcNum noFunctions "='12px'" (Some (ofZ 7)) true defaultWorld
  = Err (MustBeANumber "='12px'")
  /\ ifExprCalcNum noFunctions "='12px'" (Some (ofZ 7)) false defaultWorld
     = Ok (Some (ofZ 12), defaultWorld).
Proof.
  exact (ifExprCalcNum_on_a_result_that_is_no_number noFunctions "='12px'"
           (Some (ofZ 7)) defaultWorld defaultWorld (RString "12px")
           eq_refl ltac:(vm_compute; reflexivity) eq_refl).
Defined.

(** C8 at the two signs of [=-5 * -3]. *)
Lemma sign_before_digit_is_part_of_literal_witness :
  parser defaultWorld "=-5 * -3" 1 true = Ok (numberToken (ofZ (-5)), 3%nat)
  /\ parser defaultWorld "=-5 * -3" 6 true = Ok (numberToken (ofZ (-3)), 8%nat)
  /\ calcExpr noFunctions "=-5 * -3" defaultWorld
     = Ok (RNumber (ofZ 15), defaultWorld).
Proof.
  pose proof (sign_before_digit_is_part_of_literal noFunctions defaultWorld
                "=-5 * -3" 1 "-" eq_refl eq_refl eq_refl) as H.
  split; [vm_compute; reflexivity|].
  split; [vm_compute; reflexivity|].
  exact (proj1 (proj2 (proj2 (proj2 (proj2 H))))).
Defined.

(** The function of the small registry returns or throws. *)
Lemma sampleFunctions_finish (name : string) (func : ExprFunc)
    (args : list ExFuncParam) (w : World) :
  sampleFunctions name = Some func -> finishes (func args w).
Proof.
  unfold sampleFunctions. destruct (String.eqb name "first"); [|discriminate].
  intros [= <-]. destruct args; exact I.
Qed.

(** C9 with the small registry, on a well-formed and on a malformed text. *)
Lemma calcExpr_returns_or_throws_witness :
  ((exists v w', calcExpr sampleFunctions "=first(40, 1) + 2 * e" defaultWorld
                 = Ok (v, w'))
   \/ (exists e, calcExpr sampleFunctions "=first(40, 1) + 2 * e" defaultWorld
                 = Err e))
  /\ ((exists v w', calcExpr sampleFunctions "=first() + (" defaultWorld
                    = Ok (v, w'))
      \/ (exists e, calcExpr sampleFunctions "=first() + (" defaultWorld
                    = Err e)).
Proof.
  split.
  - exact (proj1 (calcExpr_returns_or_throws sampleFunctions
                    "=first(40, 1) + 2 * e" defaultWorld sampleFunctions_finish)).
  - exact (proj1 (calcExpr_returns_or_throws sampleFunctions
                    "=first() + (" defaultWorld sampleFunctions_finish)).
Defined.

(** C10 with [myArr] bound to the array object [2,3]: the evaluation of
    [=myArr + [1,1]] leaves [3,4] in that object. *)
Lemma array_variable_is_written_in_place_witness :
  calcExpr noFunctions "=myArr + [1,1]" myArrWorld = Ok (RArray 0, myArrWorldAfter)
  /\ calcExpr noFunctions "=myArr" myArrWorldAfter = Ok (RArray 0, myArrWorldAfter).
Proof.
  pose proof (array_variable_is_written_in_place noFunctions myArrWorld 0%nat
                [Some (ofZ 2); Some (ofZ 3)] "+" PrimFloat.add
                ltac:(left; reflexivity) ltac:(vm_compute; reflexivity)
                eq_refl eq_refl) as H.
  split.
  - exact (proj1 H).
  - exact (proj2 (proj2 (proj2 H))).
Defined.

(* ===================================================================== *)
(** ** Worked examples *)
(* ===================================================================== *)

(** The logical operators give 0 or 1. *)
Example logical_operators_give_zero_or_one :
  calcExpr noFunctions "=2 and 0" defaultWorld = Ok (RNumber (ofZ 0), defaultWorld)
  /\ calcExpr noFunctions "=0 or 3" defaultWorld = Ok (RNumber (ofZ 1), defaultWorld)
  /\ calcExpr noFunctions "=1 < 2 and 2 <= 2" defaultWorld
     = Ok (RNumber (ofZ 1), defaultWorld).
Proof. repeat split; vm_compute; reflexivity. Qed.

(** A group that is not closed, and a name that is no variable, throw. *)
Example malformed_expressions_throw :
  calcExpr noFunctions "=(1+2" defaultWorld = Err (ExpHasErrors "=(1+2" StackNotEmpty)
  /\ calcExpr noFunctions "=1+2)" defaultWorld
     = Err (ExpHasErrors "=1+2)" MissingStartingParenthesis)
  /\ calcExpr noFunctions "=undefinedVar + 1" defaultWorld
     = Err (ExpHasErrors "=undefinedVar + 1" (UnknownVariable "undefinedVar"))
  /\ calcExpr noFunctions "=2 # 3" defaultWorld
     = Err (ExpHasErrors "=2 # 3" (UnknownToken "#" 3)).
Proof. repeat split; vm_compute; reflexivity. Qed.

(** Variables, a function call and a group in one expression. *)
Example variables_functions_and_groups :
  calcExpr sampleFunctions "=first(pi, 1) * (rad2deg)" defaultWorld
  = Ok (RNumber (ofZ 180), defaultWorld)
  /\ calcExpr sampleFunctions "=first()" defaultWorld
     = Err (FunctionError "first: no argument")
  /\ calcExpr sampleFunctions "=second(1)" defaultWorld
     = Err (ExpHasErrors "=second(1)" (UnknownFunction "second")).
Proof. repeat split; vm_compute; reflexivity. Qed.

(** The shape of the example in the module's header,
    [12.4 + ceil(50.5) / 2 * (60 % 4)], with the call replaced by its value:
    the sum is reduced before the product with the group, which gives
    [(12.4 + 25.5) * 0]. *)
Example header_example_is_grouped_from_the_left :
  calcExpr sampleFunctions "=12.4 + first(51) / 2 * (60 % 4)" defaultWorld
  = Ok (RNumber (ofZ 0), defaultWorld)
  /\ calcExpr sampleFunctions "=12.4 + ((first(51) / 2) * (60 % 4))" defaultWorld
     = Ok (RNumber (parseFloat "12.4"), defaultWorld).
Proof. repeat split; vm_compute; reflexivity. Qed.

(* ===================================================================== *)
(** ** Texts and positions; the lexer at any offset *)
(* ===================================================================== *)

Section TextPositions.
Local Open Scope nat_scope.

Lemma strDrop_next (expr : string) (pos : nat) (c : ascii) (r : string) :
  strDrop pos expr = String c r -> strDrop (S pos) expr = r.
Proof.
  revert expr. induction pos as [|pos IH]; intros [|d s]; simpl; try discriminate.
  - intros [= _ ->]. reflexivity.
  - apply IH.
Qed.

Lemma strDrop_app (expr : string) (pos : nat) (s rest : string) :
  strDrop pos expr = String.append s rest ->
  strDrop (pos + String.length s) expr = rest.
Proof.
  revert pos. induction s as [|c s IH]; intros pos H; simpl in *.
  - rewrite Nat.add_0_r. exact H.
  - rewrite Nat.add_succ_r, <- Nat.add_succ_l. apply IH.
    exact (strDrop_next _ _ _ _ H).
Qed.

Lemma charAt_of_strDrop (expr : string) (pos : nat) (c : ascii) (r : string) :
  strDrop pos expr = String c r -> charAt expr pos = Some c.
Proof. intros H. rewrite charAt_strDrop, H. reflexivity. Qed.

Lemma substring_prefix (s rest : string) :
  substring 0 (String.length s) (String.append s rest) = s.
Proof.
  induction s as [|c s IH]; simpl.
  - destruct rest; reflexivity.
  - rewrite IH. reflexivity.
Qed.

Lemma jsSubstring_of_strDrop (expr : string) (pos : nat) (s rest : string) :
  strDrop pos expr = String.append s rest ->
  jsSubstring expr pos (pos + String.length s) = s.
Proof.
  unfold jsSubstring. replace (pos + String.length s - pos) with (String.length s) by lia.
  revert expr. induction pos as [|pos IH]; intros expr H.
  - simpl in H. subst expr. apply substring_prefix.
  - destruct expr as [|d e]; simpl in H.
    + destruct s; [reflexivity | discriminate].
    + simpl. apply IH, H.
Qed.

Lemma scanWhile_app (test : ascii -> bool) (s rest : string) (pos : nat) :
  allChars test s = true -> startsOutside test rest = true ->
  scanWhile test (String.append s rest) pos = pos + String.length s.
Proof.
  revert pos. induction s as [|c s IH]; intros pos Hs Hr; simpl in *.
  - destruct rest as [|d r]; simpl in *; [lia|].
    apply negb_true_iff in Hr. rewrite Hr. lia.
  - apply andb_prop in Hs as [Hc Hs]. rewrite Hc, (IH (S pos) Hs Hr). lia.
Qed.

Lemma skipSpaces_shift (s rest : string) (pos : nat) :
  allChars isSpace s = true ->
  skipSpaces (String.append s rest) pos = skipSpaces rest (pos + String.length s).
Proof.
  revert pos. induction s as [|c s IH]; intros pos Hs; simpl in *.
  - rewrite Nat.add_0_r. reflexivity.
  - apply andb_prop in Hs as [Hc Hs]. unfold isSpace in Hc.
    rewrite Hc, (IH (S pos) Hs). f_equal. lia.
Qed.

Lemma charAt_next (expr : string) (pos : nat) (c : ascii) (r : string) :
  strDrop pos expr = String c r -> charAt expr (S pos) = charAt r 0.
Proof.
  intros H. rewrite charAt_strDrop, (strDrop_next _ _ _ _ H).
  destruct r; reflexivity.
Qed.

Lemma startsOutside_spaced (test : ascii -> bool) (sp r : string) :
  test " "%char = false -> allChars isSpace sp = true ->
  startsOutside test r = true -> startsOutside test (String.append sp r) = true.
Proof.
  intros Ht Hsp Hr. destruct sp as [|c sp]; [exact Hr|].
  simpl in *. apply andb_prop in Hsp as [Hc _]. unfold isSpace in Hc.
  apply Ascii.eqb_eq in Hc. subst c. rewrite Ht. reflexivity.
Qed.

Lemma String_append_empty (a : string) : String.append a EmptyString = a.
Proof.
  induction a as [|c a IH]; [reflexivity|].
  change (String c (String.append a EmptyString) = String c a). f_equal. exact IH.
Qed.

Lemma strDrop_end (expr : string) (pos : nat) :
  strDrop pos expr = EmptyString -> String.length expr <= pos.
Proof.
  intros H. pose proof (strDrop_length expr pos) as L. rewrite H in L.
  simpl in L. lia.
Qed.

Lemma String_append_assoc (a b c : string) :
  String.append (String.append a b) c = String.append a (String.append b c).
Proof.
  induction a as [|x a IH]; [reflexivity|].
  change (String x (String.append (String.append a b) c)
          = String x (String.append a (String.append b c))).
  f_equal. exact IH.
Qed.

Lemma String_length_append (a b : string) :
  String.length (String.append a b) = String.length a + String.length b.
Proof.
  induction a as [|c a IH]; [reflexivity|].
  change (S (String.length (String.append a b)) = S (String.length a + String.length b)).
  f_equal. exact IH.
Qed.

End TextPositions.

Section LexerAtOffset.

Local Open Scope nat_scope.

Variable w : World.
Variable expr : string.

(** The lexer starts after the spaces that it finds. *)
Lemma parser_spaces (pos : nat) (sp rest : string) (checkSign : bool) :
  strDrop pos expr = String.append sp rest -> allChars isSpace sp = true ->
  parser w expr pos checkSign = parser w expr (pos + String.length sp) checkSign.
Proof.
  intros H Hsp. unfold parser, parserBody.
  rewrite H, (skipSpaces_shift _ _ _ Hsp), (strDrop_app _ _ _ _ H).
  reflexivity.
Qed.

Lemma parser_unsigned_numeral (pos : nat) (s rest : string) (checkSign : bool) :
  strDrop pos expr = String.append s rest ->
  unsignedNumeral s = true -> startsOutside isDigitOrPoint rest = true ->
  parser w expr pos checkSign
  = Ok (numberToken (parseFloat s), pos + String.length s).
Proof.
  intros H Hs Hr. destruct s as [|c r]; [discriminate|].
  simpl in Hs. apply andb_prop in Hs as [Hd Hall].
  pose proof (parser_number w expr pos checkSign c
                (charAt_of_strDrop _ _ _ _ H) Hd) as Hp.
  cbv zeta in Hp.
  rewrite (strDrop_next _ _ _ _ H), (scanWhile_app _ _ _ _ Hall Hr) in Hp.
  replace (S pos + String.length r) with (pos + String.length (String c r)) in Hp
    by (simpl; lia).
  rewrite (jsSubstring_of_strDrop _ _ _ _ H) in Hp. exact Hp.
Qed.

Lemma parser_numeral (pos : nat) (s rest : string) :
  strDrop pos expr = String.append s rest ->
  plainNumeral s = true -> startsOutside isDigitOrPoint rest = true ->
  parser w expr pos true = Ok (numberToken (parseFloat s), pos + String.length s).
Proof.
  intros H Hs Hr. destruct s as [|c r]; [discriminate|].
  simpl in Hs. destruct (Ascii.eqb c "-" || Ascii.eqb c "+") eqn:Hsign.
  - destruct r as [|d r']; [discriminate|].
    apply andb_prop in Hs as [Hd Hall].
    pose proof (strDrop_next _ _ _ _ H) as H1.
    assert (Hd' : isDigit (charAt expr (S pos)) = true)
      by (rewrite (charAt_of_strDrop _ _ _ _ H1); exact Hd).
    destruct (parser_sign w expr pos c (charAt_of_strDrop _ _ _ _ H) Hsign Hd')
      as [Hp _].
    rewrite (strDrop_next _ _ _ _ H1), (scanWhile_app _ _ _ _ Hall Hr) in Hp.
    replace (S (S pos) + String.length r')
      with (pos + String.length (String c (String d r'))) in Hp by (simpl; lia).
    rewrite (jsSubstring_of_strDrop _ _ _ _ H) in Hp. exact Hp.
  - apply parser_unsigned_numeral with (rest := rest); [exact H | exact Hs | exact Hr].
Qed.

Lemma skipSpaces_at (pos : nat) (c : ascii) (rest : string) :
  strDrop pos expr = String c rest -> Ascii.eqb c " " = false ->
  skipSpaces (strDrop pos expr) pos = pos.
Proof. intros -> H. simpl. rewrite H. reflexivity. Qed.

(** What the lexer does at a character that is no letter, digit, space or
    quote and that starts no literal and no two-character operator. *)
Lemma parser_one_character (pos : nat) (c : ascii) (rest : string)
    (checkSign : bool) :
  strDrop pos expr = String c rest ->
  isCharacter c = false -> Ascii.eqb c " " = false ->
  isDigit (Some c) = false -> Ascii.eqb c "'" = false ->
  checkSign && ((Ascii.eqb c "-" || Ascii.eqb c "+") && isDigit (charAt rest 0))
  = false ->
  (Ascii.eqb c "=" || Ascii.eqb c "!" || Ascii.eqb c "<" || Ascii.eqb c ">")
  && chIs (charAt rest 0) "=" = false ->
  parser w expr pos checkSign
  = match Str2TokenType (String c EmptyString) with
    | Some ty => Ok (symbolToken (String c EmptyString) ty, S pos)
    | None => err expr (UnknownToken (String c EmptyString) pos)
    end.
Proof.
  intros H Hl Hsp Hd Hq Hs He. unfold parser, parserBody.
  rewrite (skipSpaces_at _ _ _ H Hsp), (charAt_of_strDrop _ _ _ _ H), Hl,
    (charAt_next _ _ _ _ H), Hs, Hd.
  change (chIs (Some c) "'") with (Ascii.eqb c "'").
  change (chIs (Some c) "=") with (Ascii.eqb c "=").
  change (chIs (Some c) "!") with (Ascii.eqb c "!").
  change (chIs (Some c) "<") with (Ascii.eqb c "<").
  change (chIs (Some c) ">") with (Ascii.eqb c ">").
  rewrite Hq, (charAt_next _ _ _ _ H), He.
  cbn [chText].
  destruct (Str2TokenType (String c EmptyString)) as [ty|]; [|reflexivity].
  unfold setToken.
  pose proof (jsSubstring_of_strDrop expr pos (String c EmptyString) rest H) as Hj.
  cbn [String.length] in Hj. rewrite Nat.add_1_r in Hj. rewrite Hj.
  reflexivity.
Qed.

(** What the lexer does at [==], [!=], [<=] and [>=]. *)
Lemma parser_two_characters (pos : nat) (c : ascii) (rest : string)
    (checkSign : bool) (ty : TokenType.t) :
  strDrop pos expr = String c (String "=" rest) ->
  Ascii.eqb c "=" || Ascii.eqb c "!" || Ascii.eqb c "<" || Ascii.eqb c ">" = true ->
  Str2TokenType (String c "=") = Some ty ->
  parser w expr pos checkSign = Ok (symbolToken (String c "=") ty, S (S pos)).
Proof.
  intros H Hc Hty. unfold parser, parserBody.
  assert (Hf : isCharacter c = false /\ Ascii.eqb c " " = false
               /\ isDigit (Some c) = false /\ Ascii.eqb c "'" = false
               /\ (Ascii.eqb c "-" || Ascii.eqb c "+") = false).
  { clear -Hc. destruct c as [[] [] [] [] [] [] [] []]; vm_compute in Hc |- *;
      try discriminate Hc; repeat split. }
  destruct Hf as (Hl & Hsp & Hd & Hq & Hs).
  rewrite (skipSpaces_at _ _ _ H Hsp), (charAt_of_strDrop _ _ _ _ H), Hl,
    (charAt_next _ _ _ _ H), Hs, andb_false_r, Hd.
  change (chIs (Some c) "'") with (Ascii.eqb c "'").
  change (chIs (Some c) "=") with (Ascii.eqb c "=").
  change (chIs (Some c) "!") with (Ascii.eqb c "!").
  change (chIs (Some c) "<") with (Ascii.eqb c "<").
  change (chIs (Some c) ">") with (Ascii.eqb c ">").
  rewrite Hq, (charAt_next _ _ _ _ H), Hc.
  cbn [charAt String.get chIs Ascii.eqb Bool.eqb andb chText String.append].
  change (String.append (String c EmptyString) "=") with (String c "=").
  rewrite Hty. unfold setToken.
  pose proof (jsSubstring_of_strDrop expr pos (String c "=") rest H) as Hj.
  cbn [String.length] in Hj. replace (pos + 2) with (S (S pos)) in Hj by lia.
  rewrite Hj. reflexivity.
Qed.

Lemma Str2TokenType_cases (sym : string) (ty : TokenType.t) :
  Str2TokenType sym = Some ty ->
  In (sym, ty)
     [ ("[", TokenType.ArrayOpen); ("]", TokenType.ArrayClose);
       ("(", TokenType.ParamOpen); (")", TokenType.ParamClose);
       ("+", TokenType.Plus); ("-", TokenType.Minus);
       ("*", TokenType.Multiply); ("/", TokenType.Divide);
       ("%", TokenType.Mod); (",", TokenType.Comma);
       ("==", TokenType.Equal); ("!=", TokenType.Different);
       ("<", TokenType.Lesser); (">", TokenType.Greater);
       ("<=", TokenType.LessEqual); (">=", TokenType.GreaterEqual) ].
Proof.
  unfold Str2TokenType.
  repeat match goal with
         | |- (if String.eqb sym ?k then _ else _) = _ -> _ =>
             destruct (String.eqb_spec sym k) as [->|_];
             [ intros [= <-]; cbn; tauto | ]
         end.
  discriminate.
Qed.

(** Every symbol of the table is read as one token of its type and class,
    and the lexer moves past it: where the symbol is not a sign that starts
    a literal, and not a [<] or [>] that starts [<=] or [>=]. *)
Lemma parser_symbol (pos : nat) (sym rest : string)
    (ty : TokenType.t) (checkSign : bool) :
  Str2TokenType sym = Some ty ->
  strDrop pos expr = String.append sym rest ->
  symbolStops sym rest checkSign = true ->
  parser w expr pos checkSign
  = Ok (symbolToken sym ty, pos + String.length sym).
Proof.
  intros Hty H Hstop. apply Str2TokenType_cases in Hty.
  cbn [In] in Hty.
  repeat (destruct Hty as [[= <- <-]|Hty]); [ .. | contradiction ].
  all: cbn [String.append] in H.
  all: cbn [String.length].
  all: rewrite ?Nat.add_1_r; replace (pos + 2) with (S (S pos)) by lia.
  all: try (apply parser_two_characters with (rest := rest);
            [ exact H | reflexivity | reflexivity ]).
  all: rewrite (parser_one_character _ _ _ _ H eq_refl eq_refl eq_refl eq_refl);
    [ reflexivity | .. ].
  all: revert Hstop; unfold symbolStops;
    destruct checkSign, (isDigit (charAt rest 0)), (chIs (charAt rest 0) "=");
    vm_compute; intros Hstop; try discriminate Hstop; reflexivity.
Qed.

(** A character that starts no token is reported with its offset; so are
    [=] and [!] when no [=] follows them. *)
Lemma parser_unknown_character (pos : nat) (c : ascii)
    (rest : string) (checkSign : bool) :
  strDrop pos expr = String c rest ->
  startsNoToken c = true ->
  chIs (charAt rest 0) "=" = false \/ (c <> "="%char /\ c <> "!"%char) ->
  parser w expr pos checkSign
  = err expr (UnknownToken (String c EmptyString) pos).
Proof.
  intros H Hc Hnext. unfold startsNoToken, isSpace in Hc.
  destruct (Str2TokenType (String c EmptyString)) as [ty|] eqn:Hty;
    [rewrite andb_false_r in Hc; discriminate Hc|].
  rewrite andb_true_r in Hc.
  repeat (apply andb_prop in Hc as [Hc ?]).
  repeat match goal with
         | E : negb _ = true |- _ => apply negb_true_iff in E
         end.
  assert (Hs : Ascii.eqb c "-" || Ascii.eqb c "+" = false).
  { destruct (Ascii.eqb_spec c "-") as [->|_]; [discriminate Hty|].
    destruct (Ascii.eqb_spec c "+") as [->|_]; [discriminate Hty|]. reflexivity. }
  assert (Hlg : Ascii.eqb c "<" || Ascii.eqb c ">" = false).
  { destruct (Ascii.eqb_spec c "<") as [->|_]; [discriminate Hty|].
    destruct (Ascii.eqb_spec c ">") as [->|_]; [discriminate Hty|]. reflexivity. }
  rewrite (parser_one_character _ _ _ _ H); try assumption.
  - rewrite Hty. reflexivity.
  - rewrite Hs. apply andb_false_r.
  - apply orb_false_iff in Hlg as [Hl Hg]. rewrite Hl, Hg, !orb_false_r.
    destruct Hnext as [-> | [Hne1 Hne2]]; [apply andb_false_r|].
    destruct (Ascii.eqb_spec c "=") as [->|_]; [contradiction|].
    destruct (Ascii.eqb_spec c "!") as [->|_]; [contradiction|]. reflexivity.
Qed.

Lemma parser_name (pos : nat) (name rest : string) (checkSign : bool) :
  strDrop pos expr = String.append name rest ->
  identifier name = true -> startsOutside isCharacterOrNum rest = true ->
  parser w expr pos checkSign
  = parseName w expr pos (pos + String.length name) freshToken
    ≫= fun '(tk, pos) =>
         Ok (withCanBinOp tk (TokenClass.eqb (tkClass tk) TokenClass.Unary
                              || TokenClass.eqb (tkClass tk) TokenClass.Binary),
             pos).
Proof.
  intros H Hn Hr. destruct name as [|c r]; [discriminate|].
  simpl in Hn. apply andb_prop in Hn as [Hc Hall].
  assert (Hsp : Ascii.eqb c " " = false).
  { clear -Hc. destruct c as [[] [] [] [] [] [] [] []]; vm_compute in Hc |- *;
      try discriminate Hc; reflexivity. }
  unfold parser, parserBody.
  rewrite (skipSpaces_at _ _ _ H Hsp), (charAt_of_strDrop _ _ _ _ H), Hc,
    (strDrop_next _ _ _ _ H), (scanWhile_app _ _ _ _ Hall Hr).
  replace (S pos + String.length r) with (pos + String.length (String c r))
    by (simpl; lia).
  reflexivity.
Qed.

(** A name that no parenthesis follows and that is no named operator is a
    variable: the token holds what the variable holds. *)
Lemma parser_variable (pos : nat) (name rest : string)
    (checkSign : bool) :
  strDrop pos expr = String.append name rest ->
  identifier name = true -> startsOutside isCharacterOrNum rest = true ->
  chIs (charAt rest 0) "(" = false -> opNameIndex name = None ->
  parser w expr pos checkSign
  = match readVar w name with
    | Some (VNumber n) => Ok (numberToken n, pos + String.length name)
    | Some (VBoolean b) =>
        Ok (numberToken (if b then ofZ 1 else ofZ 0), pos + String.length name)
    | Some (VString s) => Ok (stringToken s, pos + String.length name)
    | Some (VArray a) => Ok (arrayToken a, pos + String.length name)
    | Some VUnsupported => err expr (UnsupportedTypeOf name)
    | None => err expr (UnknownVariable name)
    end.
Proof.
  intros H Hn Hr Hp Hop. rewrite (parser_name _ _ _ _ H Hn Hr).
  unfold parseName.
  rewrite charAt_strDrop, (strDrop_app _ _ _ _ H).
  replace (String.get 0 rest) with (charAt rest 0) by reflexivity.
  assert (Hp' : chIs (match rest with String c _ => Some c | EmptyString => None end) "("
                = false) by (destruct rest; exact Hp).
  rewrite Hp'. unfold setToken.
  cbn [sValue withParam withType param default from_option id storedText].
  rewrite (jsSubstring_of_strDrop _ _ _ _ H), Hop.
  destruct (readVar w name) as [[n|s|[]|a|]|]; reflexivity.
Qed.

Lemma parser_function_name (pos : nat) (name rest : string) (checkSign : bool) :
  strDrop pos expr = String.append name (String "(" rest) ->
  identifier name = true -> String.eqb name "not" = false ->
  parser w expr pos checkSign
  = Ok (functionToken name, S (pos + String.length name)).
Proof.
  intros H Hn Hnot. rewrite (parser_name _ _ _ _ H Hn eq_refl).
  unfold parseName.
  rewrite charAt_strDrop, (strDrop_app _ _ _ _ H).
  cbn [chIs Ascii.eqb Bool.eqb andb]. unfold setToken.
  cbn [sValue withParam withType param default from_option id storedText].
  rewrite (jsSubstring_of_strDrop _ _ _ _ H), Hnot. reflexivity.
Qed.

Lemma scanString_closing (body rest : string) (pos : nat) (prev : ascii) :
  quotedBody prev body = true ->
  scanString (String.append body (String "'" rest)) pos prev
  = pos + String.length body.
Proof.
  revert pos prev. induction body as [|c r IH]; intros pos prev Hb; simpl in *.
  - apply negb_true_iff in Hb. rewrite Hb. simpl. lia.
  - apply andb_prop in Hb as [Hc Hb]. rewrite Hc, (IH (S pos) c Hb). lia.
Qed.

(** At a quote, the lexer reads up to the quote that closes the string and
    replaces the escapes. *)
Lemma parser_string (pos : nat) (body rest : string) (checkSign : bool) :
  strDrop pos expr = String "'" (String.append body (String "'" rest)) ->
  quotedBody "'" body = true ->
  parser w expr pos checkSign
  = Ok (stringToken (unescape body), S (S (pos + String.length body))).
Proof.
  intros H Hb. unfold parser, parserBody.
  rewrite (skipSpaces_at _ _ _ H eq_refl), (charAt_of_strDrop _ _ _ _ H).
  change (isCharacter "'") with false. cbv iota.
  replace (checkSign && ((Ascii.eqb "'" "-" || Ascii.eqb "'" "+")
                         && isDigit (charAt expr (S pos)))) with false
    by (destruct checkSign; reflexivity).
  change (isDigit (Some "'"%char)) with false.
  change (chIs (Some "'"%char) "'") with true. cbv iota.
  pose proof (strDrop_next _ _ _ _ H) as H1.
  rewrite H1, (scanString_closing _ _ _ _ Hb).
  unfold setToken. cbn [sValue withParam withType param default from_option id storedText].
  rewrite (jsSubstring_of_strDrop _ _ _ _ H1).
  replace (S (S pos + String.length body)) with (S (S (pos + String.length body)))
    by lia.
  reflexivity.
Qed.

End LexerAtOffset.

(* ===================================================================== *)
(** ** The store keeps its shape *)
(* ===================================================================== *)

Section Shape.
Local Open Scope nat_scope.
Local Open Scope list_scope.

Lemma keepsShape_refl (w : World) : keepsShape w w.
Proof. split; [reflexivity|]. intros a arr H. exists arr. auto. Qed.

Lemma keepsShape_trans (w1 w2 w3 : World) :
  keepsShape w1 w2 -> keepsShape w2 w3 -> keepsShape w1 w3.
Proof.
  intros [V1 H1] [V2 H2]. split; [congruence|].
  intros a arr Ha. destruct (H1 a arr Ha) as (arr' & Ha' & L').
  destruct (H2 a arr' Ha') as (arr'' & Ha'' & L''). exists arr''. split; [exact Ha''|lia].
Qed.

Lemma keepsShape_heapSet (w : World) (a : addr) (arr' : JsArray) :
  (forall arr, heapGet w a = Some arr -> length arr' = length arr) ->
  keepsShape w (heapSet w a arr').
Proof.
  intros Hl. split; [reflexivity|].
  intros b arr Hb. destruct (decide (a = b)) as [->|Hne].
  - exists arr'. split; [exact (heapGet_heapSet_eq _ _ _ _ Hb) | exact (Hl _ Hb)].
  - exists arr. rewrite (heapGet_heapSet_ne _ _ _ _ Hne). auto.
Qed.

Lemma keepsShape_heapPush (w : World) (arr : JsArray) :
  keepsShape w (heapPush w arr).
Proof.
  split; [reflexivity|]. intros a arr' Ha. exists arr'.
  split; [exact (heapGet_heapPush_old _ _ _ _ Ha) | reflexivity].
Qed.

Lemma forEachStep_shape (f : number -> number -> number) (a1 a2 : addr)
    (w : World) (index : nat) :
  keepsShape w (forEachStep f a1 a2 w index).
Proof.
  unfold forEachStep. apply keepsShape_heapSet.
  intros arr ->. simpl. apply length_insert.
Qed.

Lemma forEachIndex_shape (f : number -> number -> number) (a1 a2 : addr)
    (len : nat) (w : World) :
  keepsShape w (forEachIndex f a1 a2 len w).
Proof.
  unfold forEachIndex. generalize (seq 0 len). intros l. revert w.
  induction l as [|i l IH]; intros w; simpl; [apply keepsShape_refl|].
  eapply keepsShape_trans; [apply forEachStep_shape | apply IH].
Qed.

Lemma execOp_shape (expr : string) (w w' : World) (value1 value2 value1' : Token)
    (f : number -> number -> number) (allowOther : bool) (v : option number) :
  execOp expr w value1 value2 f allowOther = Ok (ExecTrue v value1' w') ->
  keepsShape w w'.
Proof.
  unfold execOp. intros H. ok_inv H; try discriminate H; injection H as _ _ <-;
    first [ apply forEachIndex_shape | apply keepsShape_refl ].
Qed.

Lemma _calcBinary_shape (expr : string) (w w' : World) (op value1 value2 t : Token) :
  _calcBinary expr w op value1 value2 = Ok (t, w') -> keepsShape w w'.
Proof.
  unfold _calcBinary. intros H.
  destruct (tkType op); ok_inv H;
    try (injection H as <- <-);
    first [ apply keepsShape_refl
          | eapply execOp_shape; eassumption ].
Qed.

Variable _exFunctions : string -> option ExprFunc.
Hypothesis registry_ok : registryKeepsShape _exFunctions.
Variable expr : string.

Lemma calcStackLeftLoop_shape (fuel startPoint : nat) (stack stack' : list Token)
    (w w' : World) :
  calcStackLeftLoop expr fuel startPoint stack w = Ok (stack', w') -> keepsShape w w'.
Proof.
  revert stack w. induction fuel as [|fuel IH]; intros stack w H; simpl in H.
  - ok_inv H. injection H as <- <-. apply keepsShape_refl.
  - ok_inv H; try (injection H as <- <-; apply keepsShape_refl).
    destruct a2 as [t1' w1].
    eapply keepsShape_trans; [eapply _calcBinary_shape; eassumption | eapply IH; eassumption].
Qed.

Lemma calcStackRightLoop_shape (fuel : nat) (stack stack' : list Token)
    (w w' : World) :
  calcStackRightLoop expr fuel stack w = Ok (stack', w') -> keepsShape w w'.
Proof.
  revert stack w. induction fuel as [|fuel IH]; intros stack w H; simpl in H.
  - ok_inv H. injection H as <- <-. apply keepsShape_refl.
  - ok_inv H; try (injection H as <- <-; apply keepsShape_refl).
    destruct a3 as [t1' w1].
    eapply keepsShape_trans; [eapply _calcBinary_shape; eassumption | eapply IH; eassumption].
Qed.

Lemma calcStackLeft_shape (startPoint : nat) (stack stack' : list Token)
    (w w' : World) :
  calcStackLeft expr startPoint stack w = Ok (stack', w') -> keepsShape w w'.
Proof. apply calcStackLeftLoop_shape. Qed.

Lemma calcStackRight_shape (stack stack' : list Token) (w w' : World) :
  calcStackRight expr stack w = Ok (stack', w') -> keepsShape w w'.
Proof. apply calcStackRightLoop_shape. Qed.

Lemma onClose_shape (startPoint : nat) (stack stack' : list Token)
    (w w' : World) (token : Token) :
  onCloseParamOrArrayOrFunc expr startPoint stack w = Ok (token, stack', w') ->
  keepsShape w w'.
Proof.
  unfold onCloseParamOrArrayOrFunc. intros H. ok_inv H.
  injection H as _ _ <-. eapply calcStackLeft_shape; eassumption.
Qed.

Lemma _execExprFunction_shape (w w' : World) (funcToken token : Token) :
  _execExprFunction _exFunctions expr w funcToken = Ok (token, w') ->
  keepsShape w w'.
Proof.
  unfold _execExprFunction. intros H. ok_inv H. injection H as _ <-.
  eapply registry_ok; eassumption.
Qed.

Lemma onBinary_shape (m m' : Machine) (token : Token) :
  onBinary expr m token = Ok m' -> keepsShape (world m) (world m').
Proof.
  unfold onBinary. intros H. ok_inv H. destruct a as [stack' w'].
  injection H as <-. simpl.
  ok_inv Ha; try (injection Ha as _ <-; apply keepsShape_refl).
  eapply calcStackLeft_shape; eassumption.
Qed.

Lemma onValue_shape (m m' : Machine) (token : Token) :
  onValue expr m token = Ok m' -> keepsShape (world m) (world m').
Proof.
  unfold onValue. intros H. ok_inv H; injection H as <-; simpl;
    eapply calcStackRight_shape; eassumption.
Qed.

Lemma onCommaOrClose_shape (m m' : Machine) (token : Token) :
  onCommaOrClose _exFunctions expr m token = Ok m' ->
  keepsShape (world m) (world m').
Proof.
  unfold onCommaOrClose. intros H.
  destruct (startPoint m =? 0); [discriminate H|].
  apply bind_Ok_inv in H as (funcToken & _ & H).
  match type of H with (if ?c then _ else _) = _ => destruct c end;
    [discriminate H|].
  apply bind_Ok_inv in H as ([[token' stack'] w'] & Hmid & H).
  assert (Hw : keepsShape (world m) w').
  { clear H.
    match type of Hmid with (if ?c then _ else _) = _ => destruct c end;
      [| exact (onClose_shape _ _ _ _ _ _ Hmid)].
    apply bind_Ok_inv in Hmid as ([[funcToken' stack1] w1] & H1 & H2).
    assert (Hw1 : keepsShape (world m) w1).
    { match type of H1 with (if ?c then _ else _) = _ => destruct c end.
      - apply bind_Ok_inv in H1 as ([[token1 stack2] w2] & H1 & H3).
        injection H3 as _ _ <-. exact (onClose_shape _ _ _ _ _ _ H1).
      - injection H1 as _ _ <-. apply keepsShape_refl. }
    apply (keepsShape_trans _ _ _ Hw1).
    destruct (TokenClass.eqb (tkClass funcToken) TokenClass.Function).
    - apply bind_Ok_inv in H2 as ([token1 w2] & H2 & H3).
      injection H3 as _ _ <-. exact (_execExprFunction_shape _ _ _ _ H2).
    - unfold _execArray in H2. injection H2 as _ _ <-. apply keepsShape_heapPush. }
  ok_inv H; injection H as <-; exact Hw.
Qed.

Lemma onToken_shape (m m' : Machine) (token : Token) :
  onToken _exFunctions expr m token = Ok m' -> keepsShape (world m) (world m').
Proof.
  unfold onToken, onUnary, onOpen. intros H.
  destruct (tkClass token); ok_inv H;
    first [ injection H as <-; apply keepsShape_refl
          | exact (onValue_shape _ _ _ H)
          | exact (onBinary_shape _ _ _ H)
          | exact (onCommaOrClose_shape _ _ _ H) ].
Qed.

Lemma mainLoop_shape (fuel : nat) (m m' : Machine) :
  mainLoop _exFunctions expr fuel m = Ok m' -> keepsShape (world m) (world m').
Proof.
  revert m. induction fuel as [|fuel IH]; intros m H; [discriminate|].
  rewrite mainLoop_S in H.
  apply bind_Ok_inv in H as ([token pos'] & _ & H).
  assert (Hstep : forall m1,
    onToken _exFunctions expr
      (mkMachine (stack m) (state m) (startPoint m) (startPoints m) pos' (world m))
      token = Ok m1 ->
    mainLoop _exFunctions expr fuel m1 = Ok m' ->
    keepsShape (world m) (world m')).
  { intros m1 H1 H2. apply onToken_shape in H1. apply IH in H2.
    exact (keepsShape_trans _ _ _ H1 H2). }
  destruct (tkClass token);
    first [ injection H as <-; apply keepsShape_refl
          | apply bind_Ok_inv in H as (m1 & H1 & H2); exact (Hstep m1 H1 H2) ].
Qed.

(** X1.  An evaluation that returns has kept the shape of the store: the
    variables are bound as before, and every array that existed is still at
    its address and has the length it had (its elements may have changed),
    as long as the registered functions do no more than that themselves.
    The statement is about the evaluations that return: [Err] carries no
    store, so what an evaluation wrote before it threw is not described. *)
Theorem calcExpr_keeps_variables_and_array_lengths (w w' : World)
    (v : ExprResult) :
  calcExpr _exFunctions expr w = Ok (v, w') -> keepsShape w w'.
Proof.
  unfold calcExpr, _stateMachine. intros H.
  apply bind_Ok_inv in H as (m & Hm & H).
  apply bind_Ok_inv in H as ([stack' w1] & Hl & H).
  apply mainLoop_shape in Hm. apply calcStackLeft_shape in Hl. simpl in Hm.
  ok_inv H. injection H as _ <-. exact (keepsShape_trans _ _ _ Hm Hl).
Qed.

End Shape.

(* ===================================================================== *)
(** ** Runs of the state machine on the tokens of a text *)
(* ===================================================================== *)

(** One pass of the main loop, where the lexer's answer is known. *)
Ltac pass Hparser :=
  rewrite mainLoop_S;
  cbn [pos world state stack startPoint startPoints isBinaryState negb];
  rewrite Hparser;
  cbv -[mainLoop parser _calcBinary _calcUnary _execExprFunction _comparePriority
        heapPush newAddr].

Section Fuel.
Local Open Scope nat_scope.
Local Open Scope list_scope.

Variable _exFunctions : string -> option ExprFunc.
Variable expr : string.

(** More passes than the main loop needs change nothing. *)
Lemma mainLoop_more_fuel (fuel fuel' : nat) (m : Machine) :
  finishes (mainLoop _exFunctions expr fuel m) -> fuel <= fuel' ->
  mainLoop _exFunctions expr fuel' m = mainLoop _exFunctions expr fuel m.
Proof.
  revert fuel' m. induction fuel as [|fuel IH]; intros fuel' m Hf Hle.
  - contradiction Hf.
  - destruct fuel' as [|fuel']; [lia|].
    rewrite !mainLoop_S in *.
    destruct (parser (world m) expr (pos m) (negb (isBinaryState (state m))))
      as [[token pos']| |]; try reflexivity.
    cbn [mbind Res_bind] in *.
    assert (Hstep : forall mm : Machine,
      finishes (onToken _exFunctions expr mm token
                ≫= mainLoop _exFunctions expr fuel) ->
      onToken _exFunctions expr mm token ≫= mainLoop _exFunctions expr fuel'
      = onToken _exFunctions expr mm token ≫= mainLoop _exFunctions expr fuel).
    { intros mm Hmm. destruct (onToken _exFunctions expr mm token) as [m1| |];
        try reflexivity.
      cbn [mbind Res_bind] in *. apply IH; [exact Hmm | lia]. }
    destruct (tkClass token); first [ reflexivity | apply Hstep; exact Hf ].
Qed.

Lemma mainLoop_enough (fuel : nat) (m : Machine) (r : Res Machine) :
  mainLoop _exFunctions expr fuel m = r -> finishes r ->
  fuel <= S (String.length expr) ->
  mainLoop _exFunctions expr (S (String.length expr)) m = r.
Proof.
  intros H Hr Hle. subst r. apply mainLoop_more_fuel; assumption.
Qed.

End Fuel.

Section Tokens.
Local Open Scope nat_scope.
Local Open Scope list_scope.

Variable _exFunctions : string -> option ExprFunc.
Variable expr : string.
Variable w : World.

Lemma parser_canBinOp (pos pos' : nat) (checkSign : bool) (tk : Token) :
  parser w expr pos checkSign = Ok (tk, pos') ->
  canBinOp tk = TokenClass.eqb (tkClass tk) TokenClass.Unary
                || TokenClass.eqb (tkClass tk) TokenClass.Binary.
Proof.
  unfold parser. intros H. apply bind_Ok_inv in H as ([tk0 p0] & _ & H).
  injection H as <- _. reflexivity.
Qed.

Lemma execOp_keeps_token (w0 w' : World) (v1 v2 v1' : Token)
    (f : number -> number -> number) (allowOther : bool) (v : option number) :
  execOp expr w0 v1 v2 f allowOther = Ok (ExecTrue v v1' w') ->
  v1' = mkToken (param v1') (tkType v1) (tkClass v1) (canBinOp v1) (funcParams v1).
Proof.
  unfold execOp. intros H. ok_inv H; try discriminate H; injection H as _ <- _.
  - reflexivity.
  - destruct v1; reflexivity.
Qed.

(** A binary operator changes the fields of the value of its first operand
    and leaves the rest of that token alone. *)
Lemma _calcBinary_keeps_token (w0 w' : World) (op v1 v2 t : Token) :
  _calcBinary expr w0 op v1 v2 = Ok (t, w') ->
  t = mkToken (param t) (tkType v1) (tkClass v1) (canBinOp v1) (funcParams v1).
Proof.
  unfold _calcBinary. intros H.
  destruct (tkType op); ok_inv H;
    repeat match goal with
           | E : execOp _ _ _ _ _ _ = Ok (ExecTrue _ _ _) |- _ =>
               apply execOp_keeps_token in E
           end;
    injection H as <- _;
    first [ reflexivity
          | match goal with E : ?x = mkToken _ _ _ _ _ |- _ => rewrite E end;
            reflexivity ].
Qed.

Lemma calcExpr_value_operator_value (p1 p2 : ExFuncParam) (op : Token)
    (q1 q2 q3 : nat) :
  parser w expr 1 true = Ok (valueToken p1, q1) ->
  parser w expr q1 false = Ok (op, q2) ->
  tkClass op = TokenClass.Binary \/ tkClass op = TokenClass.Unary ->
  parser w expr q2 true = Ok (valueToken p2, q3) ->
  String.length expr <= q3 ->
  calcExpr _exFunctions expr w
  = resultOf (_calcBinary expr w op (valueToken p1) (valueToken p2)).
Proof.
  intros H1 H2 Hcl H3 Hend.
  pose proof (parser_canBinOp _ _ _ _ H2) as Hcan.
  pose proof (parser_advance w expr _ _ _ _ H1 ltac:(discriminate)) as [L1 _].
  pose proof (parser_advance w expr _ _ _ _ H2
                ltac:(destruct Hcl as [-> | ->]; discriminate)) as [L2 _].
  pose proof (parser_advance w expr _ _ _ _ H3 ltac:(discriminate)) as [L3 L4].
  destruct op as [prm ty cl can fp]. cbn [tkClass canBinOp] in Hcl, Hcan.
  assert (Hcan' : can = true) by (destruct Hcl as [-> | ->]; exact Hcan).
  clear Hcan. subst can.
  assert (Hrun : mainLoop _exFunctions expr 4 (mkMachine [] IdAndUnary 0 [] 1 w)
                 = Ok (mkMachine [valueToken p1; mkToken prm ty cl true fp;
                                  valueToken p2] Binary 0 [] q3 w)).
  { pass H1.
    destruct Hcl as [-> | ->].
    all: pass H2; pass H3.
    all: rewrite mainLoop_S.
    all: cbn [pos world state stack startPoint startPoints isBinaryState negb].
    all: rewrite (parser_at_end w expr q3 false Hend).
    all: reflexivity. }
  unfold calcExpr, _stateMachine.
  rewrite (mainLoop_enough _ _ _ _ _ Hrun I ltac:(lia)).
  unfold resultOf, valueToken.
  destruct (_calcBinary expr w (mkToken prm ty cl true fp)
              (mkToken p1 TokenType.Value TokenClass.Value false [])
              (mkToken p2 TokenType.Value TokenClass.Value false []))
    as [[t w']| |] eqn:Hb.
  - pose proof (_calcBinary_keeps_token _ _ _ _ _ _ Hb) as Et.
    destruct t as [pt tyt clt cant fpt]. cbn in Et.
    injection Et as -> -> -> ->.
    cbv -[_calcBinary _valueOfToken]. rewrite Hb.
    cbv -[_calcBinary _valueOfToken]. reflexivity.
  - cbv -[_calcBinary _valueOfToken]. rewrite Hb. reflexivity.
  - cbv -[_calcBinary _valueOfToken]. rewrite Hb. reflexivity.
Qed.

Lemma _calcBinary_numbers (w0 : World) (op : Token) (a b : number)
    (f : number -> number -> number) :
  numericOf (tkType op) = Some f ->
  _calcBinary expr w0 op (numberToken a) (numberToken b)
  = Ok (numberToken (f a b), w0).
Proof.
  destruct op as [prm ty cl can fp]. cbn [tkType].
  destruct ty; intros [= <-]; reflexivity.
Qed.

Lemma _comparePriority_flip (op1 op2 : Token) :
  _comparePriority op1 op2 = false -> _comparePriority op2 op1 = true.
Proof.
  destruct op1 as [p1 ty1 c1 b1 f1], op2 as [p2 ty2 c2 b2 f2].
  unfold _comparePriority. cbn [tkType].
  destruct ty1, ty2; vm_compute; congruence.
Qed.

(** The run on the tokens number, operator, number, operator, number. *)
Lemma calcExpr_three_numbers (a b c : number) (op1 op2 : Token)
    (f1 f2 : number -> number -> number) (q1 q2 q3 q4 q5 : nat) :
  parser w expr 1 true = Ok (numberToken a, q1) ->
  parser w expr q1 false = Ok (op1, q2) ->
  parser w expr q2 true = Ok (numberToken b, q3) ->
  parser w expr q3 false = Ok (op2, q4) ->
  parser w expr q4 true = Ok (numberToken c, q5) ->
  String.length expr <= q5 ->
  tkClass op1 = TokenClass.Binary \/ tkClass op1 = TokenClass.Unary ->
  tkClass op2 = TokenClass.Binary \/ tkClass op2 = TokenClass.Unary ->
  numericOf (tkType op1) = Some f1 -> numericOf (tkType op2) = Some f2 ->
  calcExpr _exFunctions expr w
  = Ok (RNumber (if _comparePriority op1 op2 then f2 (f1 a b) c
                 else f1 a (f2 b c)), w).
Proof.
  intros P1 P2 P3 P4 P5 Hend Hcl1 Hcl2 Hf1 Hf2.
  pose proof (parser_canBinOp _ _ _ _ P2) as Hcan1.
  pose proof (parser_canBinOp _ _ _ _ P4) as Hcan2.
  pose proof (parser_advance w expr _ _ _ _ P1 ltac:(discriminate)) as [L1 _].
  pose proof (parser_advance w expr _ _ _ _ P2
                ltac:(destruct Hcl1 as [-> | ->]; discriminate)) as [L2 _].
  pose proof (parser_advance w expr _ _ _ _ P3 ltac:(discriminate)) as [L3 _].
  pose proof (parser_advance w expr _ _ _ _ P4
                ltac:(destruct Hcl2 as [-> | ->]; discriminate)) as [L4 _].
  pose proof (parser_advance w expr _ _ _ _ P5 ltac:(discriminate)) as [L5 L6].
  pose proof (fun x y => _calcBinary_numbers w op1 x y f1 Hf1) as B1.
  pose proof (fun x y => _calcBinary_numbers w op2 x y f2 Hf2) as B2.
  destruct op1 as [prm1 ty1 cl1 can1 fp1], op2 as [prm2 ty2 cl2 can2 fp2].
  cbn [tkClass canBinOp tkType] in *.
  assert (Hcan1' : can1 = true) by (destruct Hcl1 as [-> | ->]; exact Hcan1).
  assert (Hcan2' : can2 = true) by (destruct Hcl2 as [-> | ->]; exact Hcan2).
  clear Hcan1 Hcan2. subst can1 can2.
  unfold numberToken in *.
  unfold calcExpr, _stateMachine.
  destruct (_comparePriority (mkToken prm1 ty1 cl1 true fp1)
                             (mkToken prm2 ty2 cl2 true fp2)) eqn:Hc.
  - eassert (Hrun : mainLoop _exFunctions expr 6 (mkMachine [] IdAndUnary 0 [] 1 w)
                    = Ok _).
    { pass P1. destruct Hcl1 as [-> | ->], Hcl2 as [-> | ->].
      all: pass P2; pass P3; pass P4; rewrite Hc.
      all: cbv -[mainLoop parser _calcBinary _comparePriority].
      all: rewrite B1.
      all: cbv -[mainLoop parser _calcBinary _comparePriority].
      all: pass P5.
      all: rewrite mainLoop_S.
      all: cbn [pos world state stack startPoint startPoints isBinaryState negb].
      all: rewrite (parser_at_end w expr q5 false Hend).
      all: reflexivity. }
    rewrite (mainLoop_enough _ _ _ _ _ Hrun I ltac:(lia)).
    cbv -[_calcBinary]. rewrite B2. reflexivity.
  - pose proof (_comparePriority_flip _ _ Hc) as Hc'.
    eassert (Hrun : mainLoop _exFunctions expr 6 (mkMachine [] IdAndUnary 0 [] 1 w)
                    = Ok _).
    { pass P1. destruct Hcl1 as [-> | ->], Hcl2 as [-> | ->].
      all: pass P2; pass P3; pass P4; rewrite Hc.
      all: cbv -[mainLoop parser _calcBinary _comparePriority].
      all: pass P5; rewrite Hc'.
      all: cbv -[mainLoop parser _calcBinary _comparePriority].
      all: rewrite B2.
      all: cbv -[mainLoop parser _calcBinary _comparePriority].
      all: rewrite mainLoop_S.
      all: cbn [pos world state stack startPoint startPoints isBinaryState negb].
      all: rewrite (parser_at_end w expr q5 false Hend).
      all: reflexivity. }
    rewrite (mainLoop_enough _ _ _ _ _ Hrun I ltac:(lia)).
    cbv -[_calcBinary]. rewrite B1. reflexivity.
Qed.

End Tokens.



Section NumeralExpressions.
Local Open Scope nat_scope.
Local Open Scope list_scope.

Variable _exFunctions : string -> option ExprFunc.
Variable w : World.

Lemma plainNumeral_not_eq (s r : string) :
  plainNumeral s = true -> chIs (charAt (String.append s r) 0) "=" = false.
Proof.
  destruct s as [|c s']; [discriminate|].
  change (charAt (String.append (String c s') r) 0) with (Some c).
  simpl.
  destruct (Ascii.eqb c "-" || Ascii.eqb c "+") eqn:Hs.
  - intros _. clear -Hs. destruct c as [[] [] [] [] [] [] [] []];
      vm_compute in Hs |- *; try discriminate Hs; auto.
  - intros H. apply andb_prop in H as [Hd _].
    clear -Hd. destruct c as [[] [] [] [] [] [] [] []]; vm_compute in Hd |- *;
      try discriminate Hd; auto.
Qed.

Lemma spaces_not_eq (sp r : string) :
  allChars isSpace sp = true -> chIs (charAt r 0) "=" = false ->
  chIs (charAt (String.append sp r) 0) "=" = false.
Proof.
  intros Hsp Hr. destruct sp as [|c sp]; [exact Hr|].
  simpl in *. apply andb_prop in Hsp as [Hc _]. unfold isSpace in Hc.
  apply Ascii.eqb_eq in Hc. subst c. reflexivity.
Qed.

Lemma symbol_start (sym r : string) (ty : TokenType.t) :
  Str2TokenType sym = Some ty ->
  startsOutside isDigitOrPoint (String.append sym r) = true.
Proof.
  intros H. apply Str2TokenType_cases in H. cbn [In] in H.
  repeat (destruct H as [[= <- <-]|H]); [ .. | contradiction ]; reflexivity.
Qed.

Lemma numericOf_class (ty : TokenType.t) (f : number -> number -> number) :
  numericOf ty = Some f ->
  lookupClass ty = TokenClass.Binary \/ lookupClass ty = TokenClass.Unary.
Proof. destruct ty; intros [= <-]; cbv; auto. Qed.

(** What the lexer reads at an operator symbol, in the state where a sign
    is an operator, with spaces before it and an operand after it. *)
Lemma parser_operator (expr : string) (pos : nat) (sp sym sp' s rest : string)
    (ty : TokenType.t) :
  strDrop pos expr
  = String.append sp (String.append sym (String.append sp'
                                           (String.append s rest))) ->
  allChars isSpace sp = true -> allChars isSpace sp' = true ->
  Str2TokenType sym = Some ty -> plainNumeral s = true ->
  parser w expr pos false
  = Ok (symbolToken sym ty, pos + String.length sp + String.length sym).
Proof.
  intros H Hsp Hsp' Hty Hs.
  rewrite (parser_spaces w expr pos sp _ false H Hsp).
  apply parser_symbol with (rest := String.append sp' (String.append s rest)).
  - exact Hty.
  - exact (strDrop_app _ _ _ _ H).
  - unfold symbolStops.
    rewrite (spaces_not_eq _ _ Hsp' (plainNumeral_not_eq s rest Hs)).
    rewrite !andb_false_r. reflexivity.
Qed.

Lemma parser_operand (expr : string) (pos : nat) (sp s rest : string) :
  strDrop pos expr = String.append sp (String.append s rest) ->
  allChars isSpace sp = true -> plainNumeral s = true ->
  startsOutside isDigitOrPoint rest = true ->
  parser w expr pos true
  = Ok (numberToken (parseFloat s), pos + String.length sp + String.length s).
Proof.
  intros H Hsp Hs Hr.
  rewrite (parser_spaces w expr pos sp _ true H Hsp).
  exact (parser_numeral w expr _ s rest (strDrop_app _ _ _ _ H) Hs Hr).
Qed.

(** X5.  An expression of two plain numerals around an operator symbol,
    with or without spaces about the symbol: the arithmetic operators
    [+ - * / %] give what they give on the two numbers, the comparisons
    [== != < > <= >=] give 1 or 0; the store is left as it was. *)
Theorem calcExpr_operator_on_two_numerals (s1 sp1 sym sp2 s2 : string)
    (ty : TokenType.t) (f : number -> number -> number) :
  plainNumeral s1 = true -> plainNumeral s2 = true ->
  allChars isSpace sp1 = true -> allChars isSpace sp2 = true ->
  Str2TokenType sym = Some ty -> numericOf ty = Some f ->
  calcExpr _exFunctions
    (String "=" (String.append s1 (String.append sp1
                   (String.append sym (String.append sp2 s2))))) w
  = Ok (RNumber (f (parseFloat s1) (parseFloat s2)), w).
Proof.
  intros Hs1 Hs2 Hsp1 Hsp2 Hty Hf.
  set (expr := String "=" _).
  assert (H0 : strDrop 1 expr
               = String.append EmptyString (String.append s1 (String.append sp1
                   (String.append sym (String.append sp2
                      (String.append s2 EmptyString))))))
    by (rewrite String_append_empty; reflexivity).
  pose proof (parser_operand expr 1 _ _ _ H0 eq_refl Hs1
                (startsOutside_spaced _ _ _ eq_refl Hsp1 (symbol_start _ _ _ Hty)))
    as P1.
  pose proof (strDrop_app _ _ _ _ (strDrop_app _ _ _ _ H0)) as H1.
  pose proof (parser_operator expr _ _ _ _ _ _ _ H1 Hsp1 Hsp2 Hty Hs2) as P2.
  pose proof (strDrop_app _ _ _ _ (strDrop_app _ _ _ _ H1)) as H2.
  pose proof (parser_operand expr _ _ _ _ H2 Hsp2 Hs2 eq_refl) as P3.
  pose proof (strDrop_app _ _ _ _ (strDrop_app _ _ _ _ H2)) as H3.
  rewrite (calcExpr_value_operator_value _exFunctions expr w _ _ _ _ _ _ P1 P2
             (numericOf_class _ _ Hf) P3).
  - exact (f_equal resultOf
             (_calcBinary_numbers expr w (symbolToken sym ty) _ _ f Hf)).
  - exact (strDrop_end _ _ H3).
Qed.

(** X6.  An expression of three plain numerals and two operator symbols is
    grouped by the priorities of the two: from the left when the first
    operator binds at least as tightly as the second, and from the right
    otherwise. *)
Theorem calcExpr_two_operators_follow_priority
    (s1 sp1 sym1 sp2 s2 sp3 sym2 sp4 s3 : string) (ty1 ty2 : TokenType.t)
    (f1 f2 : number -> number -> number) :
  plainNumeral s1 = true -> plainNumeral s2 = true -> plainNumeral s3 = true ->
  allChars isSpace sp1 = true -> allChars isSpace sp2 = true ->
  allChars isSpace sp3 = true -> allChars isSpace sp4 = true ->
  Str2TokenType sym1 = Some ty1 -> numericOf ty1 = Some f1 ->
  Str2TokenType sym2 = Some ty2 -> numericOf ty2 = Some f2 ->
  calcExpr _exFunctions
    (String "=" (String.append s1 (String.append sp1 (String.append sym1
       (String.append sp2 (String.append s2 (String.append sp3
          (String.append sym2 (String.append sp4 s3))))))))) w
  = Ok (RNumber
          (if _comparePriority (symbolToken sym1 ty1) (symbolToken sym2 ty2)
           then f2 (f1 (parseFloat s1) (parseFloat s2)) (parseFloat s3)
           else f1 (parseFloat s1) (f2 (parseFloat s2) (parseFloat s3))), w).
Proof.
  intros Hs1 Hs2 Hs3 Hsp1 Hsp2 Hsp3 Hsp4 Hty1 Hf1 Hty2 Hf2.
  set (expr := String "=" _).
  assert (H0 : strDrop 1 expr
               = String.append EmptyString (String.append s1 (String.append sp1
                   (String.append sym1 (String.append sp2 (String.append s2
                     (String.append sp3 (String.append sym2
                        (String.append sp4 (String.append s3 EmptyString))))))))))
    by (rewrite String_append_empty; reflexivity).
  pose proof (parser_operand expr 1 _ _ _ H0 eq_refl Hs1
                (startsOutside_spaced _ _ _ eq_refl Hsp1 (symbol_start _ _ _ Hty1)))
    as P1.
  pose proof (strDrop_app _ _ _ _ (strDrop_app _ _ _ _ H0)) as H1.
  pose proof (parser_operator expr _ _ _ _ _ _ _ H1 Hsp1 Hsp2 Hty1 Hs2) as P2.
  pose proof (strDrop_app _ _ _ _ (strDrop_app _ _ _ _ H1)) as H2.
  pose proof (parser_operand expr _ _ _ _ H2 Hsp2 Hs2
                (startsOutside_spaced _ _ _ eq_refl Hsp3 (symbol_start _ _ _ Hty2)))
    as P3.
  pose proof (strDrop_app _ _ _ _ (strDrop_app _ _ _ _ H2)) as H3.
  pose proof (parser_operator expr _ _ _ _ _ _ _ H3 Hsp3 Hsp4 Hty2 Hs3) as P4.
  pose proof (strDrop_app _ _ _ _ (strDrop_app _ _ _ _ H3)) as H4.
  pose proof (parser_operand expr _ _ _ _ H4 Hsp4 Hs3 eq_refl) as P5.
  pose proof (strDrop_app _ _ _ _ (strDrop_app _ _ _ _ H4)) as H5.
  exact (calcExpr_three_numbers _exFunctions expr w _ _ _
           (symbolToken sym1 ty1) (symbolToken sym2 ty2) f1 f2 _ _ _ _ _
           P1 P2 P3 P4 P5 (strDrop_end _ _ H5)
           (numericOf_class _ _ Hf1) (numericOf_class _ _ Hf2) Hf1 Hf2).
Qed.

End NumeralExpressions.

Section SmallExpressions.
Local Open Scope nat_scope.
Local Open Scope list_scope.

Variable _exFunctions : string -> option ExprFunc.
Variable w : World.


(** X8.  A quoted text alone is its own value, with the escapes replaced:
    backslash-quote by a quote and backslash-n by a new line. *)
Theorem calcExpr_of_a_quoted_text (body : string) :
  quotedBody "'" body = true ->
  calcExpr _exFunctions (String "=" (String "'" (String.append body "'"))) w
  = Ok (RString (unescape body), w).
Proof.
  intros Hb. set (expr := String "=" _).
  assert (H0 : strDrop 1 expr = String "'" (String.append body (String "'" "")))
    by reflexivity.
  pose proof (parser_string w expr 1 body _ true H0 Hb) as P.
  apply (calcExpr_single_value _exFunctions expr w _ _ P).
  subst expr. cbn [String.length]. rewrite String_length_append. simpl. lia.
Qed.

Lemma identifier_start (name r : string) :
  identifier name = true ->
  isDigit (charAt (String.append name r) 0) = false
  /\ chIs (charAt (String.append name r) 0) "=" = false.
Proof.
  destruct name as [|c s']; [discriminate|].
  change (charAt (String.append (String c s') r) 0) with (Some c).
  simpl. intros H. apply andb_prop in H as [Hc _].
  clear -Hc. destruct c as [[] [] [] [] [] [] [] []]; vm_compute in Hc |- *;
    try discriminate Hc; auto.
Qed.

(** X9.  A sign before a variable, at the start of an expression: [-]
    negates a number and [+] leaves it; a logical value counts as 1 or 0;
    a text or an array under a sign throws. *)
Theorem calcExpr_sign_before_a_variable (minus : bool) (name : string) :
  identifier name = true -> opNameIndex name = None ->
  let expr := String "=" (String (if minus then "-" else "+")%char name) in
  let signed (n : number) := if minus then (- n)%float else n in
  calcExpr _exFunctions expr w
  = match readVar w name with
    | Some (VNumber n) => Ok (RNumber (signed n), w)
    | Some (VBoolean b) => Ok (RNumber (signed (if b then ofZ 1 else ofZ 0)), w)
    | Some (VString _) | Some (VArray _) => err expr UnaryErr
    | Some VUnsupported => err expr (UnsupportedTypeOf name)
    | None => err expr (UnknownVariable name)
    end.
Proof.
  intros Hn Hop.
  destruct (identifier_start name EmptyString Hn) as [Hd He].
  rewrite String_append_empty in Hd, He.
  destruct minus; cbv zeta.
  all: match goal with
       | |- calcExpr _ ?e _ = _ => set (expr := e)
       end.
  all: match goal with
       | expr := String _ (String ?c _) |- _ =>
           set (sym := String c EmptyString)
       end.
  all: assert (H0 : strDrop 1 expr
                    = String.append sym (String.append name EmptyString))
         by (rewrite String_append_empty; reflexivity).
  all: eassert (P1 : parser w expr 1 true = Ok (symbolToken sym _, 2));
    [ apply (parser_symbol w expr 1 sym (String.append name EmptyString) _ true);
      [ reflexivity | exact H0
      | unfold symbolStops;
        rewrite String_append_empty, Hd, He, !andb_false_r; reflexivity ]
    | ].
  all: pose proof (strDrop_app _ _ _ _ H0) as H1.
  all: change (1 + String.length sym) with 2 in H1.
  all: pose proof (parser_variable w expr 2 name _ true H1 Hn eq_refl eq_refl Hop)
         as P2.
  all: pose proof (strDrop_end _ _ (strDrop_app _ _ _ _ H1)) as Hend.
  all: unfold calcExpr, _stateMachine.
  all: destruct (readVar w name) as [[n|s|b|a|]|].
  all: eassert (Hrun : mainLoop _exFunctions expr 3 (mkMachine [] IdAndUnary 0 [] 1 w)
                       = _);
    [ rewrite mainLoop_S;
      cbn [pos world state stack startPoint startPoints isBinaryState negb];
      rewrite P1;
      cbv -[mainLoop parser expr]; rewrite mainLoop_S;
      cbn [pos world state stack startPoint startPoints isBinaryState negb];
      rewrite P2; cbv -[mainLoop parser String.length Nat.add expr];
      try (rewrite mainLoop_S;
           cbn [pos world state stack startPoint startPoints isBinaryState negb];
           rewrite (parser_at_end w expr _ false Hend);
           cbv -[mainLoop parser String.length Nat.add expr]);
      reflexivity
    | ].
  all: rewrite (mainLoop_enough _ _ _ _ _ Hrun I
                  ltac:(subst expr; cbn [String.length]; lia)).
  all: try destruct b.
  all: reflexivity.
Qed.

End SmallExpressions.

Section TextOperands.
Local Open Scope nat_scope.
Local Open Scope list_scope.

Variable _exFunctions : string -> option ExprFunc.
Variable w : World.

Lemma symbolStops_operator (sym rest : string) :
  chIs (charAt rest 0) "=" = false -> symbolStops sym rest false = true.
Proof.
  intros H. unfold symbolStops. rewrite H, !andb_false_r. reflexivity.
Qed.

(** What a binary operator makes of a text and a number, in either order:
    [+] joins the texts of the two, every other operator throws. *)
Lemma _calcBinary_text_number (expr : string) (op : Token) (t : string)
    (n : number) (f : number -> number -> number) :
  numericOf (tkType op) = Some f ->
  resultOf (_calcBinary expr w op (stringToken t) (numberToken n))
  = (if TokenType.eqb (tkType op) TokenType.Plus
     then Ok (RString (String.append t (toString n)), w)
     else err expr ThisOpOnlySupportsNumbers)
  /\ resultOf (_calcBinary expr w op (numberToken n) (stringToken t))
     = (if TokenType.eqb (tkType op) TokenType.Plus
        then Ok (RString (String.append (toString n) t), w)
        else err expr ThisOpOnlySupportsNumbers).
Proof.
  destruct op as [prm ty cl can fp]. cbn [tkType].
  destruct ty; intros [= <-]; split; reflexivity.
Qed.

(** X12.  Between a quoted text and a plain numeral, in either order, [+]
    gives the text of the two joined, the number in its decimal text; every
    other operator symbol throws: only numbers are compared, subtracted,
    multiplied or divided. *)
Theorem calcExpr_text_and_number (body s sym : string) (ty : TokenType.t)
    (f : number -> number -> number) :
  quotedBody "'" body = true -> plainNumeral s = true ->
  Str2TokenType sym = Some ty -> numericOf ty = Some f ->
  let quoted := String "'" (String.append body "'") in
  let expr1 := String "=" (String.append quoted (String.append sym s)) in
  let expr2 := String "=" (String.append s (String.append sym quoted)) in
  calcExpr _exFunctions expr1 w
  = (if TokenType.eqb ty TokenType.Plus
     then Ok (RString (String.append (unescape body) (toString (parseFloat s))), w)
     else err expr1 ThisOpOnlySupportsNumbers)
  /\ calcExpr _exFunctions expr2 w
     = (if TokenType.eqb ty TokenType.Plus
        then Ok (RString (String.append (toString (parseFloat s)) (unescape body)), w)
        else err expr2 ThisOpOnlySupportsNumbers).
Proof.
  intros Hb Hs Hty Hf quoted expr1 expr2.
  pose proof (numericOf_class _ _ Hf) as Hcl.
  split.
  - assert (H0 : strDrop 1 expr1
                 = String "'" (String.append body (String "'"
                     (String.append sym (String.append s EmptyString))))).
    { subst expr1 quoted. rewrite String_append_empty. cbn [strDrop].
      change (String "'" (String.append (String.append body "'") (String.append sym s))
              = String "'" (String.append body (String "'" (String.append sym s)))).
      rewrite String_append_assoc. reflexivity. }
    pose proof (parser_string w expr1 1 body _ true H0 Hb) as P1.
    pose proof (strDrop_next _ _ _ _ (strDrop_app _ _ _ _ (strDrop_next _ _ _ _ H0)))
      as H1.
    pose proof (parser_symbol w expr1 _ sym _ ty false Hty H1
                  (symbolStops_operator _ _ (plainNumeral_not_eq s _ Hs))) as P2.
    pose proof (strDrop_app _ _ _ _ H1) as H2.
    pose proof (parser_numeral w expr1 _ s _ H2 Hs eq_refl) as P3.
    pose proof (strDrop_end _ _ (strDrop_app _ _ _ _ H2)) as Hend.
    rewrite (calcExpr_value_operator_value _exFunctions expr1 w _ _ _ _ _ _
               P1 P2 Hcl P3 Hend).
    exact (proj1 (_calcBinary_text_number expr1 (symbolToken sym ty) _ _ f Hf)).
  - assert (H0 : strDrop 1 expr2
                 = String.append s (String.append sym (String "'"
                     (String.append body (String "'" EmptyString)))))
      by reflexivity.
    pose proof (parser_numeral w expr2 1 s _ H0 Hs (symbol_start _ _ _ Hty)) as P1.
    pose proof (strDrop_app _ _ _ _ H0) as H1.
    pose proof (parser_symbol w expr2 _ sym _ ty false Hty H1
                  (symbolStops_operator sym (String "'" (String.append body "'"))
                     eq_refl)) as P2.
    pose proof (strDrop_app _ _ _ _ H1) as H2.
    pose proof (parser_string w expr2 _ body _ true H2 Hb) as P3.
    pose proof (strDrop_end _ _ (strDrop_next _ _ _ _ (strDrop_app _ _ _ _
                  (strDrop_next _ _ _ _ H2)))) as Hend.
    rewrite (calcExpr_value_operator_value _exFunctions expr2 w _ _ _ _ _ _
               P1 P2 Hcl P3).
    + exact (proj2 (_calcBinary_text_number expr2 (symbolToken sym ty) _ _ f Hf)).
    + lia.
Qed.

End TextOperands.

(* ===================================================================== *)
(** ** Groups of arguments: calls and array literals *)
(* ===================================================================== *)

Section Groups.
Local Open Scope nat_scope.
Local Open Scope list_scope.

Variable _exFunctions : string -> option ExprFunc.
Variable expr : string.
Variable w : World.

(** The passes over an argument and the comma after it. *)
Lemma mainLoop_argument_comma (fuel : nat) (prm p : ExFuncParam)
    (ty : TokenType.t) (cl : TokenClass.t) (ps : list ExFuncParam)
    (comma : Token) (q0 q1 q2 : nat) :
  cl = TokenClass.Function \/ cl = TokenClass.ArrayOpen ->
  parser w expr q0 true = Ok (valueToken p, q1) ->
  parser w expr q1 false = Ok (comma, q2) ->
  tkClass comma = TokenClass.Comma ->
  mainLoop _exFunctions expr (S (S fuel))
    (mkMachine [mkToken prm ty cl false ps] IdAndUnary 1 [1] q0 w)
  = mainLoop _exFunctions expr fuel
      (mkMachine [mkToken prm ty cl false (ps ++ [p])] IdAndUnary 1 [1] q2 w).
Proof.
  intros Hcl P1 P2 Hc. destruct comma as [cp cty ccl cb cf]. cbn in Hc. subst ccl.
  destruct Hcl as [-> | ->]; pass P1; pass P2; reflexivity.
Qed.

(** The passes over the last argument and the closing token. *)
Lemma mainLoop_argument_close (fuel : nat) (prm p : ExFuncParam)
    (ty : TokenType.t) (cl : TokenClass.t) (ps : list ExFuncParam)
    (close : Token) (q0 q1 q2 : nat) :
  cl = TokenClass.Function \/ cl = TokenClass.ArrayOpen ->
  parser w expr q0 true = Ok (valueToken p, q1) ->
  parser w expr q1 false = Ok (close, q2) ->
  tkClass close = TokenClass.ParamClose \/ tkClass close = TokenClass.ArrayClose ->
  mainLoop _exFunctions expr (S (S fuel))
    (mkMachine [mkToken prm ty cl false ps] IdAndUnary 1 [1] q0 w)
  = closeGroup _exFunctions expr w (mkToken prm ty cl false (ps ++ [p]))
    ≫= fun '(token, w') =>
         mainLoop _exFunctions expr fuel (mkMachine [token] Binary 0 [] q2 w').
Proof.
  intros Hcl P1 P2 Hc. destruct close as [cp cty ccl cb cf]. cbn in Hc.
  destruct Hcl as [-> | ->], Hc as [-> | ->]; pass P1; pass P2.
  all: unfold closeGroup; cbn [tkClass TokenClass.eqb TokenClass.index Nat.eqb].
  all: try reflexivity.
  all: destruct (_execExprFunction _ _ _ _) as [[t w']| |]; reflexivity.
Qed.

(** The pass over a closing token right after the opening one. *)
Lemma mainLoop_no_argument (fuel : nat) (prm : ExFuncParam)
    (ty : TokenType.t) (cl : TokenClass.t) (ps : list ExFuncParam)
    (close : Token) (q0 q1 : nat) :
  cl = TokenClass.Function \/ cl = TokenClass.ArrayOpen ->
  parser w expr q0 true = Ok (close, q1) ->
  tkClass close = TokenClass.ParamClose \/ tkClass close = TokenClass.ArrayClose ->
  mainLoop _exFunctions expr (S fuel)
    (mkMachine [mkToken prm ty cl false ps] IdAndUnary 1 [1] q0 w)
  = closeGroup _exFunctions expr w (mkToken prm ty cl false ps)
    ≫= fun '(token, w') =>
         mainLoop _exFunctions expr fuel (mkMachine [token] Binary 0 [] q1 w').
Proof.
  intros Hcl P1 Hc. destruct close as [cp cty ccl cb cf]. cbn in Hc.
  destruct Hcl as [-> | ->], Hc as [-> | ->]; pass P1.
  all: unfold closeGroup; cbn [tkClass TokenClass.eqb TokenClass.index Nat.eqb].
  all: try reflexivity.
  all: destruct (_execExprFunction _ _ _ _) as [[t w']| |]; reflexivity.
Qed.

Lemma parser_comma (pos : nat) (rest : string) :
  strDrop pos expr = String "," rest ->
  parser w expr pos false = Ok (symbolToken "," TokenType.Comma, S pos).
Proof.
  intros H.
  rewrite (parser_symbol w expr pos "," rest TokenType.Comma false eq_refl H eq_refl).
  rewrite Nat.add_1_r. reflexivity.
Qed.

Lemma parser_close (pos : nat) (close rest : string) (checkSign : bool)
    (ty : TokenType.t) :
  (close, ty) = (")", TokenType.ParamClose)
  \/ (close, ty) = ("]", TokenType.ArrayClose) ->
  strDrop pos expr = String.append close rest ->
  parser w expr pos checkSign = Ok (symbolToken close ty, S pos)
  /\ (tkClass (symbolToken close ty) = TokenClass.ParamClose
      \/ tkClass (symbolToken close ty) = TokenClass.ArrayClose)
  /\ String.length close = 1
  /\ forall r, startsOutside isDigitOrPoint (String.append close r) = true.
Proof.
  intros Hc H. destruct Hc as [Hc | Hc]; injection Hc as -> ->.
  - rewrite (parser_symbol w expr pos ")" rest _ checkSign eq_refl H);
      [ | reflexivity ].
    rewrite Nat.add_1_r. repeat split; auto.
  - rewrite (parser_symbol w expr pos "]" rest _ checkSign eq_refl H);
      [ | reflexivity ].
    rewrite Nat.add_1_r. repeat split; auto.
Qed.

(** The passes over a list of numerals between an opening token and the
    closing one: the numbers are collected as the arguments, in their
    order, and the group is closed. *)
Lemma mainLoop_arguments (ss : list string) (fuel : nat) (prm : ExFuncParam)
    (ty clty : TokenType.t) (cl : TokenClass.t) (ps : list ExFuncParam)
    (close rest : string) (p : nat) :
  ss <> [] -> forallb plainNumeral ss = true ->
  cl = TokenClass.Function \/ cl = TokenClass.ArrayOpen ->
  (close, clty) = (")", TokenType.ParamClose)
  \/ (close, clty) = ("]", TokenType.ArrayClose) ->
  strDrop p expr
  = String.append (commaSeparated ss) (String.append close rest) ->
  mainLoop _exFunctions expr (2 * length ss + fuel)
    (mkMachine [mkToken prm ty cl false ps] IdAndUnary 1 [1] p w)
  = closeGroup _exFunctions expr w
      (mkToken prm ty cl false
               (ps ++ map (fun s => numberParam (parseFloat s)) ss))
    ≫= fun '(token, w') =>
         mainLoop _exFunctions expr fuel
           (mkMachine [token] Binary 0 []
                      (p + String.length (commaSeparated ss) + 1) w').
Proof.
  intros Hne Hall Hcl Hclose. revert ps p Hne Hall.
  induction ss as [|s ss IH]; intros ps p Hne Hall H; [contradiction|].
  destruct ss as [|s' r].
  - cbn [forallb] in Hall. apply andb_prop in Hall as [Hs _].
    cbn [commaSeparated] in H |- *.
    destruct (parser_close (p + String.length s) close rest false clty Hclose
                (strDrop_app _ _ _ _ H)) as (P2 & Hc & _ & Hout).
    pose proof (parser_numeral w expr p s _ H Hs (Hout rest)) as P1.
    change (2 * length [s] + fuel) with (S (S fuel)).
    rewrite (mainLoop_argument_close fuel prm _ ty cl ps _
               _ _ _ Hcl P1 P2 Hc).
    rewrite Nat.add_1_r. reflexivity.
  - cbn [forallb] in Hall. apply andb_prop in Hall as [Hs Hall].
    change (commaSeparated (s :: s' :: r))
      with (String.append s (String "," (commaSeparated (s' :: r)))) in H |- *.
    assert (H' : strDrop p expr
                 = String.append s (String ","
                     (String.append (commaSeparated (s' :: r))
                                    (String.append close rest)))).
    { rewrite H. clear. induction s as [|c s IHs]; [reflexivity|].
      change (String c (String.append (String.append s (String "," (commaSeparated (s' :: r))))
                                      (String.append close rest))
              = String c (String.append s (String "," (String.append (commaSeparated (s' :: r))
                                      (String.append close rest))))).
      f_equal. exact IHs. }
    pose proof (parser_numeral w expr p s _ H' Hs eq_refl) as P1.
    pose proof (strDrop_app _ _ _ _ H') as H1.
    pose proof (parser_comma _ _ H1) as P2.
    pose proof (strDrop_next _ _ _ _ H1) as H2.
    replace (2 * length (s :: s' :: r) + fuel)
      with (S (S (2 * length (s' :: r) + fuel))) by (simpl; lia).
    rewrite (mainLoop_argument_comma _ prm _ ty cl ps _
               _ _ _ Hcl P1 P2 eq_refl).
    rewrite (IH _ _ ltac:(discriminate) Hall H2).
    cbn [map]. rewrite <- app_assoc. cbn [app].
    replace (S (p + String.length s) + String.length (commaSeparated (s' :: r)) + 1)
      with (p + String.length (String.append s (String "," (commaSeparated (s' :: r)))) + 1)
      by (rewrite String_length_append; cbn [String.length]; lia).
    reflexivity.
Qed.

(** The pass over the token that opens a group of arguments, at the start
    of the expression. *)
Lemma mainLoop_open (fuel : nat) (prm : ExFuncParam) (ty : TokenType.t)
    (cl : TokenClass.t) (fp : list ExFuncParam) (q : nat) :
  cl = TokenClass.Function \/ cl = TokenClass.ArrayOpen ->
  parser w expr 1 true = Ok (mkToken prm ty cl false fp, q) ->
  mainLoop _exFunctions expr (S fuel) (mkMachine [] IdAndUnary 0 [] 1 w)
  = mainLoop _exFunctions expr fuel
      (mkMachine [mkToken prm ty cl false []] IdAndUnary 1 [1] q w).
Proof. intros [-> | ->] P; pass P; reflexivity. Qed.

(** The pass that meets the end of the text. *)
Lemma mainLoop_end (fuel : nat) (m : Machine) :
  String.length expr <= pos m ->
  mainLoop _exFunctions expr (S fuel) m = Ok m.
Proof.
  intros H. rewrite mainLoop_S, (parser_at_end (world m) expr) by exact H.
  destruct m; reflexivity.
Qed.

Lemma commaSeparated_length (ss : list string) :
  forallb plainNumeral ss = true ->
  2 * length ss <= S (String.length (commaSeparated ss)).
Proof.
  induction ss as [|s ss IH]; [simpl; lia|].
  cbn [forallb]. intros H. apply andb_prop in H as [Hs Hall].
  assert (1 <= String.length s) by (destruct s; [discriminate Hs | simpl; lia]).
  destruct ss as [|s' r]; [simpl; lia|].
  change (commaSeparated (s :: s' :: r))
    with (String.append s (String "," (commaSeparated (s' :: r)))).
  rewrite String_length_append. cbn [String.length].
  specialize (IH Hall). cbn [length] in IH |- *. lia.
Qed.

End Groups.

Section GroupExpressions.
Local Open Scope nat_scope.
Local Open Scope list_scope.

Variable _exFunctions : string -> option ExprFunc.
Variable w : World.

(** The run of an expression that is one group of numerals. *)
Lemma calcExpr_group (expr opening close : string) (ss : list string)
    (prm : ExFuncParam) (ty clty : TokenType.t) (cl : TokenClass.t)
    (fp : list ExFuncParam) :
  expr = String "=" (String.append opening
                       (String.append (commaSeparated ss) close)) ->
  parser w expr 1 true
  = Ok (mkToken prm ty cl false fp, S (String.length opening)) ->
  cl = TokenClass.Function \/ cl = TokenClass.ArrayOpen ->
  (close, clty) = (")", TokenType.ParamClose)
  \/ (close, clty) = ("]", TokenType.ArrayClose) ->
  1 <= String.length opening ->
  forallb plainNumeral ss = true ->
  calcExpr _exFunctions expr w
  = '(token, w') ← closeGroup _exFunctions expr w
                     (mkToken prm ty cl false
                        (map (fun s => numberParam (parseFloat s)) ss));
    if negb (TokenClass.eqb (tkClass token) TokenClass.Value)
    then err expr NotAValue
    else Ok (_valueOfToken token, w').
Proof.
  intros He P0 Hcl Hclose Hop Hall.
  assert (H0 : strDrop 1 expr
               = String.append opening
                   (String.append (commaSeparated ss) (String.append close "")))
    by (rewrite String_append_empty, He; reflexivity).
  pose proof (strDrop_app _ _ _ _ H0) as H1.
  change (1 + String.length opening) with (S (String.length opening)) in H1.
  assert (Hlen : String.length expr
                 = S (String.length opening + String.length (commaSeparated ss) + 1)).
  { rewrite He. cbn [String.length]. rewrite !String_length_append.
    destruct Hclose as [[= -> _] | [= -> _]]; cbn [String.length]; lia. }
  pose proof (commaSeparated_length ss Hall) as Hcs.
  unfold calcExpr, _stateMachine.
  set (q := S (String.length opening)) in *.
  assert (Hfinal : forall token w' fuel,
    mainLoop _exFunctions expr (S fuel)
      (mkMachine [token] Binary 0 []
                 (q + String.length (commaSeparated ss) + 1) w')
    = Ok (mkMachine [token] Binary 0 []
                    (q + String.length (commaSeparated ss) + 1) w')).
  { intros token w' fuel. apply mainLoop_end. cbn [pos]. subst q. lia. }
  destruct ss as [|s r].
  - destruct (parser_close expr w q close "" true clty Hclose H1)
      as (P1 & Hc & _ & _).
    replace (S (String.length expr)) with (S (S (S (String.length opening))))
      by (rewrite Hlen; simpl; lia).
    rewrite (mainLoop_open _exFunctions expr w _ _ _ _ _ _ Hcl P0).
    rewrite (mainLoop_no_argument _exFunctions expr w _ _ _ _ _ _ _ _ Hcl P1 Hc).
    cbn [map].
    destruct (closeGroup _ _ _ _) as [[token w']| |]; [|reflexivity..].
    cbn [mbind Res_bind].
    replace (S q) with (q + String.length (commaSeparated []) + 1)
      by (simpl; lia).
    rewrite Hfinal. reflexivity.
  - replace (S (String.length expr))
      with (S (2 * length (s :: r)
               + S (String.length expr - 2 * length (s :: r) - 1)))
      by lia.
    rewrite (mainLoop_open _exFunctions expr w _ _ _ _ _ _ Hcl P0).
    rewrite (mainLoop_arguments _exFunctions expr w (s :: r) _ prm ty clty cl []
               close "" q ltac:(discriminate) Hall Hcl Hclose H1).
    cbn [app].
    destruct (closeGroup _ _ _ _) as [[token w']| |]; [|reflexivity..].
    cbn [mbind Res_bind]. rewrite Hfinal. reflexivity.
Qed.

(** X10.  A call [name(a1, ..., an)] with plain numerals as arguments
    hands the numbers, in their order, to the function registered under
    the name and returns what that function fills in; a name that is not
    registered is reported when the group closes.  The closing token may be
    a bracket as well as a parenthesis: the two are not told apart. *)
Theorem calcExpr_calls_the_function_with_the_numbers (name close : string)
    (ss : list string) :
  identifier name = true -> String.eqb name "not" = false ->
  close = ")" \/ close = "]" ->
  forallb plainNumeral ss = true ->
  let expr := String "=" (String.append name (String "("
                (String.append (commaSeparated ss) close))) in
  calcExpr _exFunctions expr w
  = match _exFunctions name with
    | None => err expr (UnknownFunction name)
    | Some func =>
        '(res, w') ← func (map (fun s => numberParam (parseFloat s)) ss) w;
        Ok (_valueOfToken (valueToken res), w')
    end.
Proof.
  intros Hn Hnot Hclose Hall expr.
  assert (He : expr = String "=" (String.append (String.append name "(")
                                    (String.append (commaSeparated ss) close)))
    by (rewrite String_append_assoc; reflexivity).
  assert (Hl : String.length (String.append name "(") = S (String.length name))
    by (rewrite String_length_append; simpl; lia).
  assert (P0 : parser w expr 1 true
               = Ok (functionToken name, S (String.length (String.append name "(")))).
  { rewrite Hl. apply (parser_function_name w expr 1 name
                         (String.append (commaSeparated ss) close) true);
      [reflexivity | exact Hn | exact Hnot]. }
  assert (Hclose' : exists clty,
             (close, clty) = (")", TokenType.ParamClose)
             \/ (close, clty) = ("]", TokenType.ArrayClose)).
  { destruct Hclose as [-> | ->]; eexists; [left | right]; reflexivity. }
  destruct Hclose' as [clty Hclose'].
  rewrite (calcExpr_group expr (String.append name "(") close ss _ _ clty _ _
             He P0 (or_introl eq_refl) Hclose' ltac:(lia) Hall).
  unfold closeGroup, _execExprFunction.
  cbn [tkClass TokenClass.eqb TokenClass.index Nat.eqb sValue param funcParams
       default from_option id jsToString].
  destruct (_exFunctions name) as [func|]; [|reflexivity].
  destruct (func _ w) as [[res w']| |]; reflexivity.
Qed.

(** X11.  An array literal [[a1, ..., an]] of plain numerals makes a new
    array object that holds the numbers in their order, and returns it; the
    variables and the arrays that existed are left as they were. *)
Theorem calcExpr_makes_a_new_array (close : string) (ss : list string) :
  close = ")" \/ close = "]" ->
  forallb plainNumeral ss = true ->
  calcExpr _exFunctions
    (String "=" (String "[" (String.append (commaSeparated ss) close))) w
  = Ok (RArray (newAddr w),
        heapPush w (map (fun s => Some (parseFloat s)) ss)).
Proof.
  intros Hclose Hall. set (expr := String "=" _).
  assert (P0 : parser w expr 1 true
               = Ok (symbolToken "[" TokenType.ArrayOpen, S (String.length "["))).
  { apply (parser_symbol w expr 1 "[" (String.append (commaSeparated ss) close)
             TokenType.ArrayOpen true); reflexivity. }
  assert (Hclose' : exists clty,
             (close, clty) = (")", TokenType.ParamClose)
             \/ (close, clty) = ("]", TokenType.ArrayClose)).
  { destruct Hclose as [-> | ->]; eexists; [left | right]; reflexivity. }
  destruct Hclose' as [clty Hclose'].
  rewrite (calcExpr_group expr "[" close ss _ _ clty _ _
             eq_refl P0 (or_intror eq_refl) Hclose' ltac:(simpl; lia) Hall).
  unfold closeGroup, _execArray.
  cbn [tkClass TokenClass.eqb TokenClass.index Nat.eqb funcParams mbind Res_bind
       negb _valueOfToken paTypeIs paType param arrayValue].
  rewrite map_map. reflexivity.
Qed.

End GroupExpressions.

(* ===================================================================== *)
(** ** The check of arguments, the lexer after spaces, the escapes *)
(* ===================================================================== *)

Section CheckParams.
Local Open Scope nat_scope.
Local Open Scope list_scope.

Lemma accepts_test (paramType : ExFuncParamType.t) (pi : ExFuncParam) :
  negb (paTypeIs (paType pi) paramType)
  && negb (ExFuncParamType.eqb paramType ExFuncParamType.Any) = false
  <-> accepts paramType pi.
Proof.
  unfold accepts, paTypeIs.
  destruct (paType pi) as [[]|], paramType; cbn;
    split; intros H; try reflexivity; try discriminate H;
    try (left; reflexivity); try (right; reflexivity);
    destruct H as [H|H]; discriminate H.
Qed.

Lemma checkParamTypes_passes (p : option SValue) (params : list ExFuncParam)
    (paramTypes : list ExFuncParamType.t) (k : nat) :
  checkParamTypes p params paramTypes k = Passes
  <-> forall i paramType, paramTypes !! i = Some paramType ->
        exists pi, params !! (k + i) = Some pi /\ accepts paramType pi.
Proof.
  revert k. induction paramTypes as [|ty rest IH]; intros k; cbn [checkParamTypes].
  - split; [intros _ i paramType H; discriminate H | reflexivity].
  - destruct (params !! k) as [pi|] eqn:Hk.
    + destruct (negb (paTypeIs (paType pi) ty)
                && negb (ExFuncParamType.eqb ty ExFuncParamType.Any)) eqn:Ht.
      * split; [discriminate|]. intros H.
        destruct (H 0 ty eq_refl) as (pi' & Hpi & Hacc).
        rewrite Nat.add_0_r, Hk in Hpi. injection Hpi as <-.
        apply accepts_test in Hacc. congruence.
      * rewrite IH. split.
        -- intros H [|i] paramType Hi.
           ++ injection Hi as <-. exists pi. rewrite Nat.add_0_r.
              split; [exact Hk | apply accepts_test; exact Ht].
           ++ destruct (H i paramType Hi) as (pi' & Hpi & Hacc).
              exists pi'. rewrite Nat.add_succ_r. auto.
        -- intros H i paramType Hi.
           destruct (H (S i) paramType Hi) as (pi' & Hpi & Hacc).
           exists pi'. rewrite Nat.add_succ_r in Hpi. auto.
    + split; [discriminate|]. intros H.
      destruct (H 0 ty eq_refl) as (pi' & Hpi & _).
      rewrite Nat.add_0_r, Hk in Hpi. discriminate Hpi.
Qed.

Lemma checkParamTypes_throws (p : option SValue) (params : list ExFuncParam)
    (paramTypes : list ExFuncParamType.t) (k : nat) (msg : ParamsMsg) :
  checkParamTypes p params paramTypes k = Throws msg ->
  exists i paramType,
    msg = WrongParamType p (k + i)
    /\ paramTypes !! i = Some paramType
    /\ (forall pi, params !! (k + i) = Some pi -> ~ accepts paramType pi)
    /\ forall j ty, j < i -> paramTypes !! j = Some ty ->
         exists pj, params !! (k + j) = Some pj /\ accepts ty pj.
Proof.
  revert k. induction paramTypes as [|ty rest IH]; intros k; cbn [checkParamTypes];
    [discriminate|].
  destruct (params !! k) as [pi|] eqn:Hk.
  - destruct (negb (paTypeIs (paType pi) ty)
              && negb (ExFuncParamType.eqb ty ExFuncParamType.Any)) eqn:Ht.
    + intros [= <-]. exists 0, ty. rewrite Nat.add_0_r.
      repeat split; [ | intros j ty' Hj; lia].
      intros pi' Hpi Hacc. rewrite Hk in Hpi. injection Hpi as <-.
      apply accepts_test in Hacc. congruence.
    + intros H. destruct (IH _ H) as (i & paramType & -> & Hi & Hbad & Hgood).
      exists (S i), paramType. rewrite Nat.add_succ_r.
      repeat split; [exact Hi | exact Hbad |].
      intros [|j] ty' Hj Hty'.
      * injection Hty' as <-. exists pi. rewrite Nat.add_0_r.
        split; [exact Hk | apply accepts_test; exact Ht].
      * destruct (Hgood j ty' ltac:(lia) Hty') as (pj & Hpj & Hacc).
        exists pj. rewrite Nat.add_succ_r. auto.
  - intros [= <-]. exists 0, ty. rewrite Nat.add_0_r.
    repeat split; [ | intros j ty' Hj; lia].
    intros pi' Hpi. rewrite Hk in Hpi. discriminate Hpi.
Qed.

(** X13.  The check of the arguments of a function passes exactly when
    their number is the expected one, where one is expected, and every
    declared type has an argument at its index that is of that type, or of
    any type where the declared type is [Any]; arguments beyond the declared
    types are not looked at. *)
Theorem _checkFuncParams_passes_exactly_when (token : Token) (paramCount : Z)
    (paramTypes : option (list ExFuncParamType.t)) :
  _checkFuncParams token paramCount paramTypes = Passes
  <-> ((paramCount < 0)%Z \/ Z.of_nat (length (funcParams token)) = paramCount)
      /\ forall tys i paramType,
           paramTypes = Some tys -> tys !! i = Some paramType ->
           exists pi, funcParams token !! i = Some pi /\ accepts paramType pi.
Proof.
  unfold _checkFuncParams.
  destruct (Z.leb_spec 0 paramCount) as [Hc|Hc];
    destruct (Z.eqb_spec (Z.of_nat (length (funcParams token))) paramCount)
      as [He|He]; cbn [andb negb].
  2: { split; [discriminate | intros [[H|H] _]; [lia | contradiction]]. }
  all: assert (Hn : (paramCount < 0)%Z
                    \/ Z.of_nat (length (funcParams token)) = paramCount)
         by first [right; assumption | left; lia].
  all: destruct paramTypes as [tys|].
  all: try (split; [ intros _; split; [exact Hn | intros ? ? ? [=]]
                   | reflexivity ]).
  all: rewrite checkParamTypes_passes; split.
  all: try (intros H; split; [exact Hn |];
            intros tys' i ty [= <-]; exact (H i ty)).
  all: intros [_ H] i ty; exact (H tys i ty eq_refl).
Qed.

(** X14.  When the number of arguments is not the expected one, the check
    throws for that, whatever the types; otherwise it throws for the first
    index whose argument is missing or of another type than the declared
    one, and names the function. *)
Theorem _checkFuncParams_reports_the_first_mismatch (token : Token)
    (paramCount : Z) (paramTypes : option (list ExFuncParamType.t))
    (msg : ParamsMsg) :
  _checkFuncParams token paramCount paramTypes = Throws msg ->
  ((0 <= paramCount)%Z /\ Z.of_nat (length (funcParams token)) <> paramCount
   /\ msg = WrongNrParams (sValue token))
  \/ (((paramCount < 0)%Z \/ Z.of_nat (length (funcParams token)) = paramCount)
      /\ exists tys i paramType,
           paramTypes = Some tys /\ msg = WrongParamType (sValue token) i
           /\ tys !! i = Some paramType
           /\ (forall pi, funcParams token !! i = Some pi -> ~ accepts paramType pi)
           /\ forall j ty, j < i -> tys !! j = Some ty ->
                exists pj, funcParams token !! j = Some pj /\ accepts ty pj).
Proof.
  unfold _checkFuncParams.
  destruct (Z.leb_spec 0 paramCount) as [Hc|Hc];
    destruct (Z.eqb_spec (Z.of_nat (length (funcParams token))) paramCount)
      as [He|He]; cbn [andb negb].
  2: { intros [= <-]. left. auto. }
  all: destruct paramTypes as [tys|]; [|discriminate].
  all: intros H; apply checkParamTypes_throws in H
         as (i & paramType & -> & Hi & Hbad & Hgood).
  all: right; split; [ first [right; assumption | left; lia] |].
  all: exists tys, i, paramType; auto.
Qed.

End CheckParams.

Section LexerTheorems.
Local Open Scope nat_scope.
Local Open Scope list_scope.

Variable w : World.
Variable expr : string.

(** X2.  After any spaces, a symbol of the table is read as one token of
    its type and class, and the lexer moves past it: where the symbol is
    not a sign that starts a literal, and not a [<] or [>] that starts [<=]
    or [>=].  The operators and the tokens of a group can follow a binary
    operator; the others cannot. *)
Theorem parser_reads_a_symbol (pos : nat) (sp sym rest : string)
    (ty : TokenType.t) (checkSign : bool) :
  strDrop pos expr = String.append sp (String.append sym rest) ->
  allChars isSpace sp = true ->
  Str2TokenType sym = Some ty ->
  symbolStops sym rest checkSign = true ->
  parser w expr pos checkSign
  = Ok (symbolToken sym ty, pos + String.length sp + String.length sym)
  /\ canBinOp (symbolToken sym ty)
     = match numericOf ty with Some _ => true | None => false end.
Proof.
  intros H Hsp Hty Hstop.
  rewrite (parser_spaces w expr pos sp _ checkSign H Hsp).
  split.
  - exact (parser_symbol w expr _ sym rest ty checkSign Hty
             (strDrop_app _ _ _ _ H) Hstop).
  - apply Str2TokenType_cases in Hty. cbn [In] in Hty.
    repeat (destruct Hty as [[= <- <-]|Hty]); [ .. | contradiction ]; reflexivity.
Qed.

(** X3.  After any spaces, a character that starts no token is reported
    with its offset in the text; so are [=] and [!] when no [=] follows
    them. *)
Theorem parser_reports_an_unknown_character (pos : nat) (sp : string)
    (c : ascii) (rest : string) (checkSign : bool) :
  strDrop pos expr = String.append sp (String c rest) ->
  allChars isSpace sp = true ->
  startsNoToken c = true ->
  chIs (charAt rest 0) "=" = false \/ (c <> "="%char /\ c <> "!"%char) ->
  parser w expr pos checkSign
  = err expr (UnknownToken (String c EmptyString) (pos + String.length sp)).
Proof.
  intros H Hsp Hc Hnext.
  rewrite (parser_spaces w expr pos sp _ checkSign H Hsp).
  exact (parser_unknown_character w expr _ c rest checkSign
           (strDrop_app _ _ _ _ H) Hc Hnext).
Qed.

(** X4.  After any spaces, a name that no parenthesis follows and that is
    no named operator is a variable: the token holds what the variable
    holds, a logical value as 1 or 0 and an array by reference; a name that
    is not bound, or bound to a value of another type, is reported. *)
Theorem parser_reads_a_variable (pos : nat) (sp name rest : string)
    (checkSign : bool) :
  strDrop pos expr = String.append sp (String.append name rest) ->
  allChars isSpace sp = true ->
  identifier name = true -> startsOutside isCharacterOrNum rest = true ->
  chIs (charAt rest 0) "(" = false -> opNameIndex name = None ->
  let pos' := pos + String.length sp + String.length name in
  parser w expr pos checkSign
  = match readVar w name with
    | Some (VNumber n) => Ok (numberToken n, pos')
    | Some (VBoolean b) => Ok (numberToken (if b then ofZ 1 else ofZ 0), pos')
    | Some (VString s) => Ok (stringToken s, pos')
    | Some (VArray a) => Ok (arrayToken a, pos')
    | Some VUnsupported => err expr (UnsupportedTypeOf name)
    | None => err expr (UnknownVariable name)
    end.
Proof.
  intros H Hsp Hn Hr Hp Hop pos'.
  rewrite (parser_spaces w expr pos sp _ checkSign H Hsp).
  exact (parser_variable w expr _ name rest checkSign
           (strDrop_app _ _ _ _ H) Hn Hr Hp Hop).
Qed.

End LexerTheorems.

Section Unescape.
Local Open Scope nat_scope.

Lemma unescape_two (c d : ascii) (r : string) :
  unescape (String c (String d r))
  = if Ascii.eqb c "\" && Ascii.eqb d "n" then String "010" (unescape r)
    else if Ascii.eqb c "\" && Ascii.eqb d "'" then String "'" (unescape r)
    else String c (unescape (String d r)).
Proof. reflexivity. Qed.

(** X15.  Replacing the escapes leaves a text without a backslash as it
    is, and never makes a text longer. *)
Theorem unescape_keeps_plain_text_and_never_grows (s : string) :
  (allChars (fun c => negb (Ascii.eqb c "\")) s = true -> unescape s = s)
  /\ String.length (unescape s) <= String.length s.
Proof.
  split.
  - induction s as [|c r IH]; [reflexivity|].
    cbn [allChars]. intros H. apply andb_prop in H as [Hc Hr].
    apply negb_true_iff in Hc.
    destruct r as [|d r']; [reflexivity|].
    rewrite unescape_two, Hc. cbn [andb]. rewrite (IH Hr). reflexivity.
  - assert (G : forall n s, String.length s <= n ->
                  String.length (unescape s) <= String.length s).
    { clear s. induction n as [|n IH]; intros [|c [|d r']] Hn;
        cbn [String.length] in Hn; try lia; try (cbn; lia).
      rewrite unescape_two.
      destruct (Ascii.eqb c "\" && Ascii.eqb d "n");
        [ cbn [String.length]; specialize (IH r' ltac:(lia)); lia |].
      destruct (Ascii.eqb c "\" && Ascii.eqb d "'");
        [ cbn [String.length]; specialize (IH r' ltac:(lia)); lia |].
      cbn [String.length]. specialize (IH (String d r') ltac:(cbn; lia)).
      cbn [String.length] in IH. lia. }
    exact (G _ s (Nat.le_refl _)).
Qed.

End Unescape.

(* ===================================================================== *)
(** ** Parentheses *)
(* ===================================================================== *)

Section Parentheses.
Local Open Scope nat_scope.
Local Open Scope list_scope.

Variable _exFunctions : string -> option ExprFunc.
Variable expr : string.
Variable w : World.

(** The pass that meets the end of the text, in a run. *)
Ltac last_pass Hend :=
  rewrite mainLoop_S;
  cbn [pos world state stack startPoint startPoints isBinaryState negb];
  rewrite (parser_at_end w expr _ _ Hend).

(** The run on [( a op1 b ) op2 c]. *)
Lemma calcExpr_group_first (a b c : number) (op1 op2 : Token)
    (f1 f2 : number -> number -> number) (q1 q2 q3 q4 q5 q6 q7 : nat) :
  parser w expr 1 true = Ok (symbolToken "(" TokenType.ParamOpen, q1) ->
  parser w expr q1 true = Ok (numberToken a, q2) ->
  parser w expr q2 false = Ok (op1, q3) ->
  parser w expr q3 true = Ok (numberToken b, q4) ->
  parser w expr q4 false = Ok (symbolToken ")" TokenType.ParamClose, q5) ->
  parser w expr q5 false = Ok (op2, q6) ->
  parser w expr q6 true = Ok (numberToken c, q7) ->
  String.length expr <= q7 ->
  tkClass op1 = TokenClass.Binary \/ tkClass op1 = TokenClass.Unary ->
  tkClass op2 = TokenClass.Binary \/ tkClass op2 = TokenClass.Unary ->
  numericOf (tkType op1) = Some f1 -> numericOf (tkType op2) = Some f2 ->
  calcExpr _exFunctions expr w = Ok (RNumber (f2 (f1 a b) c), w).
Proof.
  intros P1 P2 P3 P4 P5 P6 P7 Hend Hcl1 Hcl2 Hf1 Hf2.
  pose proof (parser_canBinOp _ _ _ _ _ _ P3) as Hcan1.
  pose proof (parser_canBinOp _ _ _ _ _ _ P6) as Hcan2.
  pose proof (parser_advance w expr _ _ _ _ P1 ltac:(discriminate)) as [L1 _].
  pose proof (parser_advance w expr _ _ _ _ P2 ltac:(discriminate)) as [L2 _].
  pose proof (parser_advance w expr _ _ _ _ P3
                ltac:(destruct Hcl1 as [-> | ->]; discriminate)) as [L3 _].
  pose proof (parser_advance w expr _ _ _ _ P4 ltac:(discriminate)) as [L4 _].
  pose proof (parser_advance w expr _ _ _ _ P5 ltac:(discriminate)) as [L5 _].
  pose proof (parser_advance w expr _ _ _ _ P6
                ltac:(destruct Hcl2 as [-> | ->]; discriminate)) as [L6 _].
  pose proof (parser_advance w expr _ _ _ _ P7 ltac:(discriminate)) as [L7 L8].
  pose proof (fun x y => _calcBinary_numbers expr w op1 x y f1 Hf1) as B1.
  pose proof (fun x y => _calcBinary_numbers expr w op2 x y f2 Hf2) as B2.
  destruct op1 as [prm1 ty1 cl1 can1 fp1], op2 as [prm2 ty2 cl2 can2 fp2].
  cbn [tkClass canBinOp tkType] in *.
  assert (Hcan1' : can1 = true) by (destruct Hcl1 as [-> | ->]; exact Hcan1).
  assert (Hcan2' : can2 = true) by (destruct Hcl2 as [-> | ->]; exact Hcan2).
  clear Hcan1 Hcan2. subst can1 can2.
  assert (C1 : _comparePriority (mkToken prm1 ty1 cl1 true fp1)
                 (mkToken (mkParam None (Some (SText "(")) None None) TokenType.ParamOpen
                          TokenClass.ParamOpen false []) = false).
  { unfold _comparePriority. cbn [tkType]. destruct ty1; try discriminate Hf1;
      reflexivity. }
  unfold numberToken in *.
  unfold calcExpr, _stateMachine.
  eassert (Hrun : mainLoop _exFunctions expr 8 (mkMachine [] IdAndUnary 0 [] 1 w)
                  = Ok _).
  { pass P1. pass P2. destruct Hcl1 as [-> | ->], Hcl2 as [-> | ->].
    all: pass P3; pass P4; rewrite C1.
    all: cbv -[mainLoop parser _calcBinary _comparePriority].
    all: pass P5; rewrite B1.
    all: cbv -[mainLoop parser _calcBinary _comparePriority].
    all: pass P6; pass P7.
    all: last_pass Hend.
    all: reflexivity. }
  rewrite (mainLoop_enough _ _ _ _ _ Hrun I ltac:(lia)).
  cbv -[_calcBinary]. rewrite B2. reflexivity.
Qed.

(** The run on [a op1 ( b op2 c )]. *)
Lemma calcExpr_group_last (a b c : number) (op1 op2 : Token)
    (f1 f2 : number -> number -> number) (q1 q2 q3 q4 q5 q6 q7 : nat) :
  parser w expr 1 true = Ok (numberToken a, q1) ->
  parser w expr q1 false = Ok (op1, q2) ->
  parser w expr q2 true = Ok (symbolToken "(" TokenType.ParamOpen, q3) ->
  parser w expr q3 true = Ok (numberToken b, q4) ->
  parser w expr q4 false = Ok (op2, q5) ->
  parser w expr q5 true = Ok (numberToken c, q6) ->
  parser w expr q6 false = Ok (symbolToken ")" TokenType.ParamClose, q7) ->
  String.length expr <= q7 ->
  tkClass op1 = TokenClass.Binary \/ tkClass op1 = TokenClass.Unary ->
  tkClass op2 = TokenClass.Binary \/ tkClass op2 = TokenClass.Unary ->
  numericOf (tkType op1) = Some f1 -> numericOf (tkType op2) = Some f2 ->
  calcExpr _exFunctions expr w = Ok (RNumber (f1 a (f2 b c)), w).
Proof.
  intros P1 P2 P3 P4 P5 P6 P7 Hend Hcl1 Hcl2 Hf1 Hf2.
  pose proof (parser_canBinOp _ _ _ _ _ _ P2) as Hcan1.
  pose proof (parser_canBinOp _ _ _ _ _ _ P5) as Hcan2.
  pose proof (parser_advance w expr _ _ _ _ P1 ltac:(discriminate)) as [L1 _].
  pose proof (parser_advance w expr _ _ _ _ P2
                ltac:(destruct Hcl1 as [-> | ->]; discriminate)) as [L2 _].
  pose proof (parser_advance w expr _ _ _ _ P3 ltac:(discriminate)) as [L3 _].
  pose proof (parser_advance w expr _ _ _ _ P4 ltac:(discriminate)) as [L4 _].
  pose proof (parser_advance w expr _ _ _ _ P5
                ltac:(destruct Hcl2 as [-> | ->]; discriminate)) as [L5 _].
  pose proof (parser_advance w expr _ _ _ _ P6 ltac:(discriminate)) as [L6 _].
  pose proof (parser_advance w expr _ _ _ _ P7 ltac:(discriminate)) as [L7 L8].
  pose proof (fun x y => _calcBinary_numbers expr w op1 x y f1 Hf1) as B1.
  pose proof (fun x y => _calcBinary_numbers expr w op2 x y f2 Hf2) as B2.
  destruct op1 as [prm1 ty1 cl1 can1 fp1], op2 as [prm2 ty2 cl2 can2 fp2].
  cbn [tkClass canBinOp tkType] in *.
  assert (Hcan1' : can1 = true) by (destruct Hcl1 as [-> | ->]; exact Hcan1).
  assert (Hcan2' : can2 = true) by (destruct Hcl2 as [-> | ->]; exact Hcan2).
  clear Hcan1 Hcan2. subst can1 can2.
  assert (C2 : _comparePriority (mkToken prm2 ty2 cl2 true fp2)
                 (mkToken (mkParam None (Some (SText "(")) None None) TokenType.ParamOpen
                          TokenClass.ParamOpen false []) = false).
  { unfold _comparePriority. cbn [tkType]. destruct ty2; try discriminate Hf2;
      reflexivity. }
  unfold numberToken in *.
  unfold calcExpr, _stateMachine.
  eassert (Hrun : mainLoop _exFunctions expr 8 (mkMachine [] IdAndUnary 0 [] 1 w)
                  = Ok _).
  { pass P1. destruct Hcl1 as [-> | ->], Hcl2 as [-> | ->].
    all: pass P2; pass P3; pass P4; pass P5; pass P6; rewrite C2.
    all: cbv -[mainLoop parser _calcBinary _comparePriority].
    all: pass P7; rewrite B2.
    all: cbv -[mainLoop parser _calcBinary _comparePriority].
    all: last_pass Hend.
    all: reflexivity. }
  rewrite (mainLoop_enough _ _ _ _ _ Hrun I ltac:(lia)).
  cbv -[_calcBinary]. rewrite B1. reflexivity.
Qed.

End Parentheses.

Section ParenthesesText.
Local Open Scope nat_scope.
Local Open Scope list_scope.

Variable _exFunctions : string -> option ExprFunc.
Variable w : World.

Lemma parser_open_paren (expr : string) (pos : nat) (rest : string)
    (checkSign : bool) :
  strDrop pos expr = String "(" rest ->
  parser w expr pos checkSign = Ok (symbolToken "(" TokenType.ParamOpen, S pos).
Proof.
  intros H.
  rewrite (parser_symbol w expr pos "(" rest TokenType.ParamOpen checkSign
             eq_refl H eq_refl).
  rewrite Nat.add_1_r. reflexivity.
Qed.

Lemma parser_close_paren (expr : string) (pos : nat) (rest : string)
    (checkSign : bool) :
  strDrop pos expr = String ")" rest ->
  parser w expr pos checkSign = Ok (symbolToken ")" TokenType.ParamClose, S pos).
Proof.
  intros H.
  rewrite (parser_symbol w expr pos ")" rest TokenType.ParamClose checkSign
             eq_refl H eq_refl).
  rewrite Nat.add_1_r. reflexivity.
Qed.

(** X16.  Parentheses group before the priorities do: in [(a op1 b) op2 c]
    the first operator is applied first and in [a op1 (b op2 c)] the second,
    whatever the two operator symbols are. *)
Theorem calcExpr_parentheses_group_first (s1 sym1 s2 sym2 s3 : string)
    (ty1 ty2 : TokenType.t) (f1 f2 : number -> number -> number) :
  plainNumeral s1 = true -> plainNumeral s2 = true -> plainNumeral s3 = true ->
  Str2TokenType sym1 = Some ty1 -> numericOf ty1 = Some f1 ->
  Str2TokenType sym2 = Some ty2 -> numericOf ty2 = Some f2 ->
  calcExpr _exFunctions
    (String "=" (String "(" (String.append s1 (String.append sym1
       (String.append s2 (String ")" (String.append sym2 s3))))))) w
  = Ok (RNumber (f2 (f1 (parseFloat s1) (parseFloat s2)) (parseFloat s3)), w)
  /\ calcExpr _exFunctions
       (String "=" (String.append s1 (String.append sym1 (String "("
          (String.append s2 (String.append sym2 (String.append s3 ")"))))))) w
     = Ok (RNumber (f1 (parseFloat s1) (f2 (parseFloat s2) (parseFloat s3))), w).
Proof.
  intros Hs1 Hs2 Hs3 Hty1 Hf1 Hty2 Hf2.
  pose proof (numericOf_class _ _ Hf1) as Hcl1.
  pose proof (numericOf_class _ _ Hf2) as Hcl2.
  split.
  - set (expr := String "=" _).
    assert (H0 : strDrop 1 expr
                 = String "(" (String.append s1 (String.append sym1
                     (String.append s2 (String ")" (String.append sym2
                        (String.append s3 EmptyString)))))))
      by (rewrite String_append_empty; reflexivity).
    pose proof (parser_open_paren expr 1 _ true H0) as P1.
    pose proof (strDrop_next _ _ _ _ H0) as H1.
    pose proof (parser_numeral w expr _ s1 _ H1 Hs1 (symbol_start _ _ _ Hty1)) as P2.
    pose proof (strDrop_app _ _ _ _ H1) as H2.
    pose proof (parser_symbol w expr _ sym1 _ ty1 false Hty1 H2
                  (symbolStops_operator _ _ (plainNumeral_not_eq s2 _ Hs2))) as P3.
    pose proof (strDrop_app _ _ _ _ H2) as H3.
    pose proof (parser_numeral w expr _ s2 _ H3 Hs2 eq_refl) as P4.
    pose proof (strDrop_app _ _ _ _ H3) as H4.
    pose proof (parser_close_paren expr _ _ false H4) as P5.
    pose proof (strDrop_next _ _ _ _ H4) as H5.
    pose proof (parser_symbol w expr _ sym2 _ ty2 false Hty2 H5
                  (symbolStops_operator _ _ (plainNumeral_not_eq s3 _ Hs3))) as P6.
    pose proof (strDrop_app _ _ _ _ H5) as H6.
    pose proof (parser_numeral w expr _ s3 _ H6 Hs3 eq_refl) as P7.
    pose proof (strDrop_end _ _ (strDrop_app _ _ _ _ H6)) as Hend.
    exact (calcExpr_group_first _exFunctions expr w _ _ _
             (symbolToken sym1 ty1) (symbolToken sym2 ty2) f1 f2 _ _ _ _ _ _ _
             P1 P2 P3 P4 P5 P6 P7 Hend Hcl1 Hcl2 Hf1 Hf2).
  - set (expr := String "=" _).
    assert (H0 : strDrop 1 expr
                 = String.append s1 (String.append sym1 (String "("
                     (String.append s2 (String.append sym2
                        (String.append s3 (String ")" EmptyString)))))))
      by reflexivity.
    pose proof (parser_numeral w expr 1 s1 _ H0 Hs1 (symbol_start _ _ _ Hty1)) as P1.
    pose proof (strDrop_app _ _ _ _ H0) as H1.
    pose proof (parser_symbol w expr _ sym1 _ ty1 false Hty1 H1
                  (symbolStops_operator sym1 (String "(" _) eq_refl)) as P2.
    pose proof (strDrop_app _ _ _ _ H1) as H2.
    pose proof (parser_open_paren expr _ _ true H2) as P3.
    pose proof (strDrop_next _ _ _ _ H2) as H3.
    pose proof (parser_numeral w expr _ s2 _ H3 Hs2 (symbol_start _ _ _ Hty2)) as P4.
    pose proof (strDrop_app _ _ _ _ H3) as H4.
    pose proof (parser_symbol w expr _ sym2 _ ty2 false Hty2 H4
                  (symbolStops_operator _ _ (plainNumeral_not_eq s3 _ Hs3))) as P5.
    pose proof (strDrop_app _ _ _ _ H4) as H5.
    pose proof (parser_numeral w expr _ s3 _ H5 Hs3 eq_refl) as P6.
    pose proof (strDrop_app _ _ _ _ H5) as H6.
    pose proof (parser_close_paren expr _ _ false H6) as P7.
    pose proof (strDrop_end _ _ (strDrop_next _ _ _ _ H6)) as Hend.
    exact (calcExpr_group_last _exFunctions expr w _ _ _
             (symbolToken sym1 ty1) (symbolToken sym2 ty2) f1 f2 _ _ _ _ _ _ _
             P1 P2 P3 P4 P5 P6 P7 Hend Hcl1 Hcl2 Hf1 Hf2).
Qed.

End ParenthesesText.

(* ===================================================================== *)
(** ** Words, malformed expressions, variables, priorities *)
(* ===================================================================== *)

Section Words.
Local Open Scope nat_scope.
Local Open Scope list_scope.

Variable _exFunctions : string -> option ExprFunc.
Variable w : World.

Lemma operand_not_paren (sp s : string) :
  allChars isSpace sp = true -> plainNumeral s = true ->
  chIs (charAt (String.append sp s) 0) "(" = false.
Proof.
  intros Hsp Hs. destruct sp as [|c sp].
  - destruct s as [|c s']; [discriminate|].
    change (charAt (String.append EmptyString (String c s')) 0) with (Some c).
    simpl in Hs. destruct (Ascii.eqb c "-" || Ascii.eqb c "+") eqn:Hsg.
    + clear -Hsg. destruct c as [[] [] [] [] [] [] [] []];
        vm_compute in Hsg |- *; try discriminate Hsg; reflexivity.
    + apply andb_prop in Hs as [Hd _].
      clear -Hd. destruct c as [[] [] [] [] [] [] [] []]; vm_compute in Hd |- *;
        try discriminate Hd; reflexivity.
  - simpl in Hsp. apply andb_prop in Hsp as [Hc _]. unfold isSpace in Hc.
    apply Ascii.eqb_eq in Hc. subst c. reflexivity.
Qed.

(** What the lexer reads at [and] and [or]. *)
Lemma parser_word (expr : string) (pos : nat) (word rest : string)
    (ty : TokenType.t) (checkSign : bool) :
  wordOperator word = Some ty ->
  strDrop pos expr = String.append word rest ->
  startsOutside isCharacterOrNum rest = true ->
  chIs (charAt rest 0) "(" = false ->
  parser w expr pos checkSign
  = Ok (mkToken (mkParam None (Some (SText word)) None None) ty TokenClass.Binary true [],
        pos + String.length word).
Proof.
  intros Hw H Hr Hp.
  assert (Hid : identifier word = true /\ opNameIndex word
                = Some (if String.eqb word "and" then 1 else 2)
                /\ ty = if String.eqb word "and" then TokenType.LogicalAnd
                        else TokenType.LogicalOr).
  { unfold wordOperator in Hw.
    destruct (String.eqb_spec word "and") as [->|_];
      [injection Hw as <-; repeat split |].
    destruct (String.eqb_spec word "or") as [->|_];
      [injection Hw as <-; repeat split | discriminate Hw]. }
  destruct Hid as (Hid & Hop & ->).
  rewrite (parser_name w expr pos word rest checkSign H Hid Hr).
  unfold parseName.
  rewrite charAt_strDrop, (strDrop_app _ _ _ _ H).
  assert (Hp' : chIs (match rest with String c _ => Some c | EmptyString => None end) "("
                = false) by (destruct rest; exact Hp).
  rewrite Hp'. unfold setToken.
  cbn [sValue withParam withType param default from_option id storedText].
  rewrite (jsSubstring_of_strDrop _ _ _ _ H), Hop.
  destruct (String.eqb word "and"); reflexivity.
Qed.

(** X17.  The operators [and] and [or] between two plain numerals give 1
    or 0: a number counts as true unless it is zero or no number at all.
    The word has to be set off from a numeral that follows it. *)
Theorem calcExpr_and_or_on_two_numerals (s1 sp1 word sp2 s2 : string)
    (ty : TokenType.t) (f : number -> number -> number) :
  plainNumeral s1 = true -> plainNumeral s2 = true ->
  allChars isSpace sp1 = true -> allChars isSpace sp2 = true ->
  wordOperator word = Some ty -> numericOf ty = Some f ->
  startsOutside isCharacterOrNum (String.append sp2 s2) = true ->
  calcExpr _exFunctions
    (String "=" (String.append s1 (String.append sp1
                   (String.append word (String.append sp2 s2))))) w
  = Ok (RNumber (f (parseFloat s1) (parseFloat s2)), w).
Proof.
  intros Hs1 Hs2 Hsp1 Hsp2 Hw Hf Hout.
  assert (Hstart : forall r, startsOutside isDigitOrPoint
                               (String.append word r) = true).
  { intros r. unfold wordOperator in Hw.
    destruct (String.eqb_spec word "and") as [->|_]; [reflexivity|].
    destruct (String.eqb_spec word "or") as [->|_]; [reflexivity|discriminate Hw]. }
  set (expr := String "=" _).
  assert (H0 : strDrop 1 expr
               = String.append EmptyString (String.append s1 (String.append sp1
                   (String.append word (String.append sp2
                      (String.append s2 EmptyString))))))
    by (rewrite String_append_empty; reflexivity).
  pose proof (parser_operand w expr 1 _ _ _ H0 eq_refl Hs1
                (startsOutside_spaced _ _ _ eq_refl Hsp1 (Hstart _))) as P1.
  pose proof (strDrop_app _ _ _ _ (strDrop_app _ _ _ _ H0)) as H1.
  pose proof (parser_spaces w expr _ sp1 _ false H1 Hsp1) as S2.
  pose proof (strDrop_app _ _ _ _ H1) as H1'.
  assert (Hout' : startsOutside isCharacterOrNum
                    (String.append sp2 (String.append s2 EmptyString)) = true)
    by (rewrite String_append_empty; exact Hout).
  assert (Hnp : chIs (charAt (String.append sp2 (String.append s2 EmptyString)) 0) "("
                = false)
    by (rewrite String_append_empty; exact (operand_not_paren _ _ Hsp2 Hs2)).
  pose proof (parser_word expr _ word _ ty false Hw H1' Hout' Hnp) as P2.
  rewrite <- S2 in P2.
  pose proof (strDrop_app _ _ _ _ H1') as H2.
  pose proof (parser_operand w expr _ _ _ _ H2 Hsp2 Hs2 eq_refl) as P3.
  pose proof (strDrop_app _ _ _ _ (strDrop_app _ _ _ _ H2)) as H3.
  rewrite (calcExpr_value_operator_value _exFunctions expr w _ _ _ _ _ _ P1 P2
             (or_introl eq_refl) P3 (strDrop_end _ _ H3)).
  exact (f_equal resultOf
           (_calcBinary_numbers expr w
              (mkToken (mkParam None (Some (SText word)) None None) ty
                       TokenClass.Binary true []) _ _ f Hf)).
Qed.

End Words.

Section MalformedTokens.
Local Open Scope nat_scope.
Local Open Scope list_scope.

Variable _exFunctions : string -> option ExprFunc.
Variable expr : string.
Variable w : World.







End MalformedTokens.

Section Malformed.
Local Open Scope nat_scope.
Local Open Scope list_scope.

Variable _exFunctions : string -> option ExprFunc.
Variable w : World.


End Malformed.

Section VariableOperands.
Local Open Scope nat_scope.
Local Open Scope list_scope.

Variable _exFunctions : string -> option ExprFunc.
Variable w : World.

Lemma symbol_not_name (sym r : string) (ty : TokenType.t)
    (f : number -> number -> number) :
  Str2TokenType sym = Some ty -> numericOf ty = Some f ->
  startsOutside isCharacterOrNum (String.append sym r) = true
  /\ chIs (charAt (String.append sym r) 0) "(" = false.
Proof.
  intros H Hf. apply Str2TokenType_cases in H. cbn [In] in H.
  repeat (destruct H as [[= <- <-]|H]); [ .. | contradiction ];
    try discriminate Hf; split; reflexivity.
Qed.

(** X19.  A variable that holds a number stands for that number on either
    side of an operator symbol, next to a plain numeral. *)
Theorem calcExpr_number_variable_as_operand (name sym s : string) (n : number)
    (ty : TokenType.t) (f : number -> number -> number) :
  identifier name = true -> opNameIndex name = None ->
  readVar w name = Some (VNumber n) ->
  plainNumeral s = true ->
  Str2TokenType sym = Some ty -> numericOf ty = Some f ->
  calcExpr _exFunctions
    (String "=" (String.append name (String.append sym s))) w
  = Ok (RNumber (f n (parseFloat s)), w)
  /\ calcExpr _exFunctions
       (String "=" (String.append s (String.append sym name))) w
     = Ok (RNumber (f (parseFloat s) n), w).
Proof.
  intros Hn Hop Hv Hs Hty Hf.
  pose proof (numericOf_class _ _ Hf) as Hcl.
  split.
  - set (expr := String "=" _).
    assert (H0 : strDrop 1 expr
                 = String.append name (String.append sym
                     (String.append s EmptyString)))
      by (rewrite String_append_empty; reflexivity).
    destruct (symbol_not_name sym (String.append s EmptyString) ty f Hty Hf)
      as [Hout Hnp].
    pose proof (parser_variable w expr 1 name _ true H0 Hn Hout Hnp Hop) as P1.
    rewrite Hv in P1.
    pose proof (strDrop_app _ _ _ _ H0) as H1.
    pose proof (parser_symbol w expr _ sym _ ty false Hty H1
                  (symbolStops_operator _ _ (plainNumeral_not_eq s _ Hs))) as P2.
    pose proof (strDrop_app _ _ _ _ H1) as H2.
    pose proof (parser_numeral w expr _ s _ H2 Hs eq_refl) as P3.
    pose proof (strDrop_end _ _ (strDrop_app _ _ _ _ H2)) as Hend.
    rewrite (calcExpr_value_operator_value _exFunctions expr w _ _ _ _ _ _
               P1 P2 Hcl P3 Hend).
    exact (f_equal resultOf
             (_calcBinary_numbers expr w (symbolToken sym ty) _ _ f Hf)).
  - set (expr := String "=" _).
    assert (H0 : strDrop 1 expr
                 = String.append s (String.append sym
                     (String.append name EmptyString)))
      by (rewrite String_append_empty; reflexivity).
    pose proof (parser_numeral w expr 1 s _ H0 Hs (symbol_start _ _ _ Hty)) as P1.
    pose proof (strDrop_app _ _ _ _ H0) as H1.
    destruct (identifier_start name EmptyString Hn) as [_ Hne].
    pose proof (parser_symbol w expr _ sym _ ty false Hty H1
                  (symbolStops_operator _ _ Hne)) as P2.
    pose proof (strDrop_app _ _ _ _ H1) as H2.
    pose proof (parser_variable w expr _ name _ true H2 Hn eq_refl eq_refl Hop) as P3.
    rewrite Hv in P3.
    pose proof (strDrop_end _ _ (strDrop_app _ _ _ _ H2)) as Hend.
    rewrite (calcExpr_value_operator_value _exFunctions expr w _ _ _ _ _ _
               P1 P2 Hcl P3 Hend).
    exact (f_equal resultOf
             (_calcBinary_numbers expr w (symbolToken sym ty) _ _ f Hf)).
Qed.

End VariableOperands.

Section Priorities.
Local Open Scope Z_scope.

Lemma opPriority_defined (ty : TokenType.t) :
  exists p, opPriority !! TokenType.index ty = Some p.
Proof. destruct ty; eexists; reflexivity. Qed.

Lemma _comparePriority_is_total (op1 : Token) :
  _comparePriority op1 op1 = true
  /\ forall op2, _comparePriority op1 op2 = true \/ _comparePriority op2 op1 = true.
Proof.
  unfold _comparePriority.
  destruct (opPriority_defined (tkType op1)) as [p1 ->].
  split; [apply Z.leb_refl|]. intros op2.
  destruct (opPriority_defined (tkType op2)) as [p2 ->].
  destruct (Z.leb_spec p2 p1); [left; reflexivity|].
  right. apply Z.leb_le. lia.
Qed.

(** X20.  The table of priorities has an entry for every type of token, so
    the comparison of two operators is a total preorder: every operator
    binds as tightly as itself, two operators compare one way or the other,
    and the comparison is transitive. *)
Theorem _comparePriority_is_a_total_preorder (op1 op2 op3 : Token) :
  _comparePriority op1 op1 = true
  /\ (_comparePriority op1 op2 = true \/ _comparePriority op2 op1 = true)
  /\ (_comparePriority op1 op2 = true -> _comparePriority op2 op3 = true ->
      _comparePriority op1 op3 = true).
Proof.
  destruct (_comparePriority_is_total op1) as [Hr Ht].
  repeat split; [exact Hr | exact (Ht op2) |].
  unfold _comparePriority.
  destruct (opPriority_defined (tkType op1)) as [p1 ->].
  destruct (opPriority_defined (tkType op2)) as [p2 ->].
  destruct (opPriority_defined (tkType op3)) as [p3 ->].
  intros H1 H2. apply Z.leb_le in H1, H2. apply Z.leb_le. lia.
Qed.

End Priorities.

Section ArrayOfTexts.
Local Open Scope nat_scope.
Local Open Scope list_scope.

Variable _exFunctions : string -> option ExprFunc.
Variable w : World.

(** X21.  An array literal keeps the numbers of its elements only: a quoted
    text as the element leaves [undefined] in the new array. *)
Theorem calcExpr_array_of_a_text_holds_undefined (body : string) :
  quotedBody "'" body = true ->
  calcExpr _exFunctions
    (String "=" (String "[" (String "'" (String.append body "']")))) w
  = Ok (RArray (newAddr w), heapPush w [None]).
Proof.
  intros Hb. set (expr := String "=" _).
  assert (P0 : parser w expr 1 true = Ok (symbolToken "[" TokenType.ArrayOpen, 2)).
  { apply (parser_symbol w expr 1 "[" (String "'" (String.append body "']"))
             TokenType.ArrayOpen true); reflexivity. }
  assert (H2 : strDrop 2 expr
               = String "'" (String.append body (String "'" (String "]" EmptyString))))
    by reflexivity.
  pose proof (parser_string w expr 2 body _ true H2 Hb) as P1.
  pose proof (strDrop_next _ _ _ _ (strDrop_app _ _ _ _ (strDrop_next _ _ _ _ H2)))
    as H3.
  destruct (parser_close expr w _ "]" EmptyString false TokenType.ArrayClose
              (or_intror eq_refl) H3) as (P2 & Hc & _ & _).
  pose proof (strDrop_end _ _ (strDrop_next _ _ _ _ H3)) as Hend.
  unfold calcExpr, _stateMachine.
  replace (S (String.length expr)) with (S (S (S (S (2 + String.length body)))))
    by (subst expr; cbn [String.length]; rewrite String_length_append;
        cbn [String.length]; lia).
  rewrite (mainLoop_open _exFunctions expr w _ _ _ _ _ _ (or_intror eq_refl) P0).
  rewrite (mainLoop_argument_close _exFunctions expr w _ _ _ _ _ _ _ _ _ _
             (or_intror eq_refl) P1 P2 Hc).
  unfold closeGroup, _execArray.
  cbn [tkClass TokenClass.eqb TokenClass.index Nat.eqb funcParams mbind Res_bind
       app map numValue param stringToken].
  rewrite mainLoop_end by exact Hend.
  reflexivity.
Qed.

End ArrayOfTexts.

(* ===================================================================== *)
(** ** Chains of one operator *)
(* ===================================================================== *)

Section Chains.
Local Open Scope nat_scope.
Local Open Scope list_scope.

Variable _exFunctions : string -> option ExprFunc.
Variable expr : string.
Variable w : World.

(** The passes over an operator and a number, after one number. *)
Lemma mainLoop_first_operator (fuel : nat) (a b : number) (op : Token)
    (q0 q1 q2 : nat) :
  parser w expr q0 false = Ok (op, q1) ->
  parser w expr q1 true = Ok (numberToken b, q2) ->
  tkClass op = TokenClass.Binary \/ tkClass op = TokenClass.Unary ->
  mainLoop _exFunctions expr (S (S fuel))
    (mkMachine [numberToken a] Binary 0 [] q0 w)
  = mainLoop _exFunctions expr fuel
      (mkMachine [numberToken a; op; numberToken b] Binary 0 [] q2 w).
Proof.
  intros P1 P2 Hcl.
  pose proof (parser_canBinOp _ _ _ _ _ _ P1) as Hcan.
  destruct op as [prm ty cl can fp]. cbn [tkClass canBinOp] in Hcl, Hcan.
  assert (Hcan' : can = true) by (destruct Hcl as [-> | ->]; exact Hcan).
  clear Hcan. subst can. unfold numberToken in *.
  destruct Hcl as [-> | ->]; pass P1; pass P2; reflexivity.
Qed.

(** The passes over the same operator again and a number: the pending
    operation is carried out first. *)
Lemma mainLoop_next_operator (fuel : nat) (a b c : number) (op : Token)
    (f : number -> number -> number) (q0 q1 q2 : nat) :
  parser w expr q0 false = Ok (op, q1) ->
  parser w expr q1 true = Ok (numberToken c, q2) ->
  tkClass op = TokenClass.Binary \/ tkClass op = TokenClass.Unary ->
  numericOf (tkType op) = Some f ->
  mainLoop _exFunctions expr (S (S fuel))
    (mkMachine [numberToken a; op; numberToken b] Binary 0 [] q0 w)
  = mainLoop _exFunctions expr fuel
      (mkMachine [numberToken (f a b); op; numberToken c] Binary 0 [] q2 w).
Proof.
  intros P1 P2 Hcl Hf.
  pose proof (parser_canBinOp _ _ _ _ _ _ P1) as Hcan.
  pose proof (fun x y => _calcBinary_numbers expr w op x y f Hf) as B.
  pose proof (proj1 (_comparePriority_is_total op)) as C.
  destruct op as [prm ty cl can fp]. cbn [tkClass canBinOp tkType] in *.
  assert (Hcan' : can = true) by (destruct Hcl as [-> | ->]; exact Hcan).
  clear Hcan. subst can. unfold numberToken in *.
  destruct Hcl as [-> | ->]; pass P1; rewrite C.
  all: cbv -[mainLoop parser _calcBinary _comparePriority].
  all: rewrite B.
  all: cbv -[mainLoop parser _calcBinary _comparePriority].
  all: pass P2; reflexivity.
Qed.

(** The pass over a number at the start of the expression. *)
Lemma mainLoop_first_value (fuel : nat) (a : number) (q : nat) :
  parser w expr 1 true = Ok (numberToken a, q) ->
  mainLoop _exFunctions expr (S fuel) (mkMachine [] IdAndUnary 0 [] 1 w)
  = mainLoop _exFunctions expr fuel (mkMachine [numberToken a] Binary 0 [] q w).
Proof. intros P. pass P. reflexivity. Qed.

Lemma chained_start (sym : string) (ss : list string) (ty : TokenType.t) :
  Str2TokenType sym = Some ty ->
  startsOutside isDigitOrPoint (chained sym ss) = true.
Proof.
  intros Hty. destruct ss as [|s r]; [reflexivity|].
  exact (symbol_start sym _ ty Hty).
Qed.

Lemma chained_length (sym : string) (ss : list string) (ty : TokenType.t) :
  Str2TokenType sym = Some ty -> forallb plainNumeral ss = true ->
  2 * length ss <= String.length (chained sym ss).
Proof.
  intros Hty. assert (1 <= String.length sym)
    by (destruct sym; [discriminate Hty | simpl; lia]).
  induction ss as [|s r IH]; [simpl; lia|].
  cbn [forallb]. intros Hall. apply andb_prop in Hall as [Hs Hall].
  assert (1 <= String.length s) by (destruct s; [discriminate Hs | simpl; lia]).
  cbn [chained length]. rewrite !String_length_append.
  specialize (IH Hall). lia.
Qed.

(** The passes over a chain of operands after the same operator symbol:
    every operation is carried out when the next operator is read. *)
Lemma mainLoop_chain (sym : string) (ty : TokenType.t)
    (f : number -> number -> number) (ss : list string) (fuel : nat)
    (a b : number) (q : nat) :
  Str2TokenType sym = Some ty -> numericOf ty = Some f ->
  forallb plainNumeral ss = true ->
  strDrop q expr = chained sym ss ->
  exists x y q',
    mainLoop _exFunctions expr (2 * length ss + S fuel)
      (mkMachine [numberToken a; symbolToken sym ty; numberToken b]
                 Binary 0 [] q w)
    = Ok (mkMachine [numberToken x; symbolToken sym ty; numberToken y]
                    Binary 0 [] q' w)
    /\ f x y = foldl f (f a b) (map parseFloat ss).
Proof.
  intros Hty Hf. revert a b q.
  induction ss as [|s r IH]; intros a b q Hall H.
  - exists a, b, q. split; [|reflexivity].
    apply mainLoop_end. cbn [pos]. exact (strDrop_end _ _ H).
  - cbn [forallb] in Hall. apply andb_prop in Hall as [Hs Hall].
    cbn [chained] in H.
    pose proof (parser_symbol w expr q sym _ ty false Hty H
                  (symbolStops_operator _ _ (plainNumeral_not_eq s _ Hs))) as P1.
    pose proof (strDrop_app _ _ _ _ H) as H1.
    pose proof (parser_numeral w expr _ s _ H1 Hs (chained_start sym r ty Hty))
      as P2.
    pose proof (strDrop_app _ _ _ _ H1) as H2.
    destruct (IH (f a b) (parseFloat s) _ Hall H2) as (x & y & q' & Hrun & Hxy).
    exists x, y, q'. split; [|exact Hxy].
    replace (2 * length (s :: r) + S fuel)
      with (S (S (2 * length r + S fuel))) by (simpl; lia).
    rewrite (mainLoop_next_operator _ a b (parseFloat s) (symbolToken sym ty) f
               _ _ _ P1 P2 (numericOf_class _ _ Hf) Hf).
    exact Hrun.
Qed.

End Chains.

Section ChainExpressions.
Local Open Scope nat_scope.
Local Open Scope list_scope.

Variable _exFunctions : string -> option ExprFunc.
Variable w : World.

(** X22.  A chain of plain numerals with the same operator symbol between
    them is evaluated from the left, however long it is: [a - b - c - d] is
    [((a - b) - c) - d]. *)
Theorem calcExpr_chain_is_evaluated_from_the_left (s1 sym : string)
    (ss : list string) (ty : TokenType.t) (f : number -> number -> number) :
  plainNumeral s1 = true -> forallb plainNumeral ss = true ->
  Str2TokenType sym = Some ty -> numericOf ty = Some f ->
  calcExpr _exFunctions (String "=" (String.append s1 (chained sym ss))) w
  = Ok (RNumber (foldl f (parseFloat s1) (map parseFloat ss)), w).
Proof.
  intros Hs1 Hall Hty Hf. set (expr := String "=" _).
  assert (H0 : strDrop 1 expr = String.append s1 (chained sym ss)) by reflexivity.
  pose proof (parser_numeral w expr 1 s1 _ H0 Hs1 (chained_start sym ss ty Hty))
    as P1.
  pose proof (strDrop_app _ _ _ _ H0) as H1.
  destruct ss as [|s2 r].
  - apply (calcExpr_single_value _exFunctions expr w _ _ P1).
    exact (strDrop_end _ _ H1).
  - cbn [forallb] in Hall. apply andb_prop in Hall as [Hs2 Hall].
    cbn [chained] in H1.
    pose proof (parser_symbol w expr _ sym _ ty false Hty H1
                  (symbolStops_operator _ _ (plainNumeral_not_eq s2 _ Hs2))) as P2.
    pose proof (strDrop_app _ _ _ _ H1) as H2.
    pose proof (parser_numeral w expr _ s2 _ H2 Hs2 (chained_start sym r ty Hty))
      as P3.
    pose proof (strDrop_app _ _ _ _ H2) as H3.
    assert (Hlen : 2 * length r + 5 <= S (String.length expr)).
    { pose proof (chained_length sym (s2 :: r) ty Hty
                    ltac:(cbn [forallb]; rewrite Hs2; exact Hall)) as L.
      assert (1 <= String.length s1)
        by (destruct s1; [discriminate Hs1 | simpl; lia]).
      subst expr. cbn [String.length]. rewrite String_length_append.
      cbn [length] in L. lia. }
    destruct (mainLoop_chain _exFunctions expr w sym ty f r
                (String.length expr - 2 * length r - 3)
                (parseFloat s1) (parseFloat s2) _ Hty Hf Hall H3)
      as (x & y & q' & Hrun & Hxy).
    unfold calcExpr, _stateMachine.
    replace (S (String.length expr))
      with (S (S (S (2 * length r + S (String.length expr - 2 * length r - 3)))))
      by lia.
    rewrite (mainLoop_first_value _exFunctions expr w _ _ _ P1).
    rewrite (mainLoop_first_operator _exFunctions expr w _ _ _ _ _ _ _ P2 P3
               (numericOf_class _ _ Hf)).
    rewrite Hrun.
    pose proof (_calcBinary_numbers expr w (symbolToken sym ty) x y f Hf) as B.
    pose proof (numericOf_class _ _ Hf) as Hcl.
    unfold symbolToken, numberToken in *.
    destruct Hcl as [Hcl | Hcl]; rewrite Hcl in *.
    all: cbv -[_calcBinary foldl map parseFloat] in B.
    all: cbv -[_calcBinary foldl map parseFloat].
    all: rewrite B.
    all: cbv -[_calcBinary foldl map parseFloat].
    all: cbn [map foldl]; rewrite <- Hxy; reflexivity.
Qed.

End ChainExpressions.

(* ===================================================================== *)
(** ** The further properties at concrete inputs *)
(* ===================================================================== *)

(** X1 on [=myArr + [1,1]]: the variables stay, the array object of
    [myArr] keeps its length, and a new array comes after it. *)
Lemma calcExpr_keeps_variables_and_array_lengths_witness :
  keepsShape myArrWorld myArrWorldAfter.
Proof.
  apply (calcExpr_keeps_variables_and_array_lengths noFunctions
           ltac:(intros name f ps w r w' E; discriminate E)
           "=myArr + [1,1]" myArrWorld myArrWorldAfter (RArray 0%nat)).
  vm_compute. reflexivity.
Defined.

(** X2 at the [<=] of [=3  <= 4]. *)
Lemma parser_reads_a_symbol_witness :
  parser defaultWorld "=3  <= 4" 2 false
  = Ok (symbolToken "<=" TokenType.LessEqual, 6%nat)
  /\ canBinOp (symbolToken "<=" TokenType.LessEqual) = true.
Proof.
  exact (parser_reads_a_symbol defaultWorld "=3  <= 4" 2 "  " "<=" " 4"
           TokenType.LessEqual false eq_refl eq_refl eq_refl eq_refl).
Defined.

(** X3 at the [#] of [=2 # 3]. *)
Lemma parser_reports_an_unknown_character_witness :
  parser defaultWorld "=2 # 3" 2 false
  = err "=2 # 3" (UnknownToken "#" 3).
Proof.
  exact (parser_reports_an_unknown_character defaultWorld "=2 # 3" 2 " " "#"
           " 3" false eq_refl eq_refl eq_refl (or_introl eq_refl)).
Defined.

(** X4 at the [pi] of [= pi*2]. *)
Lemma parser_reads_a_variable_witness :
  parser defaultWorld "= pi*2" 1 true = Ok (numberToken piValue, 4%nat).
Proof.
  pose proof (parser_reads_a_variable defaultWorld "= pi*2" 1 " " "pi" "*2" true
                eq_refl eq_refl eq_refl eq_refl eq_refl eq_refl) as H.
  vm_compute in H. vm_compute. exact H.
Defined.

(** X5 on [=12.5 <= -3]. *)
Lemma calcExpr_operator_on_two_numerals_witness :
  calcExpr noFunctions "=12.5 <= -3" defaultWorld
  = Ok (RNumber (ofZ 0), defaultWorld).
Proof.
  pose proof (calcExpr_operator_on_two_numerals noFunctions defaultWorld
                "12.5" " " "<=" " " "-3" TokenType.LessEqual _
                eq_refl eq_refl eq_refl eq_refl eq_refl eq_refl) as H.
  vm_compute in H. vm_compute. exact H.
Defined.

(** X6 on [=1 + 2 * 3]. *)
Lemma calcExpr_two_operators_follow_priority_witness :
  calcExpr noFunctions "=1 + 2 * 3" defaultWorld
  = Ok (RNumber (ofZ 7), defaultWorld).
Proof.
  pose proof (calcExpr_two_operators_follow_priority noFunctions defaultWorld
                "1" " " "+" " " "2" " " "*" " " "3"
                TokenType.Plus TokenType.Multiply _ _
                eq_refl eq_refl eq_refl eq_refl eq_refl eq_refl eq_refl
                eq_refl eq_refl eq_refl eq_refl) as H.
  vm_compute in H. vm_compute. exact H.
Defined.


(** X8 on a text with an escaped quote. *)
Lemma calcExpr_of_a_quoted_text_witness :
  calcExpr noFunctions "='it\'s'" defaultWorld = Ok (RString "it's", defaultWorld).
Proof.
  exact (calcExpr_of_a_quoted_text noFunctions defaultWorld "it\'s" eq_refl).
Defined.

(** X9 on [=-pi]. *)
Lemma calcExpr_sign_before_a_variable_witness :
  calcExpr noFunctions "=-pi" defaultWorld
  = Ok (RNumber (- piValue)%float, defaultWorld).
Proof.
  pose proof (calcExpr_sign_before_a_variable noFunctions defaultWorld true "pi"
                eq_refl eq_refl) as H.
  vm_compute in H. vm_compute. exact H.
Defined.

(** X10 on [=first(4,5)]. *)
Lemma calcExpr_calls_the_function_with_the_numbers_witness :
  calcExpr sampleFunctions "=first(4,5)" defaultWorld
  = Ok (RNumber (ofZ 4), defaultWorld).
Proof.
  pose proof (calcExpr_calls_the_function_with_the_numbers sampleFunctions
                defaultWorld "first" ")" ["4"; "5"] eq_refl eq_refl
                (or_introl eq_refl) eq_refl) as H.
  vm_compute in H. vm_compute. exact H.
Defined.

(** X11 on [=[1,2]]. *)
Lemma calcExpr_makes_a_new_array_witness :
  calcExpr noFunctions "=[1,2]" defaultWorld
  = Ok (RArray 0%nat, heapPush defaultWorld [Some (ofZ 1); Some (ofZ 2)]).
Proof.
  pose proof (calcExpr_makes_a_new_array noFunctions defaultWorld "]" ["1"; "2"]
                (or_intror eq_refl) eq_refl) as H.
  vm_compute in H. vm_compute. exact H.
Defined.

(** X12 on ['a'] and [1] around [+]. *)
Lemma calcExpr_text_and_number_witness :
  calcExpr noFunctions "='a'+1" defaultWorld = Ok (RString "a1", defaultWorld)
  /\ calcExpr noFunctions "=1+'a'" defaultWorld = Ok (RString "1a", defaultWorld).
Proof.
  pose proof (calcExpr_text_and_number noFunctions defaultWorld "a" "1" "+"
                TokenType.Plus _ eq_refl eq_refl eq_refl eq_refl) as H.
  vm_compute in H. vm_compute. exact H.
Defined.

(** X14 on [f(1, 'x')] checked against two numbers: the complaint is about
    the second argument, so the first one fits. *)
Lemma _checkFuncParams_reports_the_first_mismatch_witness :
  exists pj, funcParams sampleCall !! 0%nat = Some pj
             /\ accepts ExFuncParamType.Number pj.
Proof.
  destruct (_checkFuncParams_reports_the_first_mismatch sampleCall 2
              (Some [ExFuncParamType.Number; ExFuncParamType.Number])
              (WrongParamType (Some (SText "f")) 1) eq_refl)
    as [(_ & _ & E) | (_ & tys & i & ty & Etys & Emsg & _ & _ & Hgood)];
    [discriminate E|].
  injection Etys as <-. injection Emsg as <-.
  exact (Hgood 0%nat ExFuncParamType.Number (Nat.lt_0_succ 0) eq_refl).
Defined.

(** X16 on [=(1+2)*3] and [=1+(2*3)]. *)
Lemma calcExpr_parentheses_group_first_witness :
  calcExpr noFunctions "=(1+2)*3" defaultWorld = Ok (RNumber (ofZ 9), defaultWorld)
  /\ calcExpr noFunctions "=1+(2*3)" defaultWorld
     = Ok (RNumber (ofZ 7), defaultWorld).
Proof.
  pose proof (calcExpr_parentheses_group_first noFunctions defaultWorld
                "1" "+" "2" "*" "3" TokenType.Plus TokenType.Multiply _ _
                eq_refl eq_refl eq_refl eq_refl eq_refl eq_refl eq_refl) as H.
  vm_compute in H. vm_compute. exact H.
Defined.

(** X17 on [=1 and 0]. *)
Lemma calcExpr_and_or_on_two_numerals_witness :
  calcExpr noFunctions "=1 and 0" defaultWorld
  = Ok (RNumber (ofZ 0), defaultWorld).
Proof.
  pose proof (calcExpr_and_or_on_two_numerals noFunctions defaultWorld
                "1" " " "and" " " "0" TokenType.LogicalAnd _
                eq_refl eq_refl eq_refl eq_refl eq_refl eq_refl eq_refl) as H.
  vm_compute in H. vm_compute. exact H.
Defined.


(** X19 on [=pi*2] and [=2*pi]. *)
Lemma calcExpr_number_variable_as_operand_witness :
  calcExpr noFunctions "=pi*2" defaultWorld
  = Ok (RNumber (piValue * ofZ 2)%float, defaultWorld)
  /\ calcExpr noFunctions "=2*pi" defaultWorld
     = Ok (RNumber (ofZ 2 * piValue)%float, defaultWorld).
Proof.
  pose proof (calcExpr_number_variable_as_operand noFunctions defaultWorld
                "pi" "*" "2" piValue TokenType.Multiply _
                eq_refl eq_refl ltac:(vm_compute; reflexivity) eq_refl eq_refl
                eq_refl) as H.
  vm_compute in H. vm_compute. exact H.
Defined.

(** X21 on [=['a']]. *)
Lemma calcExpr_array_of_a_text_holds_undefined_witness :
  calcExpr noFunctions "=['a']" defaultWorld
  = Ok (RArray 0%nat, heapPush defaultWorld [None]).
Proof.
  exact (calcExpr_array_of_a_text_holds_undefined noFunctions defaultWorld "a"
           eq_refl).
Defined.

(** X22 on [=10-4-3-2]. *)
Lemma calcExpr_chain_is_evaluated_from_the_left_witness :
  calcExpr noFunctions "=10-4-3-2" defaultWorld
  = Ok (RNumber (ofZ 1), defaultWorld).
Proof.
  pose proof (calcExpr_chain_is_evaluated_from_the_left noFunctions defaultWorld
                "10" "-" ["4"; "3"; "2"] TokenType.Minus _
                eq_refl eq_refl eq_refl eq_refl) as H.
  vm_compute in H. vm_compute. exact H.
Defined.

(* ===================================================================== *)
(** ** The classes of the tokens *)
(* ===================================================================== *)

Section TokenClasses.
Local Open Scope nat_scope.
Local Open Scope list_scope.

Variable w : World.
Variable expr : string.

(** X23.  Whatever token the lexer returns, its class is the one that the
    table [Type2Class] gives for its type, also where the lexer sets the
    class itself (for [not], [and] and [or]); and the token can act as a
    binary operator exactly when that class is unary or binary. *)
Theorem parser_class_is_the_class_of_the_type (pos pos' : nat)
    (checkSign : bool) (tk : Token) :
  parser w expr pos checkSign = Ok (tk, pos') ->
  tkClass tk = lookupClass (tkType tk)
  /\ canBinOp tk = (TokenClass.eqb (tkClass tk) TokenClass.Unary
                    || TokenClass.eqb (tkClass tk) TokenClass.Binary).
Proof.
  intros H. split; [|exact (parser_canBinOp expr w _ _ _ _ H)].
  unfold parser in H. apply bind_Ok_inv in H as ([tk0 p0] & Hb & H).
  injection H as <- _. cbn [tkClass tkType withCanBinOp].
  unfold parserBody in Hb.
  destruct (charAt expr _) as [c|]; [|injection Hb as <- _; reflexivity].
  destruct (isCharacter c).
  - unfold parseName in Hb.
    destruct (chIs _ "(").
    + destruct (String.eqb _ "not"); injection Hb as <- _; reflexivity.
    + destruct (opNameIndex _) as [[|[|[|i]]]|] eqn:Hi.
      1-4: try (injection Hb as <- _; reflexivity).
      * unfold opNameIndex in Hi.
        repeat match type of Hi with
               | (if ?b then _ else _) = _ => destruct b
               end; discriminate Hi.
      * destruct (readVar w _) as [[n|s|b|a|]|]; try discriminate Hb;
          injection Hb as <- _; reflexivity.
  - destruct (if checkSign && _ then _ else _) as [ch p1].
    destruct (isDigit ch); [injection Hb as <- _; reflexivity|].
    destruct (chIs ch "'"); [injection Hb as <- _; reflexivity|].
    destruct (if _ && chIs _ "=" then _ else _) as [sym p2].
    destruct (Str2TokenType sym) as [ty|]; [|discriminate Hb].
    injection Hb as <- _. reflexivity.
Qed.

End TokenClasses.

(* ===================================================================== *)
(** ** Expressions that call no function *)
(* ===================================================================== *)

Section NoCall.
Local Open Scope nat_scope.
Local Open Scope list_scope.

Lemma charAt_allChars (test : ascii -> bool) (s : string) (pos : nat) (c : ascii) :
  allChars test s = true -> charAt s pos = Some c -> test c = true.
Proof.
  revert pos. induction s as [|d s IH]; intros pos Hall Hc; [discriminate Hc|].
  cbn [allChars] in Hall. apply andb_prop in Hall as [Hd Hall].
  destruct pos as [|pos]; [injection Hc as <-; exact Hd|].
  exact (IH pos Hall Hc).
Qed.

Variable expr : string.
Hypothesis no_paren : allChars (fun c => negb (Ascii.eqb c "(")) expr = true.

Lemma chIs_paren (pos : nat) : chIs (charAt expr pos) "(" = false.
Proof.
  destruct (charAt expr pos) as [c|] eqn:Hc; [|reflexivity].
  apply negb_true_iff. exact (charAt_allChars _ _ _ _ no_paren Hc).
Qed.

(** Without a parenthesis in the text, no token is the name of a function. *)
Lemma parser_no_function (w : World) (pos pos' : nat) (checkSign : bool)
    (tk : Token) :
  parser w expr pos checkSign = Ok (tk, pos') ->
  TokenClass.eqb (tkClass tk) TokenClass.Function = false.
Proof.
  intros H.
  unfold parser in H. apply bind_Ok_inv in H as ([tk0 p0] & Hb & H).
  injection H as <- _. cbn [tkClass tkType withCanBinOp] in *.
  unfold parserBody in Hb.
  destruct (charAt expr _) as [c|]; [|injection Hb as <- _; reflexivity].
  destruct (isCharacter c).
  - unfold parseName in Hb. rewrite chIs_paren in Hb.
    destruct (opNameIndex _) as [[|[|[|i]]]|].
    1-4: injection Hb as <- _; reflexivity.
    destruct (readVar w _) as [[n|s|b|a|]|]; try discriminate Hb;
      injection Hb as <- _; reflexivity.
  - destruct (if checkSign && _ then _ else _) as [ch p1].
    destruct (isDigit ch); [injection Hb as <- _; reflexivity|].
    destruct (chIs ch "'"); [injection Hb as <- _; reflexivity|].
    destruct (if _ && chIs _ "=" then _ else _) as [sym p2].
    destruct (Str2TokenType sym) as [ty|] eqn:Hty; [|discriminate Hb].
    injection Hb as <- _. cbn [tkClass setToken withType].
    apply Str2TokenType_cases in Hty. cbn [In] in Hty.
    repeat (destruct Hty as [[= <- <-]|Hty]); [ .. | contradiction ]; reflexivity.
Qed.

End NoCall.

Section NoCallMachine.
Local Open Scope nat_scope.
Local Open Scope list_scope.

Variable _exFunctions : string -> option ExprFunc.
Variable expr : string.

Lemma _calcUnary_class (op value t : Token) :
  _calcUnary expr op value = Ok t -> tkClass t = tkClass value.
Proof.
  unfold _calcUnary. intros H. ok_inv H; injection H as <-; reflexivity.
Qed.

Lemma _calcBinary_class (w w' : World) (op v1 v2 t : Token) :
  _calcBinary expr w op v1 v2 = Ok (t, w') -> tkClass t = tkClass v1.
Proof.
  intros H. rewrite (_calcBinary_keeps_token _ _ _ _ _ _ _ H). reflexivity.
Qed.

Lemma noFunctionToken_lookup (stack : list Token) (i : nat) (t : Token) :
  noFunctionToken stack -> stack !! i = Some t ->
  TokenClass.eqb (tkClass t) TokenClass.Function = false.
Proof. intros H Hi. exact (proj1 (Forall_lookup _ _) H i t Hi). Qed.

Lemma noFunctionToken_last (stack : list Token) (t : Token) :
  noFunctionToken stack -> last stack = Some t ->
  TokenClass.eqb (tkClass t) TokenClass.Function = false.
Proof.
  intros H Hl. rewrite last_lookup in Hl. exact (noFunctionToken_lookup _ _ _ H Hl).
Qed.

Lemma fromOption_Ok {A : Type} (o : option A) (a : A) :
  fromOption o = Ok a -> o = Some a.
Proof. destruct o; [intros [= ->]; reflexivity | discriminate]. Qed.

Lemma calcStackLeftLoop_no_function (fuel startPoint : nat)
    (stack stack' : list Token) (w w' : World) :
  noFunctionToken stack ->
  calcStackLeftLoop expr fuel startPoint stack w = Ok (stack', w') ->
  noFunctionToken stack'.
Proof.
  revert stack w. induction fuel as [|fuel IH]; intros stack w Hs H; simpl in H.
  - ok_inv H. injection H as <- _. exact Hs.
  - ok_inv H; try (injection H as <- _; exact Hs).
    eapply IH; [|exact H]. clear IH H.
    match goal with
    | Hb : _calcBinary _ _ _ ?v1 _ = Ok _,
      Hv : fromOption (stack !! _) = Ok ?v1 |- _ =>
        apply fromOption_Ok in Hv;
        pose proof (noFunctionToken_lookup _ _ _ Hs Hv) as Ht1;
        rewrite <- (_calcBinary_class _ _ _ _ _ _ Hb) in Ht1
    end.
    unfold splice. apply Forall_app. split.
    + apply Forall_take, Forall_insert; assumption.
    + apply Forall_drop, Forall_insert; assumption.
Qed.

Lemma calcStackRightLoop_no_function (fuel : nat)
    (stack stack' : list Token) (w w' : World) :
  noFunctionToken stack ->
  calcStackRightLoop expr fuel stack w = Ok (stack', w') ->
  noFunctionToken stack'.
Proof.
  revert stack w. induction fuel as [|fuel IH]; intros stack w Hs H; simpl in H.
  - ok_inv H. injection H as <- _. exact Hs.
  - ok_inv H; try (injection H as <- _; exact Hs).
    eapply IH; [|exact H]. clear IH H.
    match goal with
    | Hb : _calcBinary _ _ _ ?v1 _ = Ok _,
      Hv : fromOption (stack !! _) = Ok ?v1 |- _ =>
        apply fromOption_Ok in Hv;
        pose proof (noFunctionToken_lookup _ _ _ Hs Hv) as Ht1;
        rewrite <- (_calcBinary_class _ _ _ _ _ _ Hb) in Ht1
    end.
    apply Forall_take, Forall_insert; assumption.
Qed.

Lemma onClose_no_function (startPoint : nat) (stack stack' : list Token)
    (w w' : World) (token : Token) :
  noFunctionToken stack ->
  onCloseParamOrArrayOrFunc expr startPoint stack w = Ok (token, stack', w') ->
  noFunctionToken stack'
  /\ TokenClass.eqb (tkClass token) TokenClass.Function = false.
Proof.
  unfold onCloseParamOrArrayOrFunc. intros Hs H.
  apply bind_Ok_inv in H as ([stack1 w1] & Hl & H).
  apply calcStackLeftLoop_no_function in Hl; [|exact Hs].
  ok_inv H. injection H as <- <- _. split.
  - apply Forall_take. exact Hl.
  - eapply noFunctionToken_last; eassumption.
Qed.

Lemma onCommaOrClose_no_call (m : Machine) (token : Token) :
  noFunctionToken (stack m) ->
  onCommaOrClose _exFunctions expr m token
  = onCommaOrClose noFunctions expr m token.
Proof.
  intros Hs. unfold onCommaOrClose.
  destruct (startPoint m =? 0); [reflexivity|].
  destruct (stack m !! (startPoint m - 1)) as [funcToken|] eqn:Hf; [|reflexivity].
  cbn [fromOption mbind Res_bind].
  rewrite (noFunctionToken_lookup _ _ _ Hs Hf). reflexivity.
Qed.

Lemma noFunctionToken_snoc (stack : list Token) (t : Token) :
  noFunctionToken stack ->
  TokenClass.eqb (tkClass t) TokenClass.Function = false ->
  noFunctionToken (stack ++ [t]).
Proof.
  intros Hs Ht. apply Forall_app. split; [exact Hs|].
  apply Forall_cons. split; [exact Ht | apply Forall_nil_2].
Qed.

Lemma onBinary_no_function (m m' : Machine) (token : Token) :
  noFunctionToken (stack m) ->
  TokenClass.eqb (tkClass token) TokenClass.Function = false ->
  onBinary expr m token = Ok m' -> noFunctionToken (stack m').
Proof.
  unfold onBinary. intros Hs Ht H. ok_inv H.
  match goal with
  | Hx : _ = Ok (?st, _) |- _ =>
      assert (Hst : noFunctionToken st);
      [ ok_inv Hx;
        first [ injection Hx as <- _; exact Hs
              | exact (calcStackLeftLoop_no_function _ _ _ _ _ _ Hs Hx) ]
      | injection H as <-; cbn [stack]; exact (noFunctionToken_snoc _ _ Hst Ht) ]
  end.
Qed.

Lemma onValue_no_function (m m' : Machine) (token : Token) :
  noFunctionToken (stack m) ->
  TokenClass.eqb (tkClass token) TokenClass.Function = false ->
  onValue expr m token = Ok m' -> noFunctionToken (stack m').
Proof.
  unfold onValue. intros Hs Ht H.
  destruct (isBinaryState (state m)); [discriminate H|].
  apply bind_Ok_inv in H as (top & _ & H).
  apply bind_Ok_inv in H as (below & _ & H).
  apply bind_Ok_inv in H as ([token' stack1] & Hu & H).
  apply bind_Ok_inv in H as ([stack2 w2] & Hr & H).
  injection H as <-. cbn [stack].
  eapply calcStackRightLoop_no_function; [|exact Hr].
  assert (Hp : noFunctionToken stack1
               /\ TokenClass.eqb (tkClass token') TokenClass.Function = false).
  { destruct top as [op|]; [destruct below|];
      try (injection Hu as <- <-; split; assumption).
    apply bind_Ok_inv in Hu as (t & Hc & Hu). injection Hu as <- <-.
    split; [apply Forall_take; exact Hs|].
    rewrite (_calcUnary_class _ _ _ Hc). exact Ht. }
  exact (noFunctionToken_snoc _ _ (proj1 Hp) (proj2 Hp)).
Qed.

Lemma onCommaOrClose_no_function (m m' : Machine) (token : Token) :
  noFunctionToken (stack m) ->
  onCommaOrClose _exFunctions expr m token = Ok m' ->
  noFunctionToken (stack m').
Proof.
  intros Hs H. unfold onCommaOrClose in H.
  destruct (startPoint m =? 0); [discriminate H|].
  destruct (stack m !! (startPoint m - 1)) as [funcToken|] eqn:Hf;
    [|discriminate H].
  cbn [fromOption mbind Res_bind] in H.
  pose proof (noFunctionToken_lookup _ _ _ Hs Hf) as Hfc.
  rewrite Hfc in H. cbn [orb] in H.
  match type of H with (if ?c then _ else _) = _ => destruct c end;
    [discriminate H|].
  apply bind_Ok_inv in H as ([[tok stack1] w1] & Hmid & H).
  assert (Hp : noFunctionToken stack1
               /\ TokenClass.eqb (tkClass tok) TokenClass.Function = false).
  { clear H.
    match type of Hmid with (if ?c then _ else _) = _ => destruct c end;
      [| exact (onClose_no_function _ _ _ _ _ _ Hs Hmid)].
    apply bind_Ok_inv in Hmid as ([[funcToken' stack2] w2] & H1 & H2).
    unfold _execArray in H2. injection H2 as <- <- _.
    split; [|reflexivity].
    match type of H1 with (if ?c then _ else _) = _ => destruct c end.
    - apply bind_Ok_inv in H1 as ([[tok1 stack3] w3] & H1 & H3).
      injection H3 as _ <- _.
      destruct (onClose_no_function _ _ _ _ _ _ Hs H1) as [Hs3 _].
      apply Forall_insert; [exact Hs3 | exact Hfc].
    - injection H1 as _ <- _. exact Hs. }
  destruct Hp as [Hs1 Htok].
  match type of H with (if ?c then _ else _) = _ => destruct c end.
  - injection H as <-. cbn [stack]. apply Forall_insert; assumption.
  - apply bind_Ok_inv in H as (funcToken2 & Hf2 & H).
    injection H as <-. cbn [stack]. apply fromOption_Ok in Hf2.
    apply Forall_insert; [exact Hs1|].
    exact (noFunctionToken_lookup _ _ _ Hs1 Hf2).
Qed.

Lemma onToken_no_call (m : Machine) (token : Token) :
  noFunctionToken (stack m) ->
  TokenClass.eqb (tkClass token) TokenClass.Function = false ->
  onToken _exFunctions expr m token = onToken noFunctions expr m token
  /\ forall m', onToken _exFunctions expr m token = Ok m' ->
       noFunctionToken (stack m').
Proof.
  intros Hs Ht. unfold onToken.
  destruct (tkClass token) eqn:Hcl; try discriminate Ht.
  all: split; try reflexivity; try (apply onCommaOrClose_no_call; exact Hs).
  all: intros m' H.
  all: try (exact (onCommaOrClose_no_function _ _ _ Hs H)).
  all: try (injection H as <-; exact Hs).
  all: try (exact (onValue_no_function _ _ _ Hs ltac:(rewrite Hcl; reflexivity) H)).
  all: try (exact (onBinary_no_function _ _ _ Hs ltac:(rewrite Hcl; reflexivity) H)).
  all: unfold onOpen, onUnary in H; ok_inv H;
    first [ injection H as <-; cbn [stack];
            apply noFunctionToken_snoc;
            [exact Hs | cbn [tkClass withFuncParams]; rewrite Hcl; reflexivity]
          | exact (onBinary_no_function _ _ _ Hs
                     ltac:(rewrite Hcl; reflexivity) H) ].
Qed.

Hypothesis no_paren : allChars (fun c => negb (Ascii.eqb c "(")) expr = true.

Lemma mainLoop_no_call (fuel : nat) (m : Machine) :
  noFunctionToken (stack m) ->
  mainLoop _exFunctions expr fuel m = mainLoop noFunctions expr fuel m.
Proof.
  revert m. induction fuel as [|fuel IH]; intros m Hs; [reflexivity|].
  rewrite !mainLoop_S.
  destruct (parser (world m) expr (pos m) (negb (isBinaryState (state m))))
    as [[token pos']| |] eqn:Hp; try reflexivity.
  cbn [mbind Res_bind].
  pose proof (parser_no_function expr no_paren _ _ _ _ _ Hp) as Ht.
  set (m1 := mkMachine (stack m) (state m) (startPoint m) (startPoints m) pos'
                       (world m)).
  destruct (onToken_no_call m1 token Hs Ht) as [E Hinv].
  assert (Hstep : onToken _exFunctions expr m1 token
                  ≫= mainLoop _exFunctions expr fuel
                  = onToken noFunctions expr m1 token
                    ≫= mainLoop noFunctions expr fuel).
  { rewrite <- E.
    destruct (onToken _exFunctions expr m1 token) as [m2| |] eqn:H2;
      try reflexivity.
    cbn [mbind Res_bind]. apply IH. exact (Hinv m2 eq_refl). }
  destruct (tkClass token); first [reflexivity | exact Hstep].
Qed.

(** X24.  An expression without an opening parenthesis never consults the
    registry of functions: whatever is registered, it evaluates as it does
    with no function at all. *)
Theorem calcExpr_without_parenthesis_calls_no_function (w : World) :
  calcExpr _exFunctions expr w = calcExpr noFunctions expr w.
Proof.
  unfold calcExpr, _stateMachine.
  rewrite (mainLoop_no_call _ (mkMachine [] IdAndUnary 0 [] 1 w)
             (Forall_nil_2 _)).
  reflexivity.
Qed.

End NoCallMachine.

(* ===================================================================== *)
(** ** Expressions without an effect *)
(* ===================================================================== *)

Section Scalars.
Local Open Scope nat_scope.
Local Open Scope list_scope.

Variable expr : string.

Lemma _calcUnary_scalar (op value t : Token) :
  scalarToken value -> _calcUnary expr op value = Ok t -> scalarToken t.
Proof.
  unfold _calcUnary. intros Hv H. ok_inv H; injection H as <-; exact Hv.
Qed.

Lemma execOp_scalar (w w' : World) (v1 v2 v1' : Token)
    (f : number -> number -> number) (allowOther : bool) (v : option number) :
  paTypeIs (paType v1) ExFuncParamType.Array = false ->
  paTypeIs (paType v2) ExFuncParamType.Array = false ->
  execOp expr w v1 v2 f allowOther = Ok (ExecTrue v v1' w') ->
  v1' = v1 /\ w' = w.
Proof.
  unfold execOp. intros -> ->. cbn [orb]. intros H.
  ok_inv H; try discriminate H. injection H as _ <- <-. auto.
Qed.

Lemma _calcBinary_scalar (w w' : World) (op v1 v2 t : Token) :
  scalarToken v1 -> scalarToken v2 ->
  _calcBinary expr w op v1 v2 = Ok (t, w') -> scalarToken t /\ w' = w.
Proof.
  intros (F1 & A1 & T1) (F2 & A2 & T2). unfold _calcBinary. intros H.
  destruct (tkType op); ok_inv H;
    repeat match goal with
           | E : execOp _ _ _ _ _ _ = Ok (ExecTrue _ _ _) |- _ =>
               apply (execOp_scalar _ _ _ _ _ _ _ _ T1 T2) in E as [-> ->]
           end;
    injection H as <- <-; (split; [|reflexivity]);
    repeat split; assumption.
Qed.

Lemma scalar_lookup (stack : list Token) (i : nat) (t : Token) :
  Forall scalarToken stack -> fromOption (stack !! i) = Ok t -> scalarToken t.
Proof.
  intros H Hi. apply fromOption_Ok in Hi. exact (proj1 (Forall_lookup _ _) H i t Hi).
Qed.

Lemma calcStackLeftLoop_scalar (fuel startPoint : nat)
    (stack stack' : list Token) (w w' : World) :
  Forall scalarToken stack ->
  calcStackLeftLoop expr fuel startPoint stack w = Ok (stack', w') ->
  Forall scalarToken stack' /\ w' = w.
Proof.
  revert stack w. induction fuel as [|fuel IH]; intros stack w Hs H; simpl in H.
  - ok_inv H. injection H as <- <-. auto.
  - ok_inv H; try (injection H as <- <-; auto).
    match goal with
    | Hb : _calcBinary _ _ _ ?v1 ?v2 = Ok _,
      H1 : fromOption (stack !! _) = Ok ?v1,
      H2 : fromOption (stack !! _) = Ok ?v2 |- _ =>
        destruct (_calcBinary_scalar _ _ _ _ _ _
                    (scalar_lookup _ _ _ Hs H1) (scalar_lookup _ _ _ Hs H2) Hb)
          as [Ht ->]
    end.
    eapply IH; [|exact H].
    unfold splice. apply Forall_app. split.
    + apply Forall_take, Forall_insert; assumption.
    + apply Forall_drop, Forall_insert; assumption.
Qed.

Lemma calcStackRightLoop_scalar (fuel : nat)
    (stack stack' : list Token) (w w' : World) :
  Forall scalarToken stack ->
  calcStackRightLoop expr fuel stack w = Ok (stack', w') ->
  Forall scalarToken stack' /\ w' = w.
Proof.
  revert stack w. induction fuel as [|fuel IH]; intros stack w Hs H; simpl in H.
  - ok_inv H. injection H as <- <-. auto.
  - ok_inv H; try (injection H as <- <-; auto).
    match goal with
    | Hb : _calcBinary _ _ _ ?v1 ?v2 = Ok _,
      H1 : fromOption (stack !! _) = Ok ?v1,
      H2 : fromOption (stack !! _) = Ok ?v2 |- _ =>
        destruct (_calcBinary_scalar _ _ _ _ _ _
                    (scalar_lookup _ _ _ Hs H1) (scalar_lookup _ _ _ Hs H2) Hb)
          as [Ht ->]
    end.
    eapply IH; [|exact H].
    apply Forall_take, Forall_insert; assumption.
Qed.

Lemma onClose_scalar (startPoint : nat) (stack stack' : list Token)
    (w w' : World) (token : Token) :
  Forall scalarToken stack ->
  onCloseParamOrArrayOrFunc expr startPoint stack w = Ok (token, stack', w') ->
  Forall scalarToken stack' /\ scalarToken token /\ w' = w.
Proof.
  unfold onCloseParamOrArrayOrFunc. intros Hs H.
  apply bind_Ok_inv in H as ([stack1 w1] & Hl & H).
  apply calcStackLeftLoop_scalar in Hl as [Hl ->]; [|exact Hs].
  ok_inv H. injection H as <- <- <-.
  split; [apply Forall_take; exact Hl|]. split; [|reflexivity].
  match goal with
  | E : last stack1 = Some _ |- _ =>
      rewrite last_lookup in E; exact (proj1 (Forall_lookup _ _) Hl _ _ E)
  end.
Qed.

Lemma scalar_snoc (stack : list Token) (t : Token) :
  Forall scalarToken stack -> scalarToken t -> Forall scalarToken (stack ++ [t]).
Proof.
  intros Hs Ht. apply Forall_app. split; [exact Hs|].
  apply Forall_cons. split; [exact Ht | apply Forall_nil_2].
Qed.

Lemma onBinary_scalar (m m' : Machine) (token : Token) :
  Forall scalarToken (stack m) -> scalarToken token ->
  onBinary expr m token = Ok m' ->
  Forall scalarToken (stack m') /\ world m' = world m.
Proof.
  unfold onBinary. intros Hs Ht H. ok_inv H.
  match goal with
  | Hx : _ = Ok (?st, ?w1) |- _ =>
      assert (Hst : Forall scalarToken st /\ w1 = world m);
      [ ok_inv Hx;
        first [ injection Hx as <- <-; auto
              | exact (calcStackLeftLoop_scalar _ _ _ _ _ _ Hs Hx) ]
      | destruct Hst as [Hst ->]; injection H as <-; cbn [stack world];
        split; [exact (scalar_snoc _ _ Hst Ht) | reflexivity] ]
  end.
Qed.

Lemma onValue_scalar (m m' : Machine) (token : Token) :
  Forall scalarToken (stack m) -> scalarToken token ->
  onValue expr m token = Ok m' ->
  Forall scalarToken (stack m') /\ world m' = world m.
Proof.
  unfold onValue. intros Hs Ht H.
  destruct (isBinaryState (state m)); [discriminate H|].
  apply bind_Ok_inv in H as (top & _ & H).
  apply bind_Ok_inv in H as (below & _ & H).
  apply bind_Ok_inv in H as ([token' stack1] & Hu & H).
  apply bind_Ok_inv in H as ([stack2 w2] & Hr & H).
  injection H as <-. cbn [stack world].
  eapply calcStackRightLoop_scalar; [|exact Hr].
  assert (Hp : Forall scalarToken stack1 /\ scalarToken token').
  { destruct top as [op|]; [destruct below|];
      try (injection Hu as <- <-; split; assumption).
    apply bind_Ok_inv in Hu as (t & Hc & Hu). injection Hu as <- <-.
    split; [apply Forall_take; exact Hs|].
    exact (_calcUnary_scalar _ _ _ Ht Hc). }
  exact (scalar_snoc _ _ (proj1 Hp) (proj2 Hp)).
Qed.

Variable _exFunctions : string -> option ExprFunc.

Lemma onCommaOrClose_scalar (m m' : Machine) (token : Token) :
  Forall scalarToken (stack m) ->
  onCommaOrClose _exFunctions expr m token = Ok m' ->
  Forall scalarToken (stack m') /\ world m' = world m.
Proof.
  intros Hs H. unfold onCommaOrClose in H.
  destruct (startPoint m =? 0); [discriminate H|].
  destruct (stack m !! (startPoint m - 1)) as [funcToken|] eqn:Hf;
    [|discriminate H].
  cbn [fromOption mbind Res_bind] in H.
  destruct (proj1 (Forall_lookup _ _) Hs _ _ Hf) as (Hfc & Hac & _).
  rewrite Hfc, Hac in H. cbn [orb andb negb] in H.
  match type of H with (if ?c then _ else _) = _ => destruct c eqn:Hcomma end;
    [discriminate H|].
  apply bind_Ok_inv in H as ([[tok stack1] w1] & Hmid & H).
  destruct (onClose_scalar _ _ _ _ _ _ Hs Hmid) as (Hs1 & Htok & ->).
  match type of H with (if ?c then _ else _) = _ => destruct c end.
  - injection H as <-. cbn [stack world].
    split; [apply Forall_insert; assumption | reflexivity].
  - apply bind_Ok_inv in H as (funcToken2 & Hf2 & H).
    injection H as <-. cbn [stack world]. split; [|reflexivity].
    apply Forall_insert; [exact Hs1|].
    exact (scalar_lookup _ _ _ Hs1 Hf2).
Qed.

Lemma onToken_scalar (m m' : Machine) (token : Token) :
  Forall scalarToken (stack m) -> scalarToken token ->
  onToken _exFunctions expr m token = Ok m' ->
  Forall scalarToken (stack m') /\ world m' = world m.
Proof.
  intros Hs Ht. pose proof Ht as (Hf & Ha & _). unfold onToken.
  destruct (tkClass token) eqn:Hcl; try discriminate Hf; try discriminate Ha.
  all: intros H.
  all: try (exact (onCommaOrClose_scalar _ _ _ Hs H)).
  all: try (injection H as <-; auto).
  all: try (exact (onValue_scalar _ _ _ Hs Ht H)).
  all: try (exact (onBinary_scalar _ _ _ Hs Ht H)).
  all: unfold onOpen, onUnary in H; ok_inv H;
    first [ injection H as <-; cbn [stack world];
            split; [exact (scalar_snoc _ _ Hs Ht) | reflexivity]
          | exact (onBinary_scalar _ _ _ Hs Ht H) ].
Qed.

End Scalars.

Section ScalarExpressions.
Local Open Scope nat_scope.
Local Open Scope list_scope.

Variable _exFunctions : string -> option ExprFunc.
Variable expr : string.
Hypothesis no_group : opensNoGroup expr = true.

Lemma charAt_no_group (pos : nat) (c : ascii) :
  charAt expr pos = Some c ->
  Ascii.eqb c "(" = false /\ Ascii.eqb c "[" = false.
Proof.
  intros Hc. pose proof (charAt_allChars _ _ _ _ no_group Hc) as H.
  apply andb_prop in H as [H1 H2].
  split; apply negb_true_iff; assumption.
Qed.

Lemma readVar_no_array (w : World) (name : string) (a : addr) :
  noArrayVariable w -> readVar w name <> Some (VArray a).
Proof.
  intros Hw. unfold readVar.
  destruct (vars w !! name) as [v|] eqn:Hv.
  - intros [= ->]. exact (Hw name a Hv).
  - destruct (existsb _ _); discriminate.
Qed.

(** Without an opening parenthesis or bracket in the text and without an
    array in the variables, every token is a scalar one. *)
Lemma parser_scalar (w : World) (pos pos' : nat) (checkSign : bool) (tk : Token) :
  noArrayVariable w ->
  parser w expr pos checkSign = Ok (tk, pos') -> scalarToken tk.
Proof.
  intros Hw H.
  unfold parser in H. apply bind_Ok_inv in H as ([tk0 p0] & Hb & H).
  injection H as <- _. unfold scalarToken. cbn [tkClass paType withCanBinOp param].
  unfold parserBody in Hb.
  destruct (charAt expr _) as [c|] eqn:Hc;
    [|injection Hb as <- _; repeat split].
  destruct (charAt_no_group _ _ Hc) as [Hp Hbr].
  destruct (isCharacter c).
  - unfold parseName in Hb.
    match type of Hb with
    | (if chIs (charAt expr ?q) "(" then _ else _) = _ =>
        assert (Hq : chIs (charAt expr q) "(" = false)
          by (destruct (charAt expr q) as [d|] eqn:Hd; [|reflexivity];
              exact (proj1 (charAt_no_group _ _ Hd)));
        rewrite Hq in Hb
    end.
    destruct (opNameIndex _) as [[|[|[|i]]]|].
    1-4: injection Hb as <- _; repeat split.
    destruct (readVar w _) as [[n|s|b|a|]|] eqn:Hv; try discriminate Hb;
      try (injection Hb as <- _; repeat split).
    exfalso. exact (readVar_no_array _ _ _ Hw Hv).
  - destruct (checkSign && ((Ascii.eqb c "-" || Ascii.eqb c "+")
                            && isDigit (charAt expr (S _)))) eqn:Hsign.
    + apply andb_prop in Hsign as [_ Hsign]. apply andb_prop in Hsign as [_ Hd].
      rewrite Hd in Hb. injection Hb as <- _. repeat split.
    + destruct (isDigit (Some c)); [injection Hb as <- _; repeat split|].
      destruct (chIs (Some c) "'"); [injection Hb as <- _; repeat split|].
      destruct (if _ && chIs _ "=" then _ else _) as [sym p2] eqn:Hsym.
      destruct (Str2TokenType sym) as [ty|] eqn:Hty; [|discriminate Hb].
      injection Hb as <- _. cbn [tkClass paType setToken withType withParam param].
      assert (Hne : sym <> "[").
      { intros ->.
        match type of Hsym with
        | (if ?b then _ else _) = _ => destruct b
        end; cbn in Hsym; injection Hsym; intros; subst c; discriminate Hbr. }
      apply Str2TokenType_cases in Hty. cbn [In] in Hty.
      repeat (destruct Hty as [[= <- <-]|Hty]); [ .. | contradiction ];
        first [ contradiction Hne; reflexivity | repeat split ].
Qed.

Lemma mainLoop_scalar (fuel : nat) (m m' : Machine) :
  noArrayVariable (world m) -> Forall scalarToken (stack m) ->
  mainLoop _exFunctions expr fuel m = Ok m' ->
  Forall scalarToken (stack m') /\ world m' = world m.
Proof.
  revert m. induction fuel as [|fuel IH]; intros m Hw Hs H; [discriminate H|].
  rewrite mainLoop_S in H.
  apply bind_Ok_inv in H as ([token pos'] & Hp & H).
  pose proof (parser_scalar _ _ _ _ _ Hw Hp) as Ht.
  set (m1 := mkMachine (stack m) (state m) (startPoint m) (startPoints m) pos'
                       (world m)) in *.
  assert (Hstep : onToken _exFunctions expr m1 token
                  ≫= mainLoop _exFunctions expr fuel = Ok m' ->
                  Forall scalarToken (stack m') /\ world m' = world m).
  { intros Hx. apply bind_Ok_inv in Hx as (m2 & H2 & Hx).
    destruct (onToken_scalar expr _exFunctions m1 m2 token Hs Ht H2) as [Hs2 Hw2].
    cbn [world m1] in Hw2.
    destruct (IH m2 ltac:(rewrite Hw2; exact Hw) Hs2 Hx) as [Hs' Hw'].
    split; [exact Hs' | congruence]. }
  destruct (tkClass token); first [ exact (Hstep H) | injection H as <-; auto ].
Qed.

(** X25.  An expression without an opening parenthesis or bracket, in a
    context where no variable is bound to an array, has no effect: when it
    returns, the variables and the arrays are exactly as they were. *)
Theorem calcExpr_of_a_scalar_expression_has_no_effect (w w' : World)
    (v : ExprResult) :
  noArrayVariable w ->
  calcExpr _exFunctions expr w = Ok (v, w') -> w' = w.
Proof.
  intros Hw H. unfold calcExpr, _stateMachine in H.
  apply bind_Ok_inv in H as (m & Hm & H).
  apply bind_Ok_inv in H as ([stack' w1] & Hl & H).
  apply mainLoop_scalar in Hm as [Hs Hwm]; [|exact Hw|apply Forall_nil_2].
  cbn [world] in Hwm.
  apply calcStackLeftLoop_scalar in Hl as [_ ->]; [|exact Hs].
  ok_inv H. injection H as _ <-. exact Hwm.
Qed.

End ScalarExpressions.

(* ===================================================================== *)
(** ** These properties at concrete inputs *)
(* ===================================================================== *)

(** X23 at the [and] of [=1 and 0]. *)
Lemma parser_class_is_the_class_of_the_type_witness :
  tkClass andToken = lookupClass (tkType andToken)
  /\ canBinOp andToken = (TokenClass.eqb (tkClass andToken) TokenClass.Unary
                          || TokenClass.eqb (tkClass andToken) TokenClass.Binary).
Proof.
  exact (parser_class_is_the_class_of_the_type defaultWorld "=1 and 0" 2 6 false
           andToken eq_refl).
Defined.

(** X24 on [=2*3] with the registry of the examples. *)
Lemma calcExpr_without_parenthesis_calls_no_function_witness :
  calcExpr sampleFunctions "=2*3" defaultWorld
  = calcExpr noFunctions "=2*3" defaultWorld.
Proof.
  exact (calcExpr_without_parenthesis_calls_no_function sampleFunctions "=2*3"
           eq_refl defaultWorld).
Defined.

(** X25 on [=2*3+1] in a context of three arrays and no variable. *)
Lemma calcExpr_of_a_scalar_expression_has_no_effect_witness :
  calcExpr noFunctions "=2*3+1" threeArrays = Ok (RNumber (ofZ 7), threeArrays)
  /\ threeArrays = threeArrays.
Proof.
  assert (H : calcExpr noFunctions "=2*3+1" threeArrays
              = Ok (RNumber (ofZ 7), threeArrays))
    by (vm_compute; reflexivity).
  assert (Hw : noArrayVariable threeArrays)
    by (intros name a E; cbn in E; rewrite lookup_empty in E; discriminate E).
  split; [exact H|].
  exact (calcExpr_of_a_scalar_expression_has_no_effect noFunctions "=2*3+1"
           eq_refl threeArrays threeArrays (RNumber (ofZ 7)) Hw H).
Defined.
